(** * node-postgres: the client session core and its SCRAM engine

    A shallow embedding of [packages/pg/lib/client.js] (class [Client]) and
    of [packages/pg/lib/crypto/sasl.js] (the SCRAM-SHA-256 exchange), with
    the properties the specification states about them.

    Conventions of the embedding:
    - a JavaScript string is the list of its UTF-16 code units ([jsstring]);
      [str "..."] is an ASCII literal;
    - a dynamically typed value is a [value]; a Number is NaN, an infinity
      or a finite binary64 value, written as the rational it is nearest to;
    - a function that can throw returns a [result]; an [async] function that
      rejects is a function that throws;
    - objects that are shared and mutated (queries, timers) live in a store
      and are referred to by identifiers;
    - what the client does to the outside (calls on the connection and on
      query objects, invocations of the caller's functions, events) is
      recorded in a trace; a function of the caller is recorded when it is
      invoked, and what the caller does next is a further input. *)

From Stdlib Require Import ZArith NArith List String Ascii Bool Lia.
From stdpp Require Import base option list gmap strings.
Import ListNotations.

Local Open Scope Z_scope.

(** ** JavaScript values *)

Module Js.

Definition jsstring := list N.

(* an ASCII literal as code units *)
Definition str (s : string) : jsstring :=
  map N_of_ascii (list_ascii_of_string s).

(** A Number is NaN, an infinity or a finite binary64 value.  A finite one
    is written by a rational, the way a numeric literal writes it, and
    stands for the Number nearest to that rational: [Int z] for the integer
    z, [Frac n d] for n/d.  Minus zero is not told apart from zero: neither
    String, nor parseInt, nor the test of truthiness tells them apart. *)
Inductive number :=
| NaN
| Int (z : Z)
| Infinity (negative : bool)
| Frac (n : Z) (d : positive).

Inductive value :=
| VUndefined
| VNull
| VBool (b : bool)
| VNumber (n : number)
| VString (s : jsstring)
| VFunction (id : nat).

#[global] Instance number_eq_dec : EqDecision number.
Proof. solve_decision. Defined.
#[global] Instance value_eq_dec : EqDecision value.
Proof. solve_decision. Defined.

(** *** Rounding to binary64

    Fractions are pairs of integers, the denominator positive. *)

(* n / d rounded to the nearest integer, a tie to the even one *)
Definition round_half_even (n d : Z) : Z :=
  let q := n / d in
  let r := n mod d in
  if 2 * r <? d then q
  else if d <? 2 * r then q + 1
  else if Z.even q then q else q + 1.

(* (n / d) / 2^e *)
Definition scaled2 (n d e : Z) : Z * Z :=
  if 0 <=? e then (n, d * 2 ^ e) else (n * 2 ^ (- e), d).

(* the binary64 value nearest to n / d >= 0, a tie to the even significand:
   m * 2^e with m < 2^53 and e >= -1074, as a fraction; [None] when it is
   past the finite values *)
Definition binary64 (n d : Z) : option (Z * Z) :=
  let lg := Z.log2 n - Z.log2 d in
  let '(a, b) := scaled2 n d lg in
  let l := if b <=? a then lg else lg - 1 in      (* 2^l <= n/d < 2^(l+1) *)
  let e := Z.max (l - 52) (-1074) in
  let '(a, b) := scaled2 n d e in
  let m := round_half_even a b in
  if 0 <=? e then
    if 2 ^ 1024 <=? m * 2 ^ e then None else Some (m * 2 ^ e, 1)
  else Some (m, 2 ^ (- e)).

(* the Number nearest to the integer z *)
Definition Number_of_integer (z : Z) : number :=
  match binary64 (Z.abs z) 1 with
  | Some v => Int (Z.sgn z * (v.1 / v.2))
  | None => Infinity (z <? 0)
  end.

(* ToBoolean *)
Definition truthy (v : value) : bool :=
  match v with
  | VUndefined | VNull => false
  | VBool b => b
  | VNumber NaN => false
  | VNumber (Int z) => negb (z =? 0)
  | VNumber (Infinity _) => true
  | VNumber (Frac n d) =>
      match binary64 (Z.abs n) (Z.pos d) with
      | Some v => negb (v.1 =? 0)
      | None => true
      end
  | VString s => negb (bool_decide (s = []))
  | VFunction _ => true
  end.

(* a || b *)
Definition or_else (a b : value) : value := if truthy a then a else b.

(* typeof v === 'string' *)
Definition is_string (v : value) : bool :=
  match v with VString _ => true | _ => false end.

(** Errors are told apart by constructor and message. [External] stands
    for an error object made outside this code (a socket error, a parsed
    backend ErrorResponse, a preflight error of a query). *)
Inductive error :=
| Error (message : jsstring)
| TypeError (message : jsstring)
| External (id : nat).

#[global] Instance error_eq_dec : EqDecision error.
Proof. solve_decision. Defined.

Inductive result (A : Type) :=
| Ok (a : A)
| Throw (e : error).
Arguments Ok {A} a.
Arguments Throw {A} e.

Definition rbind {A B} (r : result A) (k : A -> result B) : result B :=
  match r with
  | Ok a => k a
  | Throw e => Throw e
  end.

Definition throws {A} (r : result A) : Prop := exists e, r = Throw e.

(** *** Decimal digits, [String(n)] and [parseInt(s, 10)] *)

Definition digit_char (d : Z) : N := Z.to_N (48 + d).

Fixpoint decimal_fuel (fuel : nat) (z : Z) (acc : jsstring) : jsstring :=
  match fuel with
  | O => acc
  | S f =>
      let acc' := digit_char (z mod 10) :: acc in
      if z / 10 =? 0 then acc' else decimal_fuel f (z / 10) acc'
  end.

(* the decimal digits of z >= 0, which are no more than its binary digits *)
Definition decimal (z : Z) : jsstring :=
  decimal_fuel (S (Z.to_nat (Z.log2 z))) z [].

(** Number::toString writes a finite value v > 0 with the least number k of
    digits s for which s * 10^(n-k) is read back as v, and of two such s
    with the one nearer to v. *)

(* (n / d) * 10^j *)
Definition scaled10 (n d j : Z) : Z * Z :=
  if 0 <=? j then (n * 10 ^ j, d) else (n, d * 10 ^ (- j)).

Definition same_fraction (p q : Z * Z) : bool := p.1 * q.2 =? q.1 * p.2.

(* for n / d < 1: the least j with (n / d) * 10^j >= 1 *)
Fixpoint magnitude_below (fuel : nat) (n d j : Z) : Z :=
  match fuel with
  | O => j
  | S f => if d <=? n * 10 ^ j then j else magnitude_below f n d (j + 1)
  end.

(* the n with 10^(n-1) <= v < 10^n; the least finite value is above 10^-324 *)
Definition magnitude (v : Z * Z) : Z :=
  if v.2 <=? v.1 then Z.of_nat (length (decimal (v.1 / v.2)))
  else 1 - magnitude_below 400 v.1 v.2 1.

(* s * 10^(n-k) is read as the value v *)
Definition denotes (v : Z * Z) (s n k : Z) : bool :=
  let '(a, b) := scaled10 s 1 (n - k) in
  match binary64 a b with
  | Some w => same_fraction w v
  | None => false
  end.

(* the digits s, their number k and the position n of the point, trying
   k, k + 1, ...; seventeen digits always tell a binary64 value *)
Fixpoint shortest (fuel : nat) (v : Z * Z) (n k : Z) : Z * Z * Z :=
  let '(a, b) := scaled10 v.1 v.2 (k - n) in
  let lo := a / b in
  let hi := lo + 1 in
  let r := a mod b in
  let pick s := if s =? 10 ^ k then (10 ^ (k - 1), k, n + 1) else (s, k, n) in
  let lo_ok := denotes v lo n k in
  let hi_ok := denotes v hi n k in
  if lo_ok && hi_ok then
    if 2 * r <? b then pick lo
    else if b <? 2 * r then pick hi
    else if Z.even lo then pick lo else pick hi
  else if lo_ok then pick lo
  else if hi_ok then pick hi
  else match fuel with
       | O => pick lo
       | S f => shortest f v n (k + 1)
       end.

Definition zeros (n : Z) : jsstring := repeat 48%N (Z.to_nat n).

(* the digits laid out: plainly when -5 <= n <= 21, with an exponent
   otherwise *)
Definition number_text (s k n : Z) : jsstring :=
  let ds := decimal s in
  if (-6 <? n) && (n <=? 21) then
    if k <=? n then ds ++ zeros (n - k)
    else if 0 <? n then take (Z.to_nat n) ds ++ 46%N :: drop (Z.to_nat n) ds
    else str "0." ++ zeros (- n) ++ ds
  else
    let e := n - 1 in
    let exponent := (if e <? 0 then 45%N else 43%N) :: decimal (Z.abs e) in
    match ds with
    | [d] => d :: 101%N :: exponent
    | d :: rest => d :: 46%N :: rest ++ 101%N :: exponent
    | [] => []
    end.

(* String of the Number nearest to n / d >= 0, negated when [negative] *)
Definition String_of_ratio (negative : bool) (n d : Z) : jsstring :=
  match binary64 n d with
  | None => if negative then str "-Infinity" else str "Infinity"
  | Some v =>
      if v.1 =? 0 then str "0"
      else
        let '(s, k, n) := shortest 20 v (magnitude v) 1 in
        (if negative then [45%N] else []) ++ number_text s k n
  end.

(* String(n) *)
Definition String_of_number (n : number) : jsstring :=
  match n with
  | NaN => str "NaN"
  | Infinity negative => if negative then str "-Infinity" else str "Infinity"
  | Int z => String_of_ratio (z <? 0) (Z.abs z) 1
  | Frac n d => String_of_ratio (n <? 0) (Z.abs n) (Z.pos d)
  end.

Section ToString.
(* the source text of a function object, as Function.prototype.toString
   gives it *)
Variable function_text : nat -> jsstring.

(* ToString, as applied by '' + v and by parseInt *)
Definition ToString (v : value) : jsstring :=
  match v with
  | VUndefined => str "undefined"
  | VNull => str "null"
  | VBool true => str "true"
  | VBool false => str "false"
  | VNumber n => String_of_number n
  | VString s => s
  | VFunction f => function_text f
  end.
End ToString.

Definition is_digit (c : N) : bool := ((48 <=? c) && (c <=? 57))%N.

(* StrWhiteSpaceChar: WhiteSpace and LineTerminator code units *)
Definition is_whitespace (c : N) : bool :=
  bool_decide (c ∈ [9; 10; 11; 12; 13; 32; 160; 5760; 8232; 8233; 8239; 8287;
                    12288; 65279]%N)
  || ((8192 <=? c) && (c <=? 8202))%N.

Fixpoint skip_whitespace (s : jsstring) : jsstring :=
  match s with
  | c :: s' => if is_whitespace c then skip_whitespace s' else s
  | [] => []
  end.

Fixpoint digits_value (s : jsstring) (acc : Z) : Z :=
  match s with
  | c :: s' => if is_digit c then digits_value s' (10 * acc + (Z.of_N c - 48)) else acc
  | [] => acc
  end.

Definition starts_with_digit (s : jsstring) : bool :=
  match s with
  | c :: _ => is_digit c
  | [] => false
  end.

(* parseInt(s, 10) on a string: leading white space, an optional sign, then
   the longest run of decimal digits; NaN when that run is empty, and
   otherwise the Number nearest to the integer the digits write *)
Definition parseInt10_string (s : jsstring) : number :=
  let s1 := skip_whitespace s in
  let '(sign, s2) :=
    match s1 with
    | 45%N :: r => (-1, r)
    | 43%N :: r => (1, r)
    | _ => (1, s1)
    end in
  if starts_with_digit s2 then Number_of_integer (sign * digits_value s2 0) else NaN.

End Js.
Export Js.

(** ** The SCRAM engine ([lib/crypto/sasl.js]) *)

Module Sasl.

Definition bytes := list Z.

(* the transport handed to the engine: [this.enableChannelBinding &&
   this.connection.stream] is either falsy ([None]) or the stream object *)
Record Stream := {
  has_getPeerCertificate : bool;   (* typeof stream.getPeerCertificate === 'function' *)
  peerCertificate_raw : bytes      (* stream.getPeerCertificate().raw *)
}.

Record Session := {
  mechanism : jsstring;
  clientNonce : jsstring;
  response : jsstring;
  message : jsstring;
  serverSignature : option jsstring
}.

Definition PLUS : jsstring := str "SCRAM-SHA-256-PLUS".
Definition PLAIN : jsstring := str "SCRAM-SHA-256".

(* Array.prototype.join *)
Fixpoint join (sep : jsstring) (l : list jsstring) : jsstring :=
  match l with
  | [] => []
  | [x] => x
  | x :: l' => x ++ sep ++ join sep l'
  end.

(* Array.prototype.includes on an array of strings *)
Definition includes (l : list jsstring) (x : jsstring) : bool :=
  bool_decide (x ∈ l).

(* [nonce] is crypto.randomBytes(18).toString('base64'), the one random
   draw of the function *)
Definition startSession (mechanisms : list jsstring) (stream : option Stream)
    (nonce : jsstring) : result Session :=
  let candidates :=
    match stream with
    | Some _ => [PLUS; PLAIN]
    | None => [PLAIN]
    end in
  match find (fun candidate => includes mechanisms candidate) candidates with
  | None =>
      Throw (Error (str "SASL: Only mechanism(s) " ++ join (str " and ") candidates
                    ++ str " are supported"))
  | Some mech =>
      if bool_decide (mech = PLUS)
         && negb (match stream with
                  | Some st => has_getPeerCertificate st
                  | None => false
                  end)
      then Throw (Error (str "SASL: Mechanism SCRAM-SHA-256-PLUS requires a certificate"))
      else
        let gs2Header :=
          if bool_decide (mech = PLUS) then str "p=tls-server-end-point"
          else match stream with
               | Some _ => str "y"
               | None => str "n"
               end in
        Ok {| mechanism := mech;
              clientNonce := nonce;
              response := gs2Header ++ str ",,n=*,r=" ++ nonce;
              message := str "SASLInitialResponse";
              serverSignature := None |}
  end.

(** *** Parsing the server messages *)

(* String.prototype.split(',') *)
Fixpoint split_comma_aux (cur : jsstring) (s : jsstring) : list jsstring :=
  match s with
  | [] => [rev cur]
  | c :: s' =>
      if (c =? 44)%N then rev cur :: split_comma_aux [] s'
      else split_comma_aux (c :: cur) s'
  end.

Definition split_comma (s : jsstring) : list jsstring := split_comma_aux [] s.

(* the code units the regular expression atom [.] does not match *)
Definition is_line_terminator (c : N) : bool :=
  bool_decide (c ∈ [10; 13; 8232; 8233]%N).

(* /^.=/.test(attrValue), with name = attrValue[0] and
   value = attrValue.substring(2) *)
Definition parseAttributePair (attrValue : jsstring) : result (jsstring * jsstring) :=
  match attrValue with
  | c :: 61%N :: value =>
      if is_line_terminator c
      then Throw (Error (str "SASL: Invalid attribute pair entry"))
      else Ok ([c], value)
  | _ => Throw (Error (str "SASL: Invalid attribute pair entry"))
  end.

(* Array.prototype.map with a callback that can throw *)
Fixpoint map_result {A B} (f : A -> result B) (l : list A) : result (list B) :=
  match l with
  | [] => Ok []
  | x :: l' =>
      rbind (f x) (fun y => rbind (map_result f l') (fun ys => Ok (y :: ys)))
  end.

(* new Map(entries): a later entry replaces an earlier one with its key *)
Definition Map_of (entries : list (jsstring * jsstring)) : gmap jsstring jsstring :=
  foldl (fun m p => <[p.1 := p.2]> m) ∅ entries.

Definition parseAttributePairs (text : value) : result (gmap jsstring jsstring) :=
  match text with
  | VString s =>
      rbind (map_result parseAttributePair (split_comma s))
            (fun entries => Ok (Map_of entries))
  | _ => Throw (TypeError (str "SASL: attribute pairs text must be a string"))
  end.

Definition printable (c : N) : bool :=
  ((33 <=? c) && (c <=? 43) || (45 <=? c) && (c <=? 126))%N.

Definition isPrintableChars (text : value) : result bool :=
  match text with
  | VString s => Ok (forallb printable s)
  | _ => Throw (TypeError (str "SASL: text must be a string"))
  end.

(* [a-zA-Z0-9+/] *)
Definition base64_char (c : N) : bool :=
  ((97 <=? c) && (c <=? 122) || (65 <=? c) && (c <=? 90)
   || (48 <=? c) && (c <=? 57) || (c =? 43) || (c =? 47))%N.

(* /^(?:[a-zA-Z0-9+/]{4})*(?:[a-zA-Z0-9+/]{2}==|[a-zA-Z0-9+/]{3}=)?$/.test(text):
   groups of four base64 characters, then at most one padded group.
   [fuel] bounds the number of groups. *)
Fixpoint isBase64_fuel (fuel : nat) (text : jsstring) : bool :=
  match text with
  | [] => true
  | [a; b; 61%N; 61%N] => base64_char a && base64_char b
  | [a; b; c; 61%N] => base64_char a && base64_char b && base64_char c
  | a :: b :: c :: d :: rest =>
      base64_char a && base64_char b && base64_char c && base64_char d
      && match fuel with
         | O => false
         | S f => isBase64_fuel f rest
         end
  | _ => false
  end.

Definition isBase64 (text : jsstring) : bool := isBase64_fuel (length text) text.

(* /^[1-9][0-9]*$/.test(text) *)
Definition iteration_syntax (text : jsstring) : bool :=
  match text with
  | c :: rest => ((49 <=? c) && (c <=? 57))%N && forallb is_digit rest
  | [] => false
  end.

Record ServerFirst := {
  nonce : jsstring;
  salt : jsstring;
  iteration : number
}.

(* attrPairs.get(k) followed by the test [!v]: absent and empty are both
   falsy *)
Definition get_nonempty (m : gmap jsstring jsstring) (k : jsstring) : option jsstring :=
  match m !! k with
  | Some [] => None
  | o => o
  end.

Definition parseServerFirstMessage (data : value) : result ServerFirst :=
  rbind (parseAttributePairs data) (fun attrPairs =>
  match get_nonempty attrPairs (str "r") with
  | None => Throw (Error (str "SASL: SCRAM-SERVER-FIRST-MESSAGE: nonce missing"))
  | Some nonce =>
  rbind (isPrintableChars (VString nonce)) (fun pr =>
  if negb pr
  then Throw (Error (str "SASL: SCRAM-SERVER-FIRST-MESSAGE: nonce must only contain printable characters"))
  else
  match get_nonempty attrPairs (str "s") with
  | None => Throw (Error (str "SASL: SCRAM-SERVER-FIRST-MESSAGE: salt missing"))
  | Some salt =>
  if negb (isBase64 salt)
  then Throw (Error (str "SASL: SCRAM-SERVER-FIRST-MESSAGE: salt must be base64"))
  else
  match get_nonempty attrPairs (str "i") with
  | None => Throw (Error (str "SASL: SCRAM-SERVER-FIRST-MESSAGE: iteration missing"))
  | Some iterationText =>
  if negb (iteration_syntax iterationText)
  then Throw (Error (str "SASL: SCRAM-SERVER-FIRST-MESSAGE: invalid iteration count"))
  else Ok {| nonce := nonce; salt := salt;
             iteration := parseInt10_string iterationText |}
  end end) end).

(* `...server returned error: "${error}"` *)
Definition parseServerFinalMessage (serverData : value) : result jsstring :=
  rbind (parseAttributePairs serverData) (fun attrPairs =>
  match get_nonempty attrPairs (str "e") with
  | Some error =>
      Throw (Error (str "SASL: SCRAM-SERVER-FINAL-MESSAGE: server returned error: "
                    ++ [34%N] ++ error ++ [34%N]))
  | None =>
  match get_nonempty attrPairs (str "v") with
  | None => Throw (Error (str "SASL: SCRAM-SERVER-FINAL-MESSAGE: server signature is missing"))
  | Some serverSignature =>
      if negb (isBase64 serverSignature)
      then Throw (Error (str "SASL: SCRAM-SERVER-FINAL-MESSAGE: server signature must be base64"))
      else Ok serverSignature
  end end).

(** *** xorBuffers *)

(* an argument that is a Buffer, or some other value *)
Inductive bufarg :=
| Buffer (b : bytes)
| NotBuffer (v : value).

(* a.map((_, i) => a[i] ^ b[i]) on a Uint8Array: each element is stored
   modulo 256 *)
Fixpoint xor_bytes (a b : bytes) : bytes :=
  match a, b with
  | x :: a', y :: b' => (Z.lxor x y) mod 256 :: xor_bytes a' b'
  | _, _ => []
  end.

Definition xorBuffers (a b : bufarg) : result bytes :=
  match a with
  | NotBuffer _ => Throw (TypeError (str "first argument must be a Buffer"))
  | Buffer a =>
  match b with
  | NotBuffer _ => Throw (TypeError (str "second argument must be a Buffer"))
  | Buffer b =>
      if negb (length a =? length b)%nat
      then Throw (Error (str "Buffer lengths must match"))
      else if (length a =? 0)%nat
      then Throw (Error (str "Buffers cannot be empty"))
      else Ok (xor_bytes a b)
  end end.

(* the elements of a Buffer *)
Definition is_byte (z : Z) : Prop := 0 <= z < 256.

(** *** continueSession and finalizeSession

    The hash functions of [lib/crypto/utils.js] and [lib/crypto/cert-signatures.js]
    and the base64 codec of Buffer are parameters: any of the hash functions
    may reject. *)

Section Continue.
Variable signatureAlgorithmHashFromCertificate : bytes -> result jsstring.
Variable hashByName : jsstring -> bytes -> result bytes.
Variable deriveKey : jsstring -> bytes -> number -> result bytes.
Variable hmacSha256 : bytes -> jsstring -> result bytes.
Variable sha256 : bytes -> result bytes.
Variable base64_encode : bytes -> jsstring.   (* buf.toString('base64') *)
Variable base64_decode : jsstring -> bytes.   (* Buffer.from(s, 'base64') *)

(* Buffer.from(s) for an ASCII string *)
Definition ascii_bytes (s : jsstring) : bytes := map Z.of_N s.

(* String.prototype.startsWith *)
Fixpoint startsWith (s prefix : jsstring) : bool :=
  match prefix, s with
  | [], _ => true
  | p :: prefix', c :: s' => (c =? p)%N && startsWith s' prefix'
  | _ :: _, [] => false
  end.

(* the channel-binding token; for SCRAM-SHA-256-PLUS the peer certificate
   is read from the stream, which fails when there is none *)
Definition channelBinding (session : Session) (stream : option Stream)
    : result jsstring :=
  if bool_decide (mechanism session = PLUS) then
    match stream with
    | Some st =>
        if has_getPeerCertificate st then
          let peerCert := peerCertificate_raw st in
          rbind (signatureAlgorithmHashFromCertificate peerCert) (fun hashName =>
          let hashName :=
            if bool_decide (hashName = str "MD5") || bool_decide (hashName = str "SHA-1")
            then str "SHA-256" else hashName in
          rbind (hashByName hashName peerCert) (fun certHash =>
          Ok (base64_encode (ascii_bytes (str "p=tls-server-end-point,,") ++ certHash))))
        else Throw (TypeError (str "stream.getPeerCertificate is not a function"))
    | None => Throw (TypeError (str "stream.getPeerCertificate is not a function"))
    end
  else
    Ok (match stream with
        | Some _ => str "eSws"
        | None => str "biws"
        end).

Definition continueSession (session : Session) (password serverData : value)
    (stream : option Stream) : result Session :=
  if negb (bool_decide (message session = str "SASLInitialResponse"))
  then Throw (Error (str "SASL: Last message was not SASLInitialResponse"))
  else
  match password with
  | VString pw =>
  if bool_decide (pw = [])
  then Throw (Error (str "SASL: SCRAM-SERVER-FIRST-MESSAGE: client password must be a non-empty string"))
  else if negb (is_string serverData)
  then Throw (Error (str "SASL: SCRAM-SERVER-FIRST-MESSAGE: serverData must be a string"))
  else
  rbind (parseServerFirstMessage serverData) (fun sv =>
  if negb (startsWith (nonce sv) (clientNonce session))
  then Throw (Error (str "SASL: SCRAM-SERVER-FIRST-MESSAGE: server nonce does not start with client nonce"))
  else if (length (nonce sv) =? length (clientNonce session))%nat
  then Throw (Error (str "SASL: SCRAM-SERVER-FIRST-MESSAGE: server nonce is too short"))
  else
  let clientFirstMessageBare := str "n=*,r=" ++ clientNonce session in
  let serverFirstMessage :=
    str "r=" ++ nonce sv ++ str ",s=" ++ salt sv ++ str ",i="
    ++ String_of_number (iteration sv) in
  rbind (channelBinding session stream) (fun channelBinding =>
  let clientFinalMessageWithoutProof :=
    str "c=" ++ channelBinding ++ str ",r=" ++ nonce sv in
  let authMessage :=
    clientFirstMessageBare ++ str "," ++ serverFirstMessage ++ str ","
    ++ clientFinalMessageWithoutProof in
  let saltBytes := base64_decode (salt sv) in
  rbind (deriveKey pw saltBytes (iteration sv)) (fun saltedPassword =>
  rbind (hmacSha256 saltedPassword (str "Client Key")) (fun clientKey =>
  rbind (sha256 clientKey) (fun storedKey =>
  rbind (hmacSha256 storedKey authMessage) (fun clientSignature =>
  rbind (xorBuffers (Buffer clientKey) (Buffer clientSignature)) (fun proof =>
  let clientProof := base64_encode proof in
  rbind (hmacSha256 saltedPassword (str "Server Key")) (fun serverKey =>
  rbind (hmacSha256 serverKey authMessage) (fun serverSignatureBytes =>
  Ok {| mechanism := mechanism session;
        clientNonce := clientNonce session;
        message := str "SASLResponse";
        serverSignature := Some (base64_encode serverSignatureBytes);
        response := clientFinalMessageWithoutProof ++ str ",p=" ++ clientProof |}
  )))))))))
  | _ => Throw (Error (str "SASL: SCRAM-SERVER-FIRST-MESSAGE: client password must be a string"))
  end.
End Continue.

Definition finalizeSession (session : Session) (serverData : value) : result unit :=
  if negb (bool_decide (message session = str "SASLResponse"))
  then Throw (Error (str "SASL: Last message was not SASLResponse"))
  else if negb (is_string serverData)
  then Throw (Error (str "SASL: SCRAM-SERVER-FINAL-MESSAGE: serverData must be a string"))
  else
  rbind (parseServerFinalMessage serverData) (fun serverSignature =>
  if negb (bool_decide (Some serverSignature = Sasl.serverSignature session))
  then Throw (Error (str "SASL: SCRAM-SERVER-FINAL-MESSAGE: server signature does not match"))
  else Ok tt).

End Sasl.

(** ** The startup parameters ([Client.getStartupConf]) *)

Module Startup.

(* the resolved parameters that client.js reads from
   [this.connectionParameters] *)
Record ConnectionParameters := {
  user : value;
  database : value;
  application_name : value;
  fallback_application_name : value;
  replication : value;
  statement_timeout : value;
  lock_timeout : value;
  idle_in_transaction_session_timeout : value;
  options : value;
  query_timeout : value
}.

(* an object literal: its own properties in insertion order *)
Definition object := list (string * value).

(* data.key = v *)
Definition assign (key : string) (v : value) (data : object) : object :=
  if bool_decide (key ∈ data.*1)
  then map (fun kv => if bool_decide (kv.1 = key) then (key, v) else kv) data
  else data ++ [(key, v)].

(* data.key *)
Fixpoint property (key : string) (data : object) : option value :=
  match data with
  | [] => None
  | (k, v) :: data' => if bool_decide (k = key) then Some v else property key data'
  end.


Section GetStartupConf.
Variable function_text : nat -> jsstring.

(* String(parseInt(v, 10)) *)
Definition String_parseInt (v : value) : value :=
  VString (String_of_number (parseInt10_string (ToString function_text v))).

(* if (v) data.key = f(v) *)
Definition assign_if_set (key : string) (v : value) (f : value -> value)
    (data : object) : object :=
  if truthy v then assign key (f v) data else data.

Definition getStartupConf (params : ConnectionParameters) : object :=
  let data := [("user"%string, user params); ("database"%string, database params)] in
  let appName := or_else (application_name params) (fallback_application_name params) in
  let data := assign_if_set "application_name" appName (fun v => v) data in
  let data := assign_if_set "replication" (replication params)
                (fun v => VString ([] ++ ToString function_text v)) data in
  let data := assign_if_set "statement_timeout" (statement_timeout params)
                String_parseInt data in
  let data := assign_if_set "lock_timeout" (lock_timeout params)
                String_parseInt data in
  let data := assign_if_set "idle_in_transaction_session_timeout"
                (idle_in_transaction_session_timeout params) String_parseInt data in
  let data := assign_if_set "options" (options params) (fun v => v) data in
  data.
End GetStartupConf.

End Startup.

(** ** The client session ([Client]) *)

Module Client.

Import Startup.

(** *** Objects the client works with

    Query objects, timers and promises are referred to by identifiers.
    A callback is one of the four function values that client.js stores
    in [query.callback]. *)

(* a reference to a query object: one the caller made and handed over, or
   one that client.query made with new Query *)
Inductive qref :=
| Given (n : nat)
| Made (n : nat).

#[global] Instance qref_eq_dec : EqDecision qref.
Proof. solve_decision. Defined.
#[global] Instance qref_countable : Countable qref.
Proof.
  refine (inj_countable' (fun r => match r with Given n => inl n | Made n => inr n end)
                         (fun s => match s with inl n => Given n | inr n => Made n end) _).
  intros []; reflexivity.
Defined.

Inductive Callback :=
| CbUndefined                 (* no function: undefined *)
| CbUser (f : nat)            (* a function supplied by the caller *)
| CbSettle (p : nat)          (* (err, res) => (err ? reject(err) : resolve(res)) *)
| CbNoop                      (* () => {} *)
| CbClearTimeout (t : nat) (queryCallback : Callback).
    (* (err, res) => { clearTimeout(readTimeoutTimer); queryCallback(err, res) } *)

(* the truthiness of a callback slot *)
Definition is_function (cb : Callback) : bool :=
  match cb with CbUndefined => false | _ => true end.

(** Modelled from the spec: class Query ([lib/query.js]) is not part of the
    sources at hand.  The spec gives a query a text, an optional
    prepared-statement name, a binary-result flag, a result sink, handlers
    for the backend events and a [submit] that returns either success or a
    preflight error; it completes or fails through its callback.  The fields
    below are the ones client.js reads or writes. *)
Record QueryObj := {
  callback : Callback;
  binary : bool;
  _result : option bool;        (* the result holder, and whether it has _types *)
  name : option jsstring;       (* a truthy query.name *)
  text : value;
  q_query_timeout : value;      (* config.query_timeout of a submittable *)
  preflight : option error      (* what submit(connection) returns *)
}.

Definition blank_query : QueryObj :=
  {| callback := CbUndefined; binary := false; _result := None; name := None;
     text := VUndefined; q_query_timeout := VUndefined; preflight := None |}.

Definition with_callback (cb : Callback) (q : QueryObj) : QueryObj :=
  {| callback := cb; binary := binary q; _result := _result q; name := name q;
     text := text q; q_query_timeout := q_query_timeout q; preflight := preflight q |}.

Definition with_binary (b : bool) (q : QueryObj) : QueryObj :=
  {| callback := callback q; binary := b; _result := _result q; name := name q;
     text := text q; q_query_timeout := q_query_timeout q; preflight := preflight q |}.

Definition with_result (r : option bool) (q : QueryObj) : QueryObj :=
  {| callback := callback q; binary := binary q; _result := r; name := name q;
     text := text q; q_query_timeout := q_query_timeout q; preflight := preflight q |}.

(* the first argument of client.query *)
Inductive QueryArg :=
| ArgNull                                     (* null or undefined *)
| ArgSubmittable (q : qref) (values : Callback)
    (* an object with a submit function; [values] when it is a function,
       [CbUndefined] otherwise *)
| ArgConfig (config_query_timeout : value) (fresh : QueryObj).
    (* a text or a config object: [fresh] is new Query(config, values, callback) *)

(* what client.query returns *)
Inductive QueryResult :=
| RUndefined
| RQuery (q : qref)
| RPromise (p : nat).

Inductive ConnectCallback :=
| CcUser (f : nat)
| CcPromise (p : nat).     (* (error) => (error ? reject(error) : resolve()) *)

(* the closures handed to process.nextTick *)
Inductive Task :=
| THandleError (q : qref) (err : error)
    (* () => { query.handleError(err, this.connection) } *)
| TSubmitError (q : qref) (err : error)
    (* () => { activeQuery.handleError(queryError, this.connection)
               this.readyForQuery = true
               this._pulseQueryQueue() } *)
| TConnectError (cb : ConnectCallback) (err : error)
    (* () => { callback(err) } *)
| TEmitEnd.
    (* () => { this.emit('end') } *)

(* the closures handed to setTimeout *)
Inductive Timer :=
| ReadTimeout (q : qref) (queryCallback : Callback)
| ConnectTimeout.

(* the listeners of the connection's 'end' event, all registered with once *)
Inductive EndListener :=
| OnConnectionEnd            (* the listener of _connect *)
| EndCallback (f : nat)      (* cb of end(cb) *)
| EndResolve (p : nat).      (* resolve of the promise end() returns *)

#[global] Instance Callback_eq_dec : EqDecision Callback.
Proof. solve_decision. Defined.
#[global] Instance EndListener_eq_dec : EqDecision EndListener.
Proof. solve_decision. Defined.
#[global] Instance ConnectCallback_eq_dec : EqDecision ConnectCallback.
Proof. solve_decision. Defined.
#[global] Instance Task_eq_dec : EqDecision Task.
Proof. solve_decision. Defined.

(* the events the client emits *)
Inductive ClientEvent :=
| EConnect
| EEnd
| EError (err : error)
| ENotice (msg : nat)
| ENotification (msg : nat)
| EDrain.

(** What the client does to the outside, in order: calls on the connection,
    calls on query objects, invocations of the caller's functions, events. *)
Inductive Effect :=
| ConConnectPath (path : jsstring)         (* con.connect(host + '/.s.PGSQL.' + port) *)
| ConConnectTcp (port host : value)        (* con.connect(port, host) *)
| ConOnConnectCancel                       (* con.on('connect', ...) of cancel *)
| ConRequestSsl
| ConStartup (conf : Startup.object)
| ConPassword (pw : value)
| ConSendSASLInitialResponse (mechanism response : jsstring)
| ConSendSCRAMClientFinal (response : jsstring)
| ConCancel (processID secretKey : value)
| ConEnd                                   (* connection.end(): Terminate, then close *)
| StreamDestroy (err : option error)       (* connection.stream.destroy(err) *)
| ConRef
| ConUnref
| SetConEnding                             (* con._ending = true *)
| CallPasswordFunction (f : nat)
| PgPassLookup
| Md5Hash (user password : value) (salt : nat)
| QSubmit (q : qref)
| QHandleError (q : qref) (err : error)
| QHandleReadyForQuery (q : qref)
| QHandleRowDescription (q : qref) (msg : nat)
| QHandleDataRow (q : qref) (msg : nat)
| QHandlePortalSuspended (q : qref)
| QHandleEmptyQuery (q : qref)
| QHandleCommandComplete (q : qref) (msg : nat)
| QHandleCopyInResponse (q : qref)
| QHandleCopyData (q : qref) (msg : nat)
| Called (f : nat) (err : option error)    (* the caller's function f is invoked *)
| Settled (p : nat) (err : option error)   (* promise p is rejected or resolved *)
| Emit (ev : ClientEvent)
| SetTimeout (t : nat) (ms : value)
| ClearTimeout (t : nat).

#[global] Instance ClientEvent_eq_dec : EqDecision ClientEvent.
Proof. solve_decision. Defined.
#[global] Instance Effect_eq_dec : EqDecision Effect.
Proof. solve_decision. Defined.

(** *** The state

    [Config] holds what the constructor fixes, [Client] the fields of the
    object that change, with the one field of [this.connectionParameters]
    that client.js writes, [World] the client together with the objects
    around it: the connection, the query objects, the scheduler and the
    trace. *)

Record Config := {
  host : value;
  port : value;
  ssl : bool;                         (* this.ssl is truthy *)
  cfg_binary : bool;                  (* this.binary *)
  _connectionTimeoutMillis : Z;
  enableChannelBinding : bool;
  connectionParameters : ConnectionParameters;
  stream : option Sasl.Stream;        (* this.connection.stream *)
  pgpass_installed : bool             (* require('pgpass') succeeds *)
}.

Record Client := MkClient {
  _ending : bool;
  _ended : bool;
  _connecting : bool;
  _connected : bool;
  _connectionError : bool;
  _queryable : bool;
  _activeQuery : option qref;   (* null and undefined are both [None] *)
  _queryQueue : list qref;
  readyForQuery : bool;   (* only ever tested with === true *)
  hasExecuted : bool;   (* undefined until the first submit *)
  processID : value;
  secretKey : value;
  _connectionCallback : option ConnectCallback;
  connectionTimeoutHandle : option nat;
  password : value;
  saslSession : option Sasl.Session;
  connectionParameters_password : value   (* this.connectionParameters.password *)
}.

Record World := MkWorld {
  client : Client;
  config : Config;
  con_connecting : bool;   (* connection._connecting *)
  parsedStatements : gmap jsstring value;   (* connection.parsedStatements *)
  queries : gmap qref QueryObj;   (* the query objects *)
  next_query : nat;
  ticks : list Task;   (* the process.nextTick queue, oldest first *)
  timers : gmap nat Timer;   (* the armed timers *)
  next_timer : nat;
  next_promise : nat;
  end_listeners : list EndListener;   (* connection.once('end', ...), in registration order *)
  listening : bool;   (* _attachListeners has run *)
  error_listener : bool;   (* the caller listens to the client's 'error' *)
  trace : list Effect   (* what was done to the outside, oldest first *)
}.

(* field updates *)
Definition set_ending (v : bool) (c : Client) : Client :=
  MkClient v (_ended c) (_connecting c) (_connected c) (_connectionError c)
    (_queryable c) (_activeQuery c) (_queryQueue c) (readyForQuery c)
    (hasExecuted c) (processID c) (secretKey c) (_connectionCallback c)
    (connectionTimeoutHandle c) (password c) (saslSession c)
    (connectionParameters_password c).
Definition set_ended (v : bool) (c : Client) : Client :=
  MkClient (_ending c) v (_connecting c) (_connected c) (_connectionError c)
    (_queryable c) (_activeQuery c) (_queryQueue c) (readyForQuery c)
    (hasExecuted c) (processID c) (secretKey c) (_connectionCallback c)
    (connectionTimeoutHandle c) (password c) (saslSession c)
    (connectionParameters_password c).
Definition set_connecting (v : bool) (c : Client) : Client :=
  MkClient (_ending c) (_ended c) v (_connected c) (_connectionError c)
    (_queryable c) (_activeQuery c) (_queryQueue c) (readyForQuery c)
    (hasExecuted c) (processID c) (secretKey c) (_connectionCallback c)
    (connectionTimeoutHandle c) (password c) (saslSession c)
    (connectionParameters_password c).
Definition set_connected (v : bool) (c : Client) : Client :=
  MkClient (_ending c) (_ended c) (_connecting c) v (_connectionError c)
    (_queryable c) (_activeQuery c) (_queryQueue c) (readyForQuery c)
    (hasExecuted c) (processID c) (secretKey c) (_connectionCallback c)
    (connectionTimeoutHandle c) (password c) (saslSession c)
    (connectionParameters_password c).
Definition set_connectionError (v : bool) (c : Client) : Client :=
  MkClient (_ending c) (_ended c) (_connecting c) (_connected c) v (_queryable c)
    (_activeQuery c) (_queryQueue c) (readyForQuery c) (hasExecuted c) (processID c)
    (secretKey c) (_connectionCallback c) (connectionTimeoutHandle c) (password c)
    (saslSession c)
    (connectionParameters_password c).
Definition set_queryable (v : bool) (c : Client) : Client :=
  MkClient (_ending c) (_ended c) (_connecting c) (_connected c)
    (_connectionError c) v (_activeQuery c) (_queryQueue c) (readyForQuery c)
    (hasExecuted c) (processID c) (secretKey c) (_connectionCallback c)
    (connectionTimeoutHandle c) (password c) (saslSession c)
    (connectionParameters_password c).
Definition set_activeQuery (v : option qref) (c : Client) : Client :=
  MkClient (_ending c) (_ended c) (_connecting c) (_connected c)
    (_connectionError c) (_queryable c) v (_queryQueue c) (readyForQuery c)
    (hasExecuted c) (processID c) (secretKey c) (_connectionCallback c)
    (connectionTimeoutHandle c) (password c) (saslSession c)
    (connectionParameters_password c).
Definition set_queryQueue (v : list qref) (c : Client) : Client :=
  MkClient (_ending c) (_ended c) (_connecting c) (_connected c)
    (_connectionError c) (_queryable c) (_activeQuery c) v (readyForQuery c)
    (hasExecuted c) (processID c) (secretKey c) (_connectionCallback c)
    (connectionTimeoutHandle c) (password c) (saslSession c)
    (connectionParameters_password c).
Definition set_readyForQuery (v : bool) (c : Client) : Client :=
  MkClient (_ending c) (_ended c) (_connecting c) (_connected c)
    (_connectionError c) (_queryable c) (_activeQuery c) (_queryQueue c) v
    (hasExecuted c) (processID c) (secretKey c) (_connectionCallback c)
    (connectionTimeoutHandle c) (password c) (saslSession c)
    (connectionParameters_password c).
Definition set_hasExecuted (v : bool) (c : Client) : Client :=
  MkClient (_ending c) (_ended c) (_connecting c) (_connected c)
    (_connectionError c) (_queryable c) (_activeQuery c) (_queryQueue c)
    (readyForQuery c) v (processID c) (secretKey c) (_connectionCallback c)
    (connectionTimeoutHandle c) (password c) (saslSession c)
    (connectionParameters_password c).
Definition set_processID (v : value) (c : Client) : Client :=
  MkClient (_ending c) (_ended c) (_connecting c) (_connected c)
    (_connectionError c) (_queryable c) (_activeQuery c) (_queryQueue c)
    (readyForQuery c) (hasExecuted c) v (secretKey c) (_connectionCallback c)
    (connectionTimeoutHandle c) (password c) (saslSession c)
    (connectionParameters_password c).
Definition set_secretKey (v : value) (c : Client) : Client :=
  MkClient (_ending c) (_ended c) (_connecting c) (_connected c)
    (_connectionError c) (_queryable c) (_activeQuery c) (_queryQueue c)
    (readyForQuery c) (hasExecuted c) (processID c) v (_connectionCallback c)
    (connectionTimeoutHandle c) (password c) (saslSession c)
    (connectionParameters_password c).
Definition set_connectionCallback (v : option ConnectCallback) (c : Client) : Client :=
  MkClient (_ending c) (_ended c) (_connecting c) (_connected c)
    (_connectionError c) (_queryable c) (_activeQuery c) (_queryQueue c)
    (readyForQuery c) (hasExecuted c) (processID c) (secretKey c) v
    (connectionTimeoutHandle c) (password c) (saslSession c)
    (connectionParameters_password c).
Definition set_connectionTimeoutHandle (v : option nat) (c : Client) : Client :=
  MkClient (_ending c) (_ended c) (_connecting c) (_connected c)
    (_connectionError c) (_queryable c) (_activeQuery c) (_queryQueue c)
    (readyForQuery c) (hasExecuted c) (processID c) (secretKey c)
    (_connectionCallback c) v (password c) (saslSession c)
    (connectionParameters_password c).
Definition set_password (v : value) (c : Client) : Client :=
  MkClient (_ending c) (_ended c) (_connecting c) (_connected c)
    (_connectionError c) (_queryable c) (_activeQuery c) (_queryQueue c)
    (readyForQuery c) (hasExecuted c) (processID c) (secretKey c)
    (_connectionCallback c) (connectionTimeoutHandle c) v (saslSession c)
    (connectionParameters_password c).
Definition set_saslSession (v : option Sasl.Session) (c : Client) : Client :=
  MkClient (_ending c) (_ended c) (_connecting c) (_connected c)
    (_connectionError c) (_queryable c) (_activeQuery c) (_queryQueue c)
    (readyForQuery c) (hasExecuted c) (processID c) (secretKey c)
    (_connectionCallback c) (connectionTimeoutHandle c) (password c) v
    (connectionParameters_password c).
Definition set_connectionParameters_password (v : value) (c : Client) : Client :=
  MkClient (_ending c) (_ended c) (_connecting c) (_connected c)
    (_connectionError c) (_queryable c) (_activeQuery c) (_queryQueue c)
    (readyForQuery c) (hasExecuted c) (processID c) (secretKey c)
    (_connectionCallback c) (connectionTimeoutHandle c) (password c) (saslSession c) v.
Definition set_client (v : Client) (w : World) : World :=
  MkWorld v (config w) (con_connecting w) (parsedStatements w) (queries w)
    (next_query w) (ticks w) (timers w) (next_timer w) (next_promise w)
    (end_listeners w) (listening w) (error_listener w) (trace w).
Definition set_con_connecting (v : bool) (w : World) : World :=
  MkWorld (client w) (config w) v (parsedStatements w) (queries w) (next_query w)
    (ticks w) (timers w) (next_timer w) (next_promise w) (end_listeners w)
    (listening w) (error_listener w) (trace w).
Definition set_parsedStatements (v : gmap jsstring value) (w : World) : World :=
  MkWorld (client w) (config w) (con_connecting w) v (queries w) (next_query w)
    (ticks w) (timers w) (next_timer w) (next_promise w) (end_listeners w)
    (listening w) (error_listener w) (trace w).
Definition set_queries (v : gmap qref QueryObj) (w : World) : World :=
  MkWorld (client w) (config w) (con_connecting w) (parsedStatements w) v
    (next_query w) (ticks w) (timers w) (next_timer w) (next_promise w)
    (end_listeners w) (listening w) (error_listener w) (trace w).
Definition set_next_query (v : nat) (w : World) : World :=
  MkWorld (client w) (config w) (con_connecting w) (parsedStatements w) (queries w)
    v (ticks w) (timers w) (next_timer w) (next_promise w) (end_listeners w)
    (listening w) (error_listener w) (trace w).
Definition set_ticks (v : list Task) (w : World) : World :=
  MkWorld (client w) (config w) (con_connecting w) (parsedStatements w) (queries w)
    (next_query w) v (timers w) (next_timer w) (next_promise w) (end_listeners w)
    (listening w) (error_listener w) (trace w).
Definition set_timers (v : gmap nat Timer) (w : World) : World :=
  MkWorld (client w) (config w) (con_connecting w) (parsedStatements w) (queries w)
    (next_query w) (ticks w) v (next_timer w) (next_promise w) (end_listeners w)
    (listening w) (error_listener w) (trace w).
Definition set_next_timer (v : nat) (w : World) : World :=
  MkWorld (client w) (config w) (con_connecting w) (parsedStatements w) (queries w)
    (next_query w) (ticks w) (timers w) v (next_promise w) (end_listeners w)
    (listening w) (error_listener w) (trace w).
Definition set_next_promise (v : nat) (w : World) : World :=
  MkWorld (client w) (config w) (con_connecting w) (parsedStatements w) (queries w)
    (next_query w) (ticks w) (timers w) (next_timer w) v (end_listeners w)
    (listening w) (error_listener w) (trace w).
Definition set_end_listeners (v : list EndListener) (w : World) : World :=
  MkWorld (client w) (config w) (con_connecting w) (parsedStatements w) (queries w)
    (next_query w) (ticks w) (timers w) (next_timer w) (next_promise w) v
    (listening w) (error_listener w) (trace w).
Definition set_listening (v : bool) (w : World) : World :=
  MkWorld (client w) (config w) (con_connecting w) (parsedStatements w) (queries w)
    (next_query w) (ticks w) (timers w) (next_timer w) (next_promise w)
    (end_listeners w) v (error_listener w) (trace w).
Definition set_error_listener (v : bool) (w : World) : World :=
  MkWorld (client w) (config w) (con_connecting w) (parsedStatements w) (queries w)
    (next_query w) (ticks w) (timers w) (next_timer w) (next_promise w)
    (end_listeners w) (listening w) v (trace w).
Definition set_trace (v : list Effect) (w : World) : World :=
  MkWorld (client w) (config w) (con_connecting w) (parsedStatements w) (queries w)
    (next_query w) (ticks w) (timers w) (next_timer w) (next_promise w)
    (end_listeners w) (listening w) (error_listener w) v.

Definition on_client (f : Client -> Client) (w : World) : World :=
  set_client (f (client w)) w.

(* the state the constructor leaves *)
Definition new_client (pw : value) : Client :=
  {| _ending := false; _ended := false; _connecting := false; _connected := false;
     _connectionError := false; _queryable := true; _activeQuery := None;
     _queryQueue := []; readyForQuery := false; hasExecuted := false;
     processID := VNull; secretKey := VNull; _connectionCallback := None;
     connectionTimeoutHandle := None; password := pw; saslSession := None;
     connectionParameters_password := pw |}.

Definition new_world (cfg : Config) (pw : value) : World :=
  {| client := new_client pw; config := cfg; con_connecting := false;
     parsedStatements := ∅; queries := ∅; next_query := O; ticks := [];
     timers := ∅; next_timer := O; next_promise := O; end_listeners := [];
     listening := false; error_listener := false; trace := [] |}.

(* the query object behind a reference *)
Definition query_of (w : World) (q : qref) : QueryObj :=
  default blank_query (queries w !! q).

(** *** Client code as state-passing code that can throw *)

Inductive Outcome (A : Type) :=
| Return (a : A) (w : World)
| Raise (e : error) (w : World).
Arguments Return {A} a w.
Arguments Raise {A} e w.

Definition M (A : Type) : Type := World -> Outcome A.

Definition ret {A} (a : A) : M A := fun w => Return a w.
Definition bind {A B} (m : M A) (k : A -> M B) : M B :=
  fun w =>
    match m w with
    | Return a w' => k a w'
    | Raise e w' => Raise e w'
    end.
Definition throw {A} (e : error) : M A := fun w => Raise e w.
Definition get : M World := fun w => Return w w.
Definition modify (f : World -> World) : M unit := fun w => Return tt (f w).

(* try { m } catch (e) { h(e) } *)
Definition try_catch {A} (m : M A) (h : error -> M A) : M A :=
  fun w =>
    match m w with
    | Return a w' => Return a w'
    | Raise e w' => h e w'
    end.

#[global] Instance M_ret : MRet M := @ret.
#[global] Instance M_bind : MBind M := fun A B k m => bind m k.

(* the world an execution ends in, thrown or not *)
Definition final {A} (o : Outcome A) : World :=
  match o with
  | Return _ w => w
  | Raise _ w => w
  end.

Definition returns {A} (o : Outcome A) : Prop := exists a w, o = Return a w.

Definition when (b : bool) (m : M unit) : M unit := if b then m else ret tt.

Definition effect (e : Effect) : M unit :=
  modify (fun w => set_trace (trace w ++ [e]) w).

Definition update (f : Client -> Client) : M unit := modify (on_client f).

(* process.nextTick(task) *)
Definition nextTick (t : Task) : M unit :=
  modify (fun w => set_ticks (ticks w ++ [t]) w).

(* setTimeout(body, ms) *)
Definition setTimeout (body : nat -> Timer) (ms : value) : M nat :=
  w ← get;
  let t := next_timer w in
  modify (fun w => set_next_timer (S t) (set_timers (<[t := body t]> (timers w)) w)) ;;
  effect (SetTimeout t ms) ;;
  ret t.

Definition clearTimeout (t : nat) : M unit :=
  modify (fun w => set_timers (delete t (timers w)) w) ;;
  effect (ClearTimeout t).

(* clearTimeout(this.connectionTimeoutHandle); the handle may be undefined *)
Definition clearConnectionTimeout : M unit :=
  w ← get;
  match connectionTimeoutHandle (client w) with
  | Some t => clearTimeout t
  | None => ret tt
  end.

Definition new_promise : M nat :=
  w ← get;
  modify (set_next_promise (S (next_promise w))) ;;
  ret (next_promise w).

Definition modify_query (q : qref) (f : QueryObj -> QueryObj) : M unit :=
  modify (fun w => set_queries (<[q := f (query_of w q)]> (queries w)) w).

(* cb(err, res); [err] is [None] on success *)
Fixpoint invoke (cb : Callback) (err : option error) : M unit :=
  match cb with
  | CbUndefined => throw (TypeError (str "callback is not a function"))
  | CbUser f => effect (Called f err)
  | CbSettle p => effect (Settled p err)
  | CbNoop => ret tt
  | CbClearTimeout t queryCallback =>
      clearTimeout t ;;
      invoke queryCallback err
  end.

(* this.emit(ev): an 'error' nobody listens to is thrown *)
Definition emit (ev : ClientEvent) : M unit :=
  match ev with
  | EError err =>
      w ← get;
      if error_listener w then effect (Emit ev) else throw err
  | _ => effect (Emit ev)
  end.

(** Modelled from the spec: the handlers of class Query ([lib/query.js],
    not part of the sources at hand).  A query completes or fails through
    its callback: [handleError] hands the error to [query.callback] when
    there is one, [handleReadyForQuery] completes it; the other handlers
    consume backend data. *)
Definition handleError (q : qref) (err : error) : M unit :=
  effect (QHandleError q err) ;;
  w ← get;
  let cb := callback (query_of w q) in
  when (is_function cb) (invoke cb (Some err)).

Definition handleReadyForQuery (q : qref) : M unit :=
  effect (QHandleReadyForQuery q) ;;
  w ← get;
  let cb := callback (query_of w q) in
  when (is_function cb) (invoke cb None).

Definition submit (q : qref) : M (option error) :=
  effect (QSubmit q) ;;
  w ← get;
  ret (preflight (query_of w q)).

(* a throwing function of another module, called from client code *)
Definition lift {A} (r : result A) : M A :=
  match r with
  | Ok a => ret a
  | Throw e => throw e
  end.

(* l.forEach(f) *)
Fixpoint forEach {A} (l : list A) (f : A -> M unit) : M unit :=
  match l with
  | [] => ret tt
  | x :: l' => f x ;; forEach l' f
  end.

(* l.splice(l.indexOf(x), 1) when x occurs in l *)
Fixpoint remove_first (x : qref) (l : list qref) : list qref :=
  match l with
  | [] => []
  | y :: l' => if bool_decide (y = x) then l' else y :: remove_first x l'
  end.

(** The hash functions, the base64 codec and the text of function objects
    come from the runtime and from modules outside these sources. *)
Class Runtime := {
  function_text : nat -> jsstring;
  signatureAlgorithmHashFromCertificate : Sasl.bytes -> result jsstring;
  hashByName : jsstring -> Sasl.bytes -> result Sasl.bytes;
  deriveKey : jsstring -> Sasl.bytes -> number -> result Sasl.bytes;
  hmacSha256 : Sasl.bytes -> jsstring -> result Sasl.bytes;
  sha256 : Sasl.bytes -> result Sasl.bytes;
  base64_encode : Sasl.bytes -> jsstring;
  base64_decode : jsstring -> Sasl.bytes
}.

(* what the password is wanted for: the callback given to _getPassword *)
Inductive PasswordUse :=
| UseCleartext
| UseMD5 (salt : nat)
| UseSASL (mechanisms : list jsstring) (nonce : jsstring).

(* the events of the connection the client listens to *)
Inductive ConEvent :=
| connect
| sslconnect
| authenticationCleartextPassword
| authenticationMD5Password (salt : nat)
| authenticationSASL (mechanisms : list jsstring) (nonce : jsstring)
    (* [nonce]: the random bytes startSession will draw *)
| authenticationSASLContinue (data : value)
| authenticationSASLFinal (data : value)
| backendKeyData (processID secretKey : value)
| error_ (err : error)
| errorMessage (msg : error)
| readyForQuery_
| notice (msg : nat)
| rowDescription (msg : nat)
| dataRow (msg : nat)
| portalSuspended
| emptyQuery
| commandComplete (msg : nat)
| parseComplete
| copyInResponse
| copyData (msg : nat)
| notification (msg : nat)
| end_event.

Section Methods.
Context {runtime : Runtime}.

Definition invoke_connect (cb : ConnectCallback) (err : option error) : M unit :=
  match cb with
  | CcUser f => effect (Called f err)
  | CcPromise p => effect (Settled p err)
  end.

Definition _errorAllQueries (err : error) : M unit :=
  let enqueueError q := nextTick (THandleError q err) in
  w ← get;
  match _activeQuery (client w) with
  | Some activeQuery =>
      enqueueError activeQuery ;;
      update (set_activeQuery None)
  | None => ret tt
  end ;;
  w ← get;
  forEach (_queryQueue (client w)) enqueueError ;;
  update (set_queryQueue []).

(** Modelled from the spec: [Connection.connect] ([lib/connection.js], not
    part of the sources at hand) opens the transport; from then on
    [connection._connecting] is true, which is how [end] recognises a
    client that never connected.  [call] is the call as client.js makes
    it. *)
Definition con_connect (call : Effect) : M unit :=
  effect call ;;
  modify (set_con_connecting true).

(* if (this.host && this.host.indexOf('/') === 0)
     con.connect(this.host + '/.s.PGSQL.' + this.port)
   else con.connect(this.port, this.host) *)
Definition open_connection : M unit :=
  w ← get;
  let c := config w in
  match host c with
  | VString ((47%N :: _) as h) =>
      con_connect (ConConnectPath (h ++ str "/.s.PGSQL." ++ ToString function_text (port c)))
  | h =>
      if truthy h && negb (is_string h)
      then throw (TypeError (str "this.host.indexOf is not a function"))
      else con_connect (ConConnectTcp (port c) h)
  end.

Definition _handleErrorWhileConnecting (err : error) : M unit :=
  w ← get;
  if _connectionError (client w) then ret tt
  else
    update (set_connectionError true) ;;
    clearConnectionTimeout ;;
    match _connectionCallback (client w) with
    | Some cb => invoke_connect cb (Some err)
    | None => emit (EError err)
    end.

Definition _handleErrorEvent (err : error) : M unit :=
  w ← get;
  if _connecting (client w) then _handleErrorWhileConnecting err
  else
    update (set_queryable false) ;;
    _errorAllQueries err ;;
    emit (EError err).

(* this.connection.emit('error', err): the client's listener is
   _handleErrorEvent *)
Definition connection_emit_error (err : error) : M unit :=
  w ← get;
  if listening w then _handleErrorEvent err else throw err.

(* the listener of the connection's 'end' that _connect registers *)
Definition on_connection_end : M unit :=
  w ← get;
  let error :=
    if _ending (client w) then Error (str "Connection terminated")
    else Error (str "Connection terminated unexpectedly") in
  clearConnectionTimeout ;;
  _errorAllQueries error ;;
  update (set_ended true) ;;
  w ← get;
  let c := client w in
  when (negb (_ending c))
    (if _connecting c && negb (_connectionError c) then
       match _connectionCallback c with
       | Some cb => invoke_connect cb (Some error)
       | None => _handleErrorEvent error
       end
     else if negb (_connectionError c) then _handleErrorEvent error
     else ret tt) ;;
  nextTick TEmitEnd.

Definition _connect (callback : ConnectCallback) : M unit :=
  update (set_connectionCallback (Some callback)) ;;
  w ← get;
  if _connecting (client w) || _connected (client w) then
    let err := Error (str "Client has already been connected. You cannot reuse a client.") in
    nextTick (TConnectError callback err)
  else
    update (set_connecting true) ;;
    when (0 <? _connectionTimeoutMillis (config w))
      (t ← setTimeout (fun _ => ConnectTimeout)
             (VNumber (Int (_connectionTimeoutMillis (config w))));
       update (set_connectionTimeoutHandle (Some t))) ;;
    open_connection ;;
    (* con.on('connect'), con.on('sslconnect'), _attachListeners(con) *)
    modify (set_listening true) ;;
    (* con.once('end', ...) *)
    modify (fun w => set_end_listeners (end_listeners w ++ [OnConnectionEnd]) w).

Definition connect_ (callback : option nat) : M QueryResult :=
  match callback with
  | Some f => _connect (CcUser f) ;; ret RUndefined
  | None =>
      p ← new_promise;
      _connect (CcPromise p) ;;
      ret (RPromise p)
  end.

(* this.enableChannelBinding && this.connection.stream *)
Definition binding_stream (w : World) : option Sasl.Stream :=
  if enableChannelBinding (config w) then stream (config w) else None.

(* the callbacks that _getPassword is given *)
Definition use_password (use : PasswordUse) : M unit :=
  match use with
  | UseCleartext =>
      w ← get;
      effect (ConPassword (password (client w)))
  | UseMD5 salt =>
      (* crypto.postgresMd5PasswordHash is awaited: see [md5_hashed] *)
      w ← get;
      effect (Md5Hash (user (connectionParameters (config w))) (password (client w)) salt)
  | UseSASL mechanisms nonce =>
      try_catch
        (w ← get;
         session ← lift (Sasl.startSession mechanisms (binding_stream w) nonce);
         update (set_saslSession (Some session)) ;;
         effect (ConSendSASLInitialResponse (Sasl.mechanism session) (Sasl.response session)))
        connection_emit_error
  end.

(* the continuation of the awaited hash in _handleAuthMD5Password *)
Definition md5_hashed (r : result jsstring) : M unit :=
  match r with
  | Ok hashedPassword => effect (ConPassword (VString hashedPassword))
  | Throw e => emit (EError e)
  end.

Definition _getPassword (use : PasswordUse) : M unit :=
  w ← get;
  match password (client w) with
  | VFunction f =>
      (* the promise chain continues in [password_resolved] or
         [password_rejected] *)
      effect (CallPasswordFunction f)
  | VNull =>
      if pgpass_installed (config w)
      then effect PgPassLookup      (* continues in [pgpass_found] *)
      else emit (EError (Error (str "Cannot find module 'pgpass'")))
  | _ => use_password use
  end.

(* .then((pass) => { ... cb() }).catch((err) => { con.emit('error', err) }) *)
Definition password_resolved (pass : value) (use : PasswordUse) : M unit :=
  try_catch
    (if negb (bool_decide (pass = VUndefined)) then
       if negb (is_string pass)
       then connection_emit_error (TypeError (str "Password must be a string"))
       else
         (* this.connectionParameters.password = this.password = pass *)
         update (set_password pass) ;;
         update (set_connectionParameters_password pass) ;;
         use_password use
     else
       update (set_password VNull) ;;
       update (set_connectionParameters_password VNull) ;;
       use_password use)
    connection_emit_error.

Definition password_rejected (err : error) : M unit :=
  connection_emit_error err.

(* the callback given to pgPass *)
Definition pgpass_found (pass : value) (use : PasswordUse) : M unit :=
  when (negb (bool_decide (pass = VUndefined)))
    (update (set_password pass) ;;
     update (set_connectionParameters_password pass)) ;;
  use_password use.

Definition _handleAuthCleartextPassword : M unit := _getPassword UseCleartext.

Definition _handleAuthMD5Password (salt : nat) : M unit := _getPassword (UseMD5 salt).

Definition _handleAuthSASL (mechanisms : list jsstring) (nonce : jsstring) : M unit :=
  _getPassword (UseSASL mechanisms nonce).

Definition the_session : M Sasl.Session :=
  w ← get;
  match saslSession (client w) with
  | Some session => ret session
  | None => throw (TypeError (str "Cannot read properties of undefined (reading 'message')"))
  end.

(* an async function: the awaited hash functions are run in one step *)
Definition _handleAuthSASLContinue (data : value) : M unit :=
  try_catch
    (session ← the_session;
     w ← get;
     session' ← lift (Sasl.continueSession signatureAlgorithmHashFromCertificate
                        hashByName deriveKey hmacSha256 sha256 base64_encode
                        base64_decode session (password (client w)) data
                        (binding_stream w));
     update (set_saslSession (Some session')) ;;
     effect (ConSendSCRAMClientFinal (Sasl.response session')))
    connection_emit_error.

Definition _handleAuthSASLFinal (data : value) : M unit :=
  try_catch
    (session ← the_session;
     lift (Sasl.finalizeSession session data) ;;
     update (set_saslSession None))
    connection_emit_error.

Definition _handleBackendKeyData (pid key : value) : M unit :=
  update (set_processID pid) ;;
  update (set_secretKey key).

Definition _pulseQueryQueue : M unit :=
  w ← get;
  when (readyForQuery (client w))
    (* this._activeQuery = this._queryQueue.shift() *)
    match _queryQueue (client w) with
    | activeQuery :: rest =>
        update (set_activeQuery (Some activeQuery)) ;;
        update (set_queryQueue rest) ;;
        update (set_readyForQuery false) ;;
        update (set_hasExecuted true) ;;
        queryError ← submit activeQuery;
        match queryError with
        | Some err => nextTick (TSubmitError activeQuery err)
        | None => ret tt
        end
    | [] =>
        update (set_activeQuery None) ;;
        when (hasExecuted (client w))
          (update (set_activeQuery None) ;;
           emit EDrain)
    end.

Definition _handleReadyForQuery : M unit :=
  w ← get;
  when (_connecting (client w))
    (update (set_connecting false) ;;
     update (set_connected true) ;;
     clearConnectionTimeout ;;
     match _connectionCallback (client w) with
     | Some cb =>
         invoke_connect cb None ;;
         update (set_connectionCallback None)
     | None => ret tt
     end ;;
     emit EConnect) ;;
  w ← get;
  let activeQuery := _activeQuery (client w) in
  update (set_activeQuery None) ;;
  update (set_readyForQuery true) ;;
  match activeQuery with
  | Some q => handleReadyForQuery q
  | None => ret tt
  end ;;
  _pulseQueryQueue.

Definition _handleErrorMessage (msg : error) : M unit :=
  w ← get;
  if _connecting (client w) then _handleErrorWhileConnecting msg
  else
    match _activeQuery (client w) with
    | None => _handleErrorEvent msg
    | Some activeQuery =>
        update (set_activeQuery None) ;;
        handleError activeQuery msg
    end.

(* this._getActiveQuery().handler(...): delegate to the active query *)
Definition delegate (handler : string) (e : qref -> Effect) : M unit :=
  w ← get;
  match _activeQuery (client w) with
  | Some q => effect (e q)
  | None =>
      throw (TypeError (str "Cannot read properties of null (reading '"
                        ++ str handler ++ str "')"))
  end.

Definition _handleRowDescription (msg : nat) : M unit :=
  delegate "handleRowDescription" (fun q => QHandleRowDescription q msg).

Definition _handleDataRow (msg : nat) : M unit :=
  delegate "handleDataRow" (fun q => QHandleDataRow q msg).

Definition _handlePortalSuspended : M unit :=
  delegate "handlePortalSuspended" QHandlePortalSuspended.

Definition _handleEmptyQuery : M unit :=
  delegate "handleEmptyQuery" QHandleEmptyQuery.

Definition _handleCommandComplete (msg : nat) : M unit :=
  w ← get;
  match _activeQuery (client w) with
  | None =>
      _handleErrorEvent
        (Error (str "Received unexpected commandComplete message from backend."))
  | Some activeQuery => effect (QHandleCommandComplete activeQuery msg)
  end.

Definition _handleParseComplete : M unit :=
  w ← get;
  match _activeQuery (client w) with
  | None =>
      _handleErrorEvent
        (Error (str "Received unexpected parseComplete message from backend."))
  | Some activeQuery =>
      match name (query_of w activeQuery) with
      | Some n =>
          modify (fun w => set_parsedStatements
                             (<[n := text (query_of w activeQuery)]> (parsedStatements w)) w)
      | None => ret tt
      end
  end.

Definition _handleCopyInResponse : M unit :=
  delegate "handleCopyInResponse" QHandleCopyInResponse.

Definition _handleCopyData (msg : nat) : M unit :=
  delegate "handleCopyData" (fun q => QHandleCopyData q msg).

Definition _handleNotification (msg : nat) : M unit := emit (ENotification msg).

Definition _handleNotice (msg : nat) : M unit := emit (ENotice msg).

(* another client's cancel(client, query), seen from [client] *)
Definition cancel (query : qref) : M unit :=
  w ← get;
  if bool_decide (_activeQuery (client w) = Some query) then
    (* the cancelling client connects its own connection and registers
       the listener that sends the cancel message: [cancel_connected] *)
    effect ConOnConnectCancel
  else
    when (bool_decide (query ∈ _queryQueue (client w)))
      (update (set_queryQueue (remove_first query (_queryQueue (client w))))).

(* con.on('connect', function () { con.cancel(client.processID, client.secretKey) }) *)
Definition cancel_connected : M unit :=
  w ← get;
  effect (ConCancel (processID (client w)) (secretKey (client w))).

(* the body of the read-timeout timer of [query] *)
Definition read_timeout (query : qref) (queryCallback : Callback) : M unit :=
  let error := Error (str "Query read timeout") in
  nextTick (THandleError query error) ;;
  invoke queryCallback (Some error) ;;
  (* we already returned an error, just do nothing if query completes *)
  modify_query query (with_callback CbNoop) ;;
  (* Remove from queue *)
  w ← get;
  when (bool_decide (query ∈ _queryQueue (client w)))
    (update (set_queryQueue (remove_first query (_queryQueue (client w))))) ;;
  _pulseQueryQueue.

(* the body of the connect-deadline timer of [_connect] *)
Definition connect_timeout : M unit :=
  effect SetConEnding ;;
  effect (StreamDestroy (Some (Error (str "timeout expired")))).

Definition query (config : QueryArg) : M QueryResult :=
  (* can take in strings, config object or query object *)
  w ← get;
  '(query, result, readTimeout) ←
    match config with
    | ArgNull => throw (TypeError (str "Client was passed a null or undefined query"))
    | ArgSubmittable q values =>
        let readTimeout :=
          or_else (q_query_timeout (query_of w q))
                  (query_timeout (connectionParameters (Client.config w))) in
        when (is_function values)
          (modify_query q (fun o =>
             with_callback (if is_function (callback o) then callback o else values) o)) ;;
        ret (q, RQuery q, readTimeout)
    | ArgConfig config_query_timeout fresh =>
        let readTimeout :=
          or_else config_query_timeout
                  (query_timeout (connectionParameters (Client.config w))) in
        let q := Made (next_query w) in
        modify (fun w => set_next_query (S (next_query w)) (set_queries (<[q := fresh]> (queries w)) w)) ;;
        if is_function (callback fresh) then ret (q, RUndefined, readTimeout)
        else
          p ← new_promise;
          modify_query q (with_callback (CbSettle p)) ;;
          ret (q, RPromise p, readTimeout)
    end;
  when (truthy readTimeout)
    (w ← get;
     let queryCallback := callback (query_of w query) in
     readTimeoutTimer ← setTimeout (fun _ => ReadTimeout query queryCallback) readTimeout;
     modify_query query (with_callback (CbClearTimeout readTimeoutTimer queryCallback))) ;;
  w ← get;
  when (cfg_binary (Client.config w) && negb (binary (query_of w query)))
    (modify_query query (with_binary true)) ;;
  when (bool_decide (_result (query_of w query) = Some false))
    (modify_query query (with_result (Some true))) ;;
  if negb (_queryable (client w)) then
    nextTick (THandleError query
      (Error (str "Client has encountered a connection error and is not queryable"))) ;;
    ret result
  else if _ending (client w) then
    nextTick (THandleError query (Error (str "Client was closed and is not queryable"))) ;;
    ret result
  else
    update (set_queryQueue (_queryQueue (client w) ++ [query])) ;;
    _pulseQueryQueue ;;
    ret result.

Definition ref : M unit := effect ConRef.

Definition unref : M unit := effect ConUnref.

(* connection.once('end', l) *)
Definition once_end (l : EndListener) : M unit :=
  modify (fun w => set_end_listeners (end_listeners w ++ [l]) w).

(* what end returns *)
Inductive EndResult :=
| EndUndefined
| EndResolved                (* this._Promise.resolve() *)
| EndPromise (p : nat).      (* a promise that the 'end' listener resolves *)

Definition end_ (cb : option nat) : M EndResult :=
  update (set_ending true) ;;
  w ← get;
  (* if we have never connected, then end is a noop, callback immediately *)
  returned ←
    (if negb (con_connecting w) || _ended (client w) then
       match cb with
       | Some f => effect (Called f None) ;; ret None
       | None => ret (Some EndResolved)
       end
     else ret None);
  match returned with
  | Some r => ret r
  | None =>
      (if bool_decide (_activeQuery (client w) ≠ None) || negb (_queryable (client w))
       then
         (* if we have an active query we need to force a disconnect
            on the socket - otherwise a hung query could block end forever *)
         effect (StreamDestroy None)
       else effect ConEnd) ;;
      match cb with
      | Some f => once_end (EndCallback f) ;; ret EndUndefined
      | None =>
          p ← new_promise;
          once_end (EndResolve p) ;;
          ret (EndPromise p)
      end
  end.

(** *** The scheduler and the environment *)

Definition run_task (t : Task) : M unit :=
  match t with
  | THandleError q err => handleError q err
  | TSubmitError q err =>
      handleError q err ;;
      update (set_readyForQuery true) ;;
      _pulseQueryQueue
  | TConnectError cb err => invoke_connect cb (Some err)
  | TEmitEnd => emit EEnd
  end.

(* the oldest nextTick callback runs *)
Definition tick : M unit :=
  w ← get;
  match ticks w with
  | [] => ret tt
  | t :: rest => modify (set_ticks rest) ;; run_task t
  end.

(* timer t expires *)
Definition fire (t : nat) : M unit :=
  w ← get;
  match timers w !! t with
  | None => ret tt
  | Some body =>
      modify (fun w => set_timers (delete t (timers w)) w) ;;
      match body with
      | ReadTimeout q queryCallback => read_timeout q queryCallback
      | ConnectTimeout => connect_timeout
      end
  end.

Definition run_end_listener (l : EndListener) : M unit :=
  match l with
  | OnConnectionEnd => on_connection_end
  | EndCallback f => effect (Called f None)
  | EndResolve p => effect (Settled p None)
  end.

(* EventEmitter.once: the listener is removed, then called *)
Fixpoint remove_listener (l : EndListener) (ls : list EndListener) : list EndListener :=
  match ls with
  | [] => []
  | l' :: ls' => if bool_decide (l' = l) then ls' else l' :: remove_listener l ls'
  end.

Definition emit_end : M unit :=
  w ← get;
  forEach (end_listeners w) (fun l =>
    modify (fun w => set_end_listeners (remove_listener l (end_listeners w)) w) ;;
    run_end_listener l).

(* the connection emits an event: the listeners of _connect and
   _attachListeners *)
Definition on_event (ev : ConEvent) : M unit :=
  w ← get;
  match ev with
  | end_event => emit_end
  | _ =>
    when (listening w)
      match ev with
      | connect =>
          if ssl (config w) then effect ConRequestSsl
          else effect (ConStartup (getStartupConf function_text (connectionParameters (config w))))
      | sslconnect =>
          effect (ConStartup (getStartupConf function_text (connectionParameters (config w))))
      | authenticationCleartextPassword => _handleAuthCleartextPassword
      | authenticationMD5Password salt => _handleAuthMD5Password salt
      | authenticationSASL mechanisms nonce => _handleAuthSASL mechanisms nonce
      | authenticationSASLContinue data => _handleAuthSASLContinue data
      | authenticationSASLFinal data => _handleAuthSASLFinal data
      | backendKeyData pid key => _handleBackendKeyData pid key
      | error_ err => _handleErrorEvent err
      | errorMessage msg => _handleErrorMessage msg
      | readyForQuery_ => _handleReadyForQuery
      | notice msg => _handleNotice msg
      | rowDescription msg => _handleRowDescription msg
      | dataRow msg => _handleDataRow msg
      | portalSuspended => _handlePortalSuspended
      | emptyQuery => _handleEmptyQuery
      | commandComplete msg => _handleCommandComplete msg
      | parseComplete => _handleParseComplete
      | copyInResponse => _handleCopyInResponse
      | copyData msg => _handleCopyData msg
      | notification msg => _handleNotification msg
      | end_event => ret tt
      end
  end.

(* everything that can happen to a client *)
Inductive Input :=
| CallConnect (callback : option nat)
| CallQuery (config : QueryArg)
| CallEnd (cb : option nat)
| CallCancel (query : qref)
| CallRef
| CallUnref
| SetActiveQuery (val : option qref)     (* the deprecated setter *)
| ConnectionEmits (ev : ConEvent)
| CancelConnected
| PasswordResolved (pass : value) (use : PasswordUse)
| PasswordRejected (err : error)
| PgPassFound (pass : value) (use : PasswordUse)
| Md5Hashed (r : result jsstring)
| NextTick
| TimerExpires (t : nat)
| ListenError (on : bool).
    (* client.on('error', listener), and client.off('error', listener) of
       the last listener: EventEmitter's own methods *)

Definition discard {A} (m : M A) : M unit := m ;; ret tt.

Definition step (i : Input) : M unit :=
  match i with
  | CallConnect callback => discard (connect_ callback)
  | CallQuery config => discard (query config)
  | CallEnd cb => discard (end_ cb)
  | CallCancel q => cancel q
  | CallRef => ref
  | CallUnref => unref
  | SetActiveQuery val => update (set_activeQuery val)
  | ConnectionEmits ev => on_event ev
  | CancelConnected => cancel_connected
  | PasswordResolved pass use => password_resolved pass use
  | PasswordRejected err => password_rejected err
  | PgPassFound pass use => pgpass_found pass use
  | Md5Hashed r => md5_hashed r
  | NextTick => tick
  | TimerExpires t => fire t
  | ListenError on => modify (set_error_listener on)
  end.

(* a run: an exception nobody catches leaves the state as it is at the
   throw, and the run goes on *)
Fixpoint run (inputs : list Input) (w : World) : World :=
  match inputs with
  | [] => w
  | i :: inputs' => run inputs' (final (step i w))
  end.

End Methods.

End Client.
(** * The properties

    First the vocabulary the statements use, then the lemmas and theorems. *)

Import Sasl Startup Client.

#[local] Arguments str : simpl never.

(** ** Vocabulary: the SCRAM engine *)

(* the session startSession returns for a mechanism and a gs2 header *)
Definition client_first (mech : jsstring) (gs2Header : string) (nonce : jsstring) : Session :=
  {| mechanism := mech; clientNonce := nonce;
     response := str gs2Header ++ str ",,n=*,r=" ++ nonce;
     message := str "SASLInitialResponse"; serverSignature := None |}.

(* s starts with p and is longer *)
Definition strictly_extends (s p : jsstring) : Prop :=
  exists ext, ext <> [] /\ s = p ++ ext.

(* a decimal integer with a nonzero leading digit *)
Definition positive_decimal (s : jsstring) : Prop :=
  exists d ds, s = d :: ds /\ (49 <= d <= 57)%N /\ Forall (fun c => (48 <= c <= 57)%N) ds.

(* a password continueSession accepts: a non-empty string *)
Definition usable_password (v : value) : Prop :=
  exists pw, v = VString pw /\ pw <> [].

(** ** Vocabulary: the startup parameters *)



(* a text that goes on after its digits with something that is no digit *)
Definition no_digit_ahead (tail : jsstring) : Prop :=
  match tail with
  | c :: _ => is_digit c = false
  | [] => True
  end.

(* a text that does not start with an integer: it is empty, or starts with
   a sign that no digit follows, or with something that is neither white
   space, nor a sign, nor a digit *)
Definition no_integer_ahead (rest : jsstring) : Prop :=
  match rest with
  | [] => True
  | c :: r =>
      is_whitespace c = false /\
      if bool_decide (c = 43%N) || bool_decide (c = 45%N)
      then starts_with_digit r = false
      else is_digit c = false
  end.

(** The text of a timeout as it is sent, told from the text [s] of the
    parameter alone.  After white space, an optional sign and a run of
    digits that writes z: the digits of z without the leading zeros, behind
    a minus sign when [s] has one and z is not zero; after the digits [s]
    may go on with a unit or anything else.  Where no digit follows the
    white space and the sign: "NaN".  The integers are those below 2^53,
    which a Number holds exactly. *)
Inductive integer_text : jsstring -> jsstring -> Prop :=
| integer_text_digits ws k z tail :
    forallb is_whitespace ws = true -> 0 <= z < 2 ^ 53 -> no_digit_ahead tail ->
    integer_text (ws ++ repeat 48%N k ++ decimal z ++ tail) (decimal z)
| integer_text_plus ws k z tail :
    forallb is_whitespace ws = true -> 0 <= z < 2 ^ 53 -> no_digit_ahead tail ->
    integer_text (ws ++ 43%N :: repeat 48%N k ++ decimal z ++ tail) (decimal z)
| integer_text_minus ws k z tail :
    forallb is_whitespace ws = true -> 0 <= z < 2 ^ 53 -> no_digit_ahead tail ->
    integer_text (ws ++ 45%N :: repeat 48%N k ++ decimal z ++ tail)
                 (if z =? 0 then decimal z else 45%N :: decimal z)
| integer_text_none ws rest :
    forallb is_whitespace ws = true -> no_integer_ahead rest ->
    integer_text (ws ++ rest) (str "NaN").

(* what parseInt makes of a text once the white space is gone *)
Definition parseInt10_trimmed (s1 : jsstring) : number :=
  let '(sign, s2) :=
    match s1 with
    | 45%N :: r => (-1, r)
    | 43%N :: r => (1, r)
    | _ => (1, s1)
    end in
  if starts_with_digit s2 then Number_of_integer (sign * digits_value s2 0) else NaN.

(** ** Vocabulary: the client *)

(* the calls of handleError in a trace, in order *)
Definition handled (tr : list Effect) : list (qref * error) :=
  omap (fun e => match e with QHandleError q err => Some (q, err) | _ => None end) tr.

(* the invocations of the caller's functions and the settlements of
   promises in a trace, in order *)
Definition deliveries (tr : list Effect) : list Effect :=
  omap (fun e => match e with Called _ _ | Settled _ _ => Some e | _ => None end) tr.

(* the client-final messages handed to the connection *)
Definition client_finals (tr : list Effect) : list jsstring :=
  omap (fun e => match e with ConSendSCRAMClientFinal r => Some r | _ => None end) tr.

(* the queries _errorAllQueries fails: the active one, then the queue *)
Definition failed_queries (w : World) : list qref :=
  match _activeQuery (client w) with Some q => [q] | None => [] end
  ++ _queryQueue (client w).

(* the query object a call of client.query is about *)
Definition submitted (config : QueryArg) (w : World) : qref :=
  match config with
  | ArgSubmittable q _ => q
  | _ => Made (next_query w)
  end.

(* the error of a query that a client refuses *)
Definition refusal (w : World) : error :=
  if _queryable (client w)
  then Error (str "Client was closed and is not queryable")
  else Error (str "Client has encountered a connection error and is not queryable").

Definition timeout_error : error := Error (str "Query read timeout").

(* what invoking a callback shows to the caller *)
Definition delivery (cb : Callback) (err : option error) : list Effect :=
  match cb with
  | CbUser f => [Called f err]
  | CbSettle p => [Settled p err]
  | _ => []
  end.

(* the callback the caller gave, or the one of the promise query returned *)
Definition plain (cb : Callback) : Prop :=
  match cb with
  | CbUser _ | CbSettle _ => True
  | _ => False
  end.

(* the callback of the query has been replaced by () => {} *)
Definition silenced (q : qref) (w : World) : Prop :=
  callback (query_of w q) = CbNoop.

(* the reference is one of an object that exists *)
Definition allocated (q : qref) (w : World) : Prop :=
  match q with
  | Made n => (n < next_query w)%nat
  | Given _ => True
  end.

(* the same query object is handed to client.query again *)
Definition resubmits (q : qref) (i : Input) : Prop :=
  exists values, i = CallQuery (ArgSubmittable q values).

Definition is_backendKeyData (i : Input) : Prop :=
  exists pid key, i = ConnectionEmits (backendKeyData pid key).

(* what end does to the transport when it gets there *)
Definition shutdown_action (w : World) : Effect :=
  if bool_decide (_activeQuery (client w) <> None) || negb (_queryable (client w))
  then StreamDestroy None
  else ConEnd.

(* what a listener of the connection's 'end' completes *)
Definition completion (l : EndListener) : option Effect :=
  match l with
  | OnConnectionEnd => None
  | EndCallback f => Some (Called f None)
  | EndResolve p => Some (Settled p None)
  end.

(** Relations between the world before and the world after a piece of
    client code. *)

Definition same_keys (w w' : World) : Prop :=
  processID (client w') = processID (client w) /\
  secretKey (client w') = secretKey (client w).

Definition same_handled (w w' : World) : Prop :=
  handled (trace w') = handled (trace w).

Definition same_ticks (w w' : World) : Prop := ticks w' = ticks w.

(* the fields of the client are the same *)
Definition same_client (w w' : World) : Prop := client w' = client w.

Definition stays_silenced (q : qref) (w w' : World) : Prop :=
  silenced q w /\ allocated q w -> silenced q w' /\ allocated q w'.

Definition scram_stalled (w w' : World) : Prop :=
  saslSession (client w') = saslSession (client w) /\
  client_finals (trace w') = client_finals (trace w).

(* m relates every world to the world it ends in, returning or throwing *)
Definition preserves {A} (R : World -> World -> Prop) (m : M A) : Prop :=
  forall w, R w (final (m w)).

(** ** Concrete clients, for the examples *)

Definition example_params : ConnectionParameters :=
  {| user := VString (str "alice"); database := VString (str "app");
     application_name := VUndefined; fallback_application_name := VUndefined;
     replication := VUndefined; statement_timeout := VUndefined;
     lock_timeout := VUndefined; idle_in_transaction_session_timeout := VUndefined;
     options := VUndefined; query_timeout := VUndefined |}.

Definition example_config : Config :=
  {| host := VString (str "localhost"); port := VNumber (Int 5432); ssl := false;
     cfg_binary := false; _connectionTimeoutMillis := 0; enableChannelBinding := false;
     connectionParameters := example_params; stream := None; pgpass_installed := false |}.

(* the same, over a unix-domain socket *)
Definition socket_config : Config :=
  {| host := VString (str "/var/run/postgresql"); port := VNumber (Int 5432); ssl := false;
     cfg_binary := false; _connectionTimeoutMillis := 0; enableChannelBinding := false;
     connectionParameters := example_params; stream := None; pgpass_installed := false |}.

(* the same as [example_config], with the pgpass module installed *)
Definition pgpass_config : Config :=
  {| host := VString (str "localhost"); port := VNumber (Int 5432); ssl := false;
     cfg_binary := false; _connectionTimeoutMillis := 0; enableChannelBinding := false;
     connectionParameters := example_params; stream := None; pgpass_installed := true |}.

(* hash functions that hand their input back: enough to run the client *)
Definition example_runtime : Runtime :=
  {| function_text := fun _ => str "function () { }";
     signatureAlgorithmHashFromCertificate := fun _ => Ok (str "SHA-256");
     hashByName := fun _ b => Ok b;
     deriveKey := fun _ b _ => Ok b;
     hmacSha256 := fun b _ => Ok b;
     sha256 := fun b => Ok b;
     base64_encode := fun b => map Z.to_N b;
     base64_decode := fun s => map Z.of_N s |}.

Definition example_query (f : nat) : QueryObj :=
  {| callback := CbUser f; binary := false; _result := Some false; name := None;
     text := VString (str "select 1"); q_query_timeout := VUndefined; preflight := None |}.

Definition fresh_client : World := new_world example_config (VString (str "secret")).

(* connect(), the transport connects, the backend is ready *)
Definition connected_client : World :=
  run (runtime := example_runtime)
    [CallConnect None; ConnectionEmits connect; ConnectionEmits readyForQuery_]
    fresh_client.

(* a connected client with one query on the wire *)
Definition busy_client : World :=
  run (runtime := example_runtime)
    [CallQuery (ArgConfig VUndefined (example_query 7))] connected_client.

(* a connected client whose query has a read timeout of 50 ms *)
Definition timed_client : World :=
  run (runtime := example_runtime)
    [CallQuery (ArgConfig (VNumber (Int 50)) (example_query 7))] connected_client.

(* end(), then the transport closes *)
Definition ended_client : World :=
  run (runtime := example_runtime)
    [CallEnd None; ConnectionEmits end_event; NextTick] connected_client.

(* a connected client whose socket failed while a query was on the wire *)
Definition broken_client : World :=
  run (runtime := example_runtime)
    [ConnectionEmits (error_ (External 1))] busy_client.

(** ** Vocabulary: more of the SCRAM engine *)

(* the language of /^(?:[a-zA-Z0-9+/]{4})*(?:[a-zA-Z0-9+/]{2}==|[a-zA-Z0-9+/]{3}=)?$/ *)
Inductive Base64 : jsstring -> Prop :=
| Base64_empty : Base64 []
| Base64_pad2 a b :
    base64_char a = true -> base64_char b = true -> Base64 [a; b; 61%N; 61%N]
| Base64_pad1 a b c :
    base64_char a = true -> base64_char b = true -> base64_char c = true ->
    Base64 [a; b; c; 61%N]
| Base64_group a b c d rest :
    base64_char a = true -> base64_char b = true -> base64_char c = true ->
    base64_char d = true -> Base64 rest -> Base64 (a :: b :: c :: d :: rest).

(* the base64 alphabet of RFC 4648 *)
Definition b64_digit (n : Z) : N :=
  if n <? 26 then Z.to_N (65 + n)
  else if n <? 52 then Z.to_N (97 + (n - 26))
  else if n <? 62 then Z.to_N (48 + (n - 52))
  else if n =? 62 then 43%N else 47%N.

(* the base64 encoding of RFC 4648, to say what an encoded literal of the
   source stands for *)
Fixpoint b64 (b : bytes) : jsstring :=
  match b with
  | x :: y :: z :: rest =>
      let n := x * 65536 + y * 256 + z in
      b64_digit (n / 262144) :: b64_digit (n / 4096 mod 64)
        :: b64_digit (n / 64 mod 64) :: b64_digit (n mod 64) :: b64 rest
  | [x; y] =>
      let n := x * 1024 + y * 4 in
      [b64_digit (n / 4096); b64_digit (n / 64 mod 64); b64_digit (n mod 64); 61%N]
  | [x] =>
      let n := x * 16 in
      [b64_digit (n / 64); b64_digit (n mod 64); 61%N; 61%N]
  | [] => []
  end.

(* a server-first message in the form the server sends it *)
Definition server_first_text (n s it : jsstring) : jsstring :=
  str "r=" ++ n ++ str ",s=" ++ s ++ str ",i=" ++ it.

(** ** Vocabulary: more of the client *)

(* the queries handed to the connection, in order *)
Definition submits (tr : list Effect) : list qref :=
  omap (fun e => match e with QSubmit q => Some q | _ => None end) tr.

(* the deprecated setter of activeQuery *)
Definition is_setter (i : Input) : Prop := exists val, i = SetActiveQuery val.

(* the bookkeeping of the client agrees with itself: it is not connecting
   and connected at once, and while a query is active the client does not
   count as ready for the next one *)
Definition consistent (w : World) : Prop :=
  _connecting (client w) && _connected (client w) = false /\
  (_activeQuery (client w) <> None ->
   readyForQuery (client w) = false /\ hasExecuted (client w) = true).

(* m run from w ends in a world where Q holds, if it returns, and in one
   where E holds, if it throws *)
Definition wp {A} (m : M A) (Q : A -> World -> Prop) (E : World -> Prop)
    (w : World) : Prop :=
  match m w with
  | Return a w' => Q a w'
  | Raise _ w' => E w'
  end.

(* the events the client emitted, in order *)
Definition emitted (tr : list Effect) : list ClientEvent :=
  omap (fun e => match e with Emit ev => Some ev | _ => None end) tr.

(* what invoking a callback adds to the trace *)
Fixpoint invoke_trace (cb : Callback) (err : option error) : list Effect :=
  match cb with
  | CbUser f => [Called f err]
  | CbSettle p => [Settled p err]
  | CbClearTimeout t queryCallback => ClearTimeout t :: invoke_trace queryCallback err
  | _ => []
  end.

(* what invoking a callback leaves as it is: everything but the trace and
   the timers *)
Definition beside_callbacks (w w' : World) : Prop :=
  client w' = client w /\ config w' = config w /\
  con_connecting w' = con_connecting w /\
  parsedStatements w' = parsedStatements w /\ queries w' = queries w /\
  next_query w' = next_query w /\ ticks w' = ticks w /\
  end_listeners w' = end_listeners w /\ listening w' = listening w /\
  error_listener w' = error_listener w.

(* the 'connect' events among the events the client emitted *)
Definition connect_events (tr : list Effect) : list ClientEvent :=
  omap (fun ev => match ev with EConnect => Some ev | _ => None end) (emitted tr).

(* 'connect' was emitted at most once, and only by a client that is
   connected since *)
Definition announced_once (w : World) : Prop :=
  (length (connect_events (trace w)) <= 1)%nat /\
  (connect_events (trace w) <> [] ->
   _connected (client w) = true /\ _connecting (client w) = false).

(* a client that lost its connection and has nothing queued *)
Definition unqueryable (w : World) : Prop :=
  _queryable (client w) = false /\ _queryQueue (client w) = [].



(* the active query is the query that was submitted last *)
Definition active_is_last (w : World) : Prop :=
  forall q, _activeQuery (client w) = Some q -> last (submits (trace w)) = Some q.

(* the flags of the client that are set once and for all: w' has every
   flag that w has, and is not queryable if w is not *)
Definition latched (w w' : World) : Prop :=
  (_ending (client w) = true -> _ending (client w') = true) /\
  (_ended (client w) = true -> _ended (client w') = true) /\
  (_connected (client w) = true -> _connected (client w') = true) /\
  (_connectionError (client w) = true -> _connectionError (client w') = true) /\
  (hasExecuted (client w) = true -> hasExecuted (client w') = true) /\
  (_queryable (client w) = false -> _queryable (client w') = false) /\
  (listening w = true -> listening w' = true) /\
  (con_connecting w = true -> con_connecting w' = true).

(* what a connect callback shows to the caller *)
Definition connect_delivery (cb : ConnectCallback) (err : option error) : Effect :=
  match cb with
  | CcUser f => Called f err
  | CcPromise p => Settled p err
  end.

Definition reuse_error : error :=
  Error (str "Client has already been connected. You cannot reuse a client.").

(* the credentials handed to the connection, in order *)
Definition credentials (tr : list Effect) : list Effect :=
  omap (fun e => match e with
                 | ConPassword _ | Md5Hash _ _ _ | ConSendSASLInitialResponse _ _ => Some e
                 | _ => None
                 end) tr.

(* neither the password nor the SCRAM session is changed, and no
   credentials are sent *)
Definition no_credentials (w w' : World) : Prop :=
  password (client w') = password (client w) /\
  saslSession (client w') = saslSession (client w) /\
  credentials (trace w') = credentials (trace w).

(* the error of a password function that resolves to something else than a
   string *)
Definition password_type_error : error := TypeError (str "Password must be a string").

(* the backend messages that the client hands to the active query without
   looking whether there is one *)
Definition delegated (ev : ConEvent) : bool :=
  match ev with
  | rowDescription _ | dataRow _ | portalSuspended | emptyQuery
  | copyInResponse | copyData _ => true
  | _ => false
  end.

(* the backend messages that the client checks for an active query *)
Definition checked_message (ev : ConEvent) : option string :=
  match ev with
  | commandComplete _ => Some "commandComplete"%string
  | parseComplete => Some "parseComplete"%string
  | _ => None
  end.

Definition unexpected_message (text : string) : error :=
  Error (str "Received unexpected " ++ str text ++ str " message from backend.").

(* the error that the end of the connection gives the outstanding queries *)
Definition termination_error (w : World) : error :=
  if _ending (client w) then Error (str "Connection terminated")
  else Error (str "Connection terminated unexpectedly").

(* connect(cb), and the transport connects: the client waits for the
   backend *)
Definition connecting_client : World :=
  run (runtime := example_runtime)
    [CallConnect (Some 1%nat); ConnectionEmits connect] fresh_client.

(* the prepared statements the connection knows as parsed are the same *)
Definition same_statements (w w' : World) : Prop :=
  parsedStatements w' = parsedStatements w.

(** ** Numbers and their texts *)

Lemma is_digit_range c : is_digit c = true <-> (48 <= c <= 57)%N.
Proof.
  unfold is_digit. rewrite andb_true_iff, !N.leb_le. reflexivity.
Qed.

Lemma digits_value_snoc ds c acc :
  forallb is_digit ds = true -> is_digit c = true ->
  digits_value (ds ++ [c]) acc = 10 * digits_value ds acc + (Z.of_N c - 48).
Proof.
  revert acc. induction ds as [|d ds IH]; intros acc Hds Hc; cbn in *.
  - rewrite Hc. reflexivity.
  - apply andb_true_iff in Hds. destruct Hds as [Hd Hds]. rewrite Hd.
    apply IH; assumption.
Qed.

Lemma digits_value_app ds : forall tail acc,
  forallb is_digit ds = true ->
  digits_value (ds ++ tail) acc = digits_value tail (digits_value ds acc).
Proof.
  induction ds as [|d ds IH]; intros tail acc Hds; cbn in *; [reflexivity|].
  apply andb_true_iff in Hds. destruct Hds as [Hd Hds]. rewrite Hd.
  apply IH. exact Hds.
Qed.

Lemma digits_value_ge s acc : 0 <= acc -> acc <= digits_value s acc.
Proof.
  revert acc. induction s as [|c s IH]; intros acc Hacc; simpl; [lia|].
  destruct (is_digit c) eqn:E; [|lia].
  unfold is_digit in E. rewrite andb_true_iff, !N.leb_le in E.
  etransitivity; [|apply IH]; lia.
Qed.

(* n digits write a number below 10^n *)
Lemma digits_value_bound ds : forall acc,
  0 <= acc -> forallb is_digit ds = true ->
  digits_value ds acc < (acc + 1) * 10 ^ Z.of_nat (length ds).
Proof.
  induction ds as [|d ds IH]; intros acc Hacc Hds; cbn [digits_value length].
  - cbn. lia.
  - cbn in Hds. apply andb_true_iff in Hds. destruct Hds as [Hd Hds]. rewrite Hd.
    apply is_digit_range in Hd.
    eapply Z.lt_le_trans; [apply IH; [lia | exact Hds]|].
    rewrite Nat2Z.inj_succ, Z.pow_succ_r by lia.
    assert (0 < 10 ^ Z.of_nat (length ds)) by (apply Z.pow_pos_nonneg; lia).
    nia.
Qed.

Lemma digits_value_zeros k : forall tail,
  digits_value (repeat 48%N k ++ tail) 0 = digits_value tail 0.
Proof. induction k as [|k IH]; intros tail; cbn; [reflexivity | apply IH]. Qed.

Lemma decimal_fuel_acc fuel : forall z acc,
  decimal_fuel fuel z acc = decimal_fuel fuel z [] ++ acc.
Proof.
  induction fuel as [|fuel IH]; intros z acc; cbn; [reflexivity|].
  destruct (z / 10 =? 0); [reflexivity|].
  rewrite IH, (IH _ [_]), <- app_assoc. reflexivity.
Qed.

Lemma log2_tenth z : 10 <= z -> Z.log2 (z / 10) < Z.log2 z.
Proof.
  intros Hz.
  assert (H : 0 < z / 10) by (Z.div_mod_to_equations; lia).
  pose proof (Z.log2_double (z / 10) H) as Hd.
  assert (Z.log2 (2 * (z / 10)) <= Z.log2 z)
    by (apply Z.log2_le_mono; Z.div_mod_to_equations; lia).
  lia.
Qed.

Lemma decimal_fuel_enough f1 : forall f2 z acc,
  0 <= z -> Z.log2 z < Z.of_nat f1 -> Z.log2 z < Z.of_nat f2 ->
  decimal_fuel f1 z acc = decimal_fuel f2 z acc.
Proof.
  induction f1 as [|f1 IH]; intros f2 z acc Hz H1 H2.
  - pose proof (Z.log2_nonneg z). lia.
  - destruct f2 as [|f2]; [pose proof (Z.log2_nonneg z); lia|]. cbn.
    destruct (Z.eqb_spec (z / 10) 0) as [|Hq]; [reflexivity|].
    assert (10 <= z) by (Z.div_mod_to_equations; lia).
    pose proof (log2_tenth z ltac:(lia)).
    apply IH; [Z.div_mod_to_equations; lia | lia | lia].
Qed.

Lemma decimal_snoc v d :
  0 < v -> 0 <= d < 10 -> decimal (10 * v + d) = decimal v ++ [digit_char d].
Proof.
  intros Hv Hd. unfold decimal.
  change (decimal_fuel (S ?f) ?z []) with
    (let acc' := [digit_char (z mod 10)] in
     if z / 10 =? 0 then acc' else decimal_fuel f (z / 10) acc') at 1.
  cbv zeta.
  replace ((10 * v + d) mod 10) with d by (Z.div_mod_to_equations; lia).
  replace ((10 * v + d) / 10) with v by (Z.div_mod_to_equations; lia).
  destruct (Z.eqb_spec v 0) as [|_]; [lia|].
  rewrite decimal_fuel_acc.
  assert (Hl : Z.log2 v < Z.log2 (10 * v + d)).
  { pose proof (log2_tenth (10 * v + d) ltac:(lia)) as H.
    replace ((10 * v + d) / 10) with v in H by (Z.div_mod_to_equations; lia).
    exact H. }
  pose proof (Z.log2_nonneg v).
  rewrite (decimal_fuel_enough _ (S (Z.to_nat (Z.log2 v)))); [reflexivity | lia | lia | lia].
Qed.

Lemma decimal_digit d : 0 <= d < 10 -> decimal d = [digit_char d].
Proof.
  intros Hd. unfold decimal.
  change (decimal_fuel (S ?f) ?z []) with
    (let acc' := [digit_char (z mod 10)] in
     if z / 10 =? 0 then acc' else decimal_fuel f (z / 10) acc').
  cbv zeta.
  replace (d mod 10) with d by (Z.div_mod_to_equations; lia).
  replace (d / 10) with 0 by (Z.div_mod_to_equations; lia).
  reflexivity.
Qed.

Lemma decimal_fuel_digits fuel : forall z acc,
  0 <= z -> forallb is_digit acc = true ->
  forallb is_digit (decimal_fuel fuel z acc) = true.
Proof.
  induction fuel as [|fuel IH]; intros z acc Hz Hacc; cbn; [exact Hacc|].
  assert (Hd : is_digit (digit_char (z mod 10)) = true).
  { apply is_digit_range. unfold digit_char.
    pose proof (Z.mod_pos_bound z 10 ltac:(lia)). lia. }
  destruct (z / 10 =? 0).
  - cbn. rewrite Hd. exact Hacc.
  - apply IH; [apply Z.div_pos; lia | cbn; rewrite Hd; exact Hacc].
Qed.

Lemma decimal_digits z : 0 <= z -> forallb is_digit (decimal z) = true.
Proof. intros Hz. apply decimal_fuel_digits; [exact Hz | reflexivity]. Qed.

Lemma decimal_digits_value ds : forall d,
  (49 <= d <= 57)%N -> forallb is_digit ds = true ->
  0 < digits_value (d :: ds) 0 /\ decimal (digits_value (d :: ds) 0) = d :: ds.
Proof.
  induction ds as [|c ds IH] using rev_ind; intros d Hd Hds.
  - cbn [digits_value]. assert (is_digit d = true) as -> by (apply is_digit_range; lia).
    replace (10 * 0 + (Z.of_N d - 48)) with (Z.of_N d - 48) by lia.
    split; [lia|]. rewrite decimal_digit by lia.
    unfold digit_char. f_equal. lia.
  - rewrite forallb_app in Hds. apply andb_true_iff in Hds. destruct Hds as [Hds Hc].
    cbn in Hc. rewrite andb_true_r in Hc.
    destruct (IH d Hd Hds) as [Hpos Hdec].
    change (d :: ds ++ [c]) with ((d :: ds) ++ [c]).
    rewrite digits_value_snoc.
    2:{ cbn. rewrite Hds, andb_true_r. apply is_digit_range. lia. }
    2:{ exact Hc. }
    apply is_digit_range in Hc.
    split; [lia|].
    rewrite decimal_snoc by lia. rewrite Hdec. cbn. f_equal.
    unfold digit_char. f_equal. f_equal. lia.
Qed.

Lemma digits_value_decimal_bounded n : forall z,
  0 <= z < Z.of_nat n -> digits_value (decimal z) 0 = z.
Proof.
  induction n as [|n IH]; intros z Hz; [lia|].
  destruct (Z.ltb_spec z 10) as [Hlt|Hge].
  - rewrite decimal_digit by lia. cbn.
    assert (is_digit (digit_char z) = true) as ->
      by (apply is_digit_range; unfold digit_char; lia).
    unfold digit_char. lia.
  - assert (Hq : z = 10 * (z / 10) + z mod 10) by (apply Z.div_mod; lia).
    pose proof (Z.mod_pos_bound z 10 ltac:(lia)) as Hm.
    assert (Hv : 0 < z / 10 < z) by (Z.div_mod_to_equations; lia).
    rewrite Hq at 1. rewrite decimal_snoc by lia.
    rewrite digits_value_snoc.
    + rewrite IH by lia. unfold digit_char. lia.
    + apply decimal_digits. lia.
    + apply is_digit_range. unfold digit_char. lia.
Qed.

Lemma digits_value_decimal z : 0 <= z -> digits_value (decimal z) 0 = z.
Proof. intros Hz. apply (digits_value_decimal_bounded (S (Z.to_nat z))). lia. Qed.

Lemma decimal_head z :
  0 <= z -> exists d ds, decimal z = d :: ds /\ is_digit d = true /\
                         forallb is_digit ds = true.
Proof.
  intros Hz. pose proof (decimal_digits z Hz) as H.
  destruct (decimal z) as [|d ds] eqn:E.
  - unfold decimal in E. cbn [decimal_fuel] in E.
    destruct (z / 10 =? 0); [discriminate E|].
    rewrite decimal_fuel_acc in E. destruct (decimal_fuel _ _ []); discriminate E.
  - cbn in H. apply andb_true_iff in H. destruct H. eauto.
Qed.

Lemma positive_decimal_digits it :
  positive_decimal it ->
  exists d ds, it = d :: ds /\ (49 <= d <= 57)%N /\ forallb is_digit ds = true.
Proof.
  intros (d & ds & -> & Hd & Hds). exists d, ds. repeat split; try lia.
  apply forallb_forall. intros c Hc. apply is_digit_range.
  rewrite List.Forall_forall in Hds. apply Hds, Hc.
Qed.

(** *** Integers as Numbers *)

Lemma round_half_even_ge n d : n / d <= round_half_even n d.
Proof.
  unfold round_half_even.
  destruct (2 * (n mod d) <? d); [lia|].
  destruct (d <? 2 * (n mod d)); [lia|].
  destruct (Z.even (n / d)); lia.
Qed.

Lemma round_half_even_exact n : round_half_even n 1 = n.
Proof.
  unfold round_half_even. rewrite Z.mod_1_r, Z.div_1_r. reflexivity.
Qed.

(* rounding leaves an integer below 2^53 as it is *)
Lemma binary64_safe z :
  0 < z < 2 ^ 53 ->
  exists v, binary64 z 1 = Some v /\ 0 < v.2 /\ v.1 = z * v.2.
Proof.
  intros Hz. unfold binary64.
  change (Z.log2 1) with 0. rewrite Z.sub_0_r.
  pose proof (Z.log2_spec z ltac:(lia)) as [Hlo Hhi].
  pose proof (Z.log2_nonneg z) as H0.
  assert (Hl : Z.log2 z < 53) by (apply Z.log2_lt_pow2; lia).
  unfold scaled2 at 1.
  destruct (Z.leb_spec 0 (Z.log2 z)) as [_|]; [|lia].
  rewrite Z.mul_1_l.
  destruct (Z.leb_spec (2 ^ Z.log2 z) z) as [_|]; [|lia].
  rewrite Z.max_l by lia.
  unfold scaled2.
  destruct (Z.leb_spec 0 (Z.log2 z - 52)) as [He|He].
  - assert (E : Z.log2 z - 52 = 0) by lia. rewrite E.
    change (2 ^ 0) with 1. rewrite Z.mul_1_l, round_half_even_exact, Z.mul_1_r.
    destruct (Z.leb_spec (2 ^ 1024) z) as [Hbig|_].
    + exfalso. assert (2 ^ 53 < 2 ^ 1024) by (apply Z.pow_lt_mono_r; lia). lia.
    + exists (z, 1). cbn. split; [reflexivity|]. lia.
  - rewrite round_half_even_exact.
    eexists. split; [reflexivity|]. cbn [fst snd].
    split; [apply Z.pow_pos_nonneg; lia | reflexivity].
Qed.

(* from 2^53 on binary64 rounds an integer to an integer that is no
   smaller than 2^53, or to infinity *)
Lemma binary64_integer z :
  2 ^ 53 <= z ->
  binary64 z 1 = None \/ exists n, binary64 z 1 = Some (n, 1) /\ 2 ^ 53 <= n.
Proof.
  intros Hz. unfold binary64.
  change (Z.log2 1) with 0. rewrite Z.sub_0_r.
  assert (Hlg : 53 <= Z.log2 z) by (apply Z.log2_le_pow2; lia).
  pose proof (Z.log2_spec z ltac:(lia)) as [Hlo Hhi].
  unfold scaled2.
  destruct (Z.leb_spec 0 (Z.log2 z)) as [_|]; [|lia].
  rewrite Z.mul_1_l.
  destruct (Z.leb_spec (2 ^ Z.log2 z) z) as [_|]; [|lia].
  rewrite Z.max_l by lia.
  destruct (Z.leb_spec 0 (Z.log2 z - 52)) as [_|]; [|lia].
  rewrite Z.mul_1_l.
  set (e := Z.log2 z - 52) in *.
  assert (He : 0 < 2 ^ e) by (apply Z.pow_pos_nonneg; lia).
  assert (Hm : 2 ^ 52 <= round_half_even z (2 ^ e)).
  { etransitivity; [|apply round_half_even_ge].
    apply Z.div_le_lower_bound; [exact He|].
    rewrite <- Z.pow_add_r by lia. replace (e + 52) with (Z.log2 z) by lia.
    exact Hlo. }
  destruct (2 ^ 1024 <=? round_half_even z (2 ^ e) * 2 ^ e); [left; reflexivity|].
  right. eexists. split; [reflexivity|].
  assert (2 ^ 1 <= 2 ^ e) by (apply Z.pow_le_mono_r; lia).
  change (2 ^ 53) with (2 ^ 52 * 2 ^ 1). apply Z.mul_le_mono_nonneg; lia.
Qed.

Lemma Number_of_integer_safe z :
  - 2 ^ 53 < z < 2 ^ 53 -> Number_of_integer z = Int z.
Proof.
  intros Hz. unfold Number_of_integer.
  destruct (Z.eq_dec z 0) as [-> | Hne]; [reflexivity|].
  destruct (binary64_safe (Z.abs z) ltac:(lia)) as (v & -> & Hv & E).
  rewrite E, Z.div_mul by lia. f_equal. lia.
Qed.

Lemma Number_of_integer_positive z :
  0 < z ->
  (exists n, Number_of_integer z = Int n /\ 0 < n) \/
  Number_of_integer z = Infinity false.
Proof.
  intros Hz.
  destruct (Z.lt_ge_cases z (2 ^ 53)) as [Hsafe | Hbig].
  - left. exists z. split; [apply Number_of_integer_safe; lia | exact Hz].
  - unfold Number_of_integer. rewrite Z.abs_eq by lia.
    destruct (binary64_integer z Hbig) as [-> | (n & -> & Hn)].
    + right. destruct (Z.ltb_spec z 0); [lia | reflexivity].
    + left. cbn [fst snd]. rewrite Z.div_1_r.
      exists (Z.sgn z * n). split; [reflexivity|].
      rewrite Z.sgn_pos by lia. lia.
Qed.

(** *** The text of an integer below 2^53

    Number::toString finds the digits of such an integer: the decimal
    numerals that are read back as z are z itself, with or without its
    trailing zeros. *)

Lemma decimal_pow10 a j :
  0 < a -> decimal (a * 10 ^ Z.of_nat j) = decimal a ++ repeat 48%N j.
Proof.
  intros Ha. induction j as [|j IH].
  - cbn [repeat]. rewrite Z.mul_1_r, app_nil_r. reflexivity.
  - rewrite Nat2Z.inj_succ, Z.pow_succ_r by lia.
    assert (0 < 10 ^ Z.of_nat j) by (apply Z.pow_pos_nonneg; lia).
    replace (a * (10 * 10 ^ Z.of_nat j)) with (10 * (a * 10 ^ Z.of_nat j) + 0) by lia.
    rewrite decimal_snoc by nia. rewrite IH, <- app_assoc. f_equal.
    change [digit_char 0] with [48%N]. symmetry. apply (repeat_cons j 48%N).
Qed.

Lemma decimal_length_bounded n : forall z,
  0 < z < Z.of_nat n ->
  10 ^ (Z.of_nat (length (decimal z)) - 1) <= z < 10 ^ Z.of_nat (length (decimal z)).
Proof.
  induction n as [|n IH]; intros z Hz; [lia|].
  destruct (Z.ltb_spec z 10) as [Hlt|Hge].
  - rewrite decimal_digit by lia. cbn. lia.
  - assert (Hq : z = 10 * (z / 10) + z mod 10) by (apply Z.div_mod; lia).
    pose proof (Z.mod_pos_bound z 10 ltac:(lia)) as Hm.
    assert (Hv : 0 < z / 10 < z) by (Z.div_mod_to_equations; lia).
    assert (Ed' : decimal z = decimal (z / 10) ++ [digit_char (z mod 10)])
      by (rewrite Hq at 1; apply decimal_snoc; lia).
    rewrite Ed', length_app. cbn [length]. rewrite Nat2Z.inj_add.
    specialize (IH (z / 10) ltac:(lia)).
    destruct (decimal (z / 10)) as [|d ds] eqn:Ed.
    { destruct (decimal_head (z / 10) ltac:(lia)) as (? & ? & E & _). congruence. }
    set (N := Z.of_nat (length (d :: ds))) in *.
    assert (HN : 1 <= N) by (subst N; cbn [length]; lia).
    replace (N + Z.of_nat 1 - 1) with (Z.succ (N - 1)) by lia.
    replace (N + Z.of_nat 1) with (Z.succ N) by lia.
    rewrite !Z.pow_succ_r by lia. lia.
Qed.

Lemma decimal_length z :
  0 < z ->
  10 ^ (Z.of_nat (length (decimal z)) - 1) <= z < 10 ^ Z.of_nat (length (decimal z)).
Proof. intros Hz. apply (decimal_length_bounded (S (Z.to_nat z))). lia. Qed.

Section SafeInteger.
Variables (z : Z) (v : Z * Z).
Hypothesis Hz : 0 < z < 2 ^ 53.
Hypothesis Hv : 0 < v.2.
Hypothesis Ev : v.1 = z * v.2.

(* the number of digits of z *)
Let N := Z.of_nat (length (decimal z)).

Lemma safe_digits : 1 <= N <= 16.
Proof.
  pose proof (decimal_length z ltac:(lia)) as [Hlo Hhi]. fold N in Hlo, Hhi.
  split.
  - destruct (Z.lt_ge_cases N 1) as [H|H]; [|exact H].
    exfalso. assert (10 ^ N <= 10 ^ 0) by (apply Z.pow_le_mono_r; lia).
    change (10 ^ 0) with 1 in *. lia.
  - destruct (Z.le_gt_cases N 16) as [H|H]; [exact H|].
    exfalso. assert (10 ^ 16 <= 10 ^ (N - 1)) by (apply Z.pow_le_mono_r; lia).
    assert (2 ^ 53 < 10 ^ 16) by reflexivity. lia.
Qed.

Lemma magnitude_safe : magnitude v = N.
Proof.
  unfold magnitude. rewrite Ev.
  destruct (Z.leb_spec v.2 (z * v.2)) as [_|H]; [|nia].
  rewrite Z.div_mul by lia. reflexivity.
Qed.

(* a numeral c * 10^j is read back as z when it is z *)
Lemma denotes_safe c n k :
  0 < c -> k <= n ->
  denotes v c n k = (c * 10 ^ (n - k) =? z).
Proof.
  intros Hc Hk. unfold denotes, scaled10.
  destruct (Z.leb_spec 0 (n - k)) as [_|]; [|lia].
  assert (Hp : 0 < 10 ^ (n - k)) by (apply Z.pow_pos_nonneg; lia).
  set (w := c * 10 ^ (n - k)).
  assert (Hw : 0 < w) by (apply Z.mul_pos_pos; assumption).
  destruct (Z.lt_ge_cases w (2 ^ 53)) as [Hsafe | Hbig].
  - destruct (binary64_safe w ltac:(lia)) as (v' & -> & Hv' & E').
    unfold same_fraction. rewrite E', Ev.
    destruct (Z.eqb_spec w z) as [-> | Hne].
    + apply Z.eqb_eq. lia.
    + apply Z.eqb_neq. intros E. apply Hne.
      assert (E2 : w * (v'.2 * v.2) = z * (v'.2 * v.2)) by lia.
      apply Z.mul_cancel_r in E2; [exact E2 | nia].
  - assert (Hne : (w =? z) = false) by (apply Z.eqb_neq; lia).
    rewrite Hne.
    destruct (binary64_integer w Hbig) as [-> | (n' & -> & Hn')]; [reflexivity|].
    unfold same_fraction. cbn [fst snd]. rewrite Ev.
    apply Z.eqb_neq. nia.
Qed.

Lemma shortest_eq fuel n k :
  shortest fuel v n k =
  let '(a, b) := scaled10 v.1 v.2 (k - n) in
  let lo := a / b in
  let hi := lo + 1 in
  let r := a mod b in
  let pick s := if s =? 10 ^ k then (10 ^ (k - 1), k, n + 1) else (s, k, n) in
  let lo_ok := denotes v lo n k in
  let hi_ok := denotes v hi n k in
  if lo_ok && hi_ok then
    if 2 * r <? b then pick lo
    else if b <? 2 * r then pick hi
    else if Z.even lo then pick lo else pick hi
  else if lo_ok then pick lo
  else if hi_ok then pick hi
  else match fuel with
       | O => pick lo
       | S f => shortest f v n (k + 1)
       end.
Proof. destruct fuel; reflexivity. Qed.

(* the digits of z before its last m digits *)
Lemma leading_digits m :
  0 <= m ->
  let '(a, b) := scaled10 v.1 v.2 (- m) in a / b = z / 10 ^ m.
Proof.
  intros Hm. unfold scaled10.
  destruct (Z.leb_spec 0 (- m)) as [H|H].
  - assert (m = 0) as -> by lia. cbn [Z.opp]. change (10 ^ 0) with 1.
    rewrite Z.mul_1_r, Z.div_1_r, Ev. apply Z.div_mul. lia.
  - rewrite Z.opp_involutive, Ev.
    assert (0 < 10 ^ m) by (apply Z.pow_pos_nonneg; lia).
    rewrite (Z.mul_comm z), Z.div_mul_cancel_l by lia. reflexivity.
Qed.

(* one round of the search, k digits tried, m = N - k digits left out *)
Lemma shortest_step (m : nat) fuel k :
  1 <= k -> k + Z.of_nat m = N ->
  let p := 10 ^ Z.of_nat m in
  0 < z / p /\
  (z / p * p = z -> shortest fuel v N k = (z / p, k, N)) /\
  (z / p * p <> z -> forall f, fuel = S f -> shortest fuel v N k = shortest f v N (k + 1)).
Proof.
  intros Hk HkN p.
  pose proof safe_digits as HN.
  pose proof (decimal_length z ltac:(lia)) as [Hlo Hhi]. fold N in Hlo, Hhi.
  assert (Hp : 0 < p) by (apply Z.pow_pos_nonneg; lia).
  assert (Hpz : p <= z).
  { subst p. etransitivity; [|exact Hlo]. apply Z.pow_le_mono_r; lia. }
  assert (Hq : 0 < z / p) by (apply Z.div_str_pos; lia).
  assert (Hdiv : z / p * p <= z < (z / p + 1) * p)
    by (pose proof (Z.mul_div_le z p Hp); pose proof (Z.mul_succ_div_gt z p Hp); lia).
  assert (Hpk : z / p < 10 ^ k).
  { apply Z.div_lt_upper_bound; [exact Hp|]. subst p.
    rewrite <- Z.pow_add_r by lia. replace (Z.of_nat m + k) with N by lia. exact Hhi. }
  assert (Hstep : shortest fuel v N k =
                  if z / p * p =? z then (z / p, k, N)
                  else match fuel with
                       | O => (z / p, k, N)
                       | S f => shortest f v N (k + 1)
                       end).
  { rewrite shortest_eq.
    replace (k - N) with (- Z.of_nat m) by lia.
    pose proof (leading_digits (Z.of_nat m) (Nat2Z.is_nonneg m)) as Hlead.
    destruct (scaled10 v.1 v.2 (- Z.of_nat m)) as [a b].
    cbv zeta. rewrite Hlead. fold p.
    rewrite !denotes_safe by lia.
    replace (N - k) with (Z.of_nat m) by lia. fold p.
    assert (Hhi' : ((z / p + 1) * p =? z) = false) by (apply Z.eqb_neq; lia).
    assert (Hk' : (z / p =? 10 ^ k) = false) by (apply Z.eqb_neq; lia).
    rewrite Hhi', andb_false_r, Hk'. reflexivity. }
  split; [exact Hq|]. split.
  - intros E. rewrite Hstep. apply Z.eqb_eq in E. rewrite E. reflexivity.
  - intros Hne f ->. rewrite Hstep. apply Z.eqb_neq in Hne. rewrite Hne. reflexivity.
Qed.

Lemma shortest_safe m : forall fuel k,
  (m <= fuel)%nat -> 1 <= k -> k + Z.of_nat m = N ->
  let '(s, k', n) := shortest fuel v N k in number_text s k' n = decimal z.
Proof.
  pose proof safe_digits as HN.
  assert (Htext : forall (j : nat) k, 1 <= k -> k + Z.of_nat j = N ->
            0 < z / 10 ^ Z.of_nat j -> z / 10 ^ Z.of_nat j * 10 ^ Z.of_nat j = z ->
            number_text (z / 10 ^ Z.of_nat j) k N = decimal z).
  { intros j k Hk HkN Hq E. unfold number_text.
    assert ((-6 <? N) && (N <=? 21) = true) as ->
      by (apply andb_true_iff; split; [apply Z.ltb_lt | apply Z.leb_le]; lia).
    assert ((k <=? N) = true) as -> by (apply Z.leb_le; lia).
    unfold zeros. replace (Z.to_nat (N - k)) with j by lia.
    rewrite <- decimal_pow10 by exact Hq. rewrite E. reflexivity. }
  induction m as [|m IH]; intros fuel k Hfuel Hk HkN.
  - destruct (shortest_step 0 fuel k Hk HkN) as (Hq & Hyes & _).
    assert (E : z / 10 ^ Z.of_nat 0 * 10 ^ Z.of_nat 0 = z).
    { change (10 ^ Z.of_nat 0) with 1. rewrite Z.div_1_r. lia. }
    rewrite (Hyes E). apply Htext; assumption.
  - destruct (shortest_step (S m) fuel k Hk HkN) as (Hq & Hyes & Hno).
    destruct (Z.eq_dec (z / 10 ^ Z.of_nat (S m) * 10 ^ Z.of_nat (S m)) z) as [E | Hne].
    + rewrite (Hyes E). apply Htext; assumption.
    + destruct fuel as [|fuel]; [lia|].
      rewrite (Hno Hne fuel eq_refl). apply IH; lia.
Qed.

Lemma String_of_ratio_safe negative :
  binary64 z 1 = Some v ->
  String_of_ratio negative z 1 = (if negative then [45%N] else []) ++ decimal z.
Proof.
  intros E. unfold String_of_ratio. rewrite E.
  destruct (Z.eqb_spec v.1 0) as [H0|_]; [nia|].
  rewrite magnitude_safe.
  pose proof safe_digits as HN.
  pose proof (shortest_safe (Z.to_nat (N - 1)) 20 1 ltac:(lia) ltac:(lia) ltac:(lia)) as H.
  destruct (shortest 20 v N 1) as [[s k] n]. rewrite H. reflexivity.
Qed.

End SafeInteger.

Lemma String_of_number_safe z :
  0 <= z < 2 ^ 53 -> String_of_number (Int z) = decimal z.
Proof.
  intros Hz. destruct (Z.eq_dec z 0) as [-> | Hne]; [reflexivity|].
  unfold String_of_number. rewrite Z.abs_eq by lia.
  destruct (binary64_safe z ltac:(lia)) as (v & E & Hv & Ev).
  rewrite (String_of_ratio_safe z v ltac:(lia) Hv Ev _ E).
  destruct (Z.ltb_spec z 0); [lia | reflexivity].
Qed.


(** *** parseInt *)

Lemma digit_not_whitespace c : is_digit c = true -> is_whitespace c = false.
Proof.
  intros Hc. apply is_digit_range in Hc.
  assert (Hcases : (c = 48 \/ c = 49 \/ c = 50 \/ c = 51 \/ c = 52 \/ c = 53 \/ c = 54
                    \/ c = 55 \/ c = 56 \/ c = 57)%N) by lia.
  destruct Hcases as [->|[->|[->|[->|[->|[->|[->|[->|[->| ->]]]]]]]]]; reflexivity.
Qed.

Lemma skip_whitespace_app ws rest :
  forallb is_whitespace ws = true ->
  skip_whitespace (ws ++ rest) = skip_whitespace rest.
Proof.
  induction ws as [|c ws IH]; intros H; cbn in *; [reflexivity|].
  apply andb_true_iff in H. destruct H as [-> H]. apply IH, H.
Qed.

Lemma parseInt10_string_trimmed s :
  parseInt10_string s = parseInt10_trimmed (skip_whitespace s).
Proof. reflexivity. Qed.

Lemma parseInt10_trimmed_digits d ds :
  is_digit d = true ->
  parseInt10_trimmed (d :: ds) = Number_of_integer (digits_value (d :: ds) 0).
Proof.
  intros Hd. apply is_digit_range in Hd.
  assert (Hcases : (d = 48 \/ d = 49 \/ d = 50 \/ d = 51 \/ d = 52 \/ d = 53 \/ d = 54
                    \/ d = 55 \/ d = 56 \/ d = 57)%N) by lia.
  unfold parseInt10_trimmed.
  destruct Hcases as [->|[->|[->|[->|[->|[->|[->|[->|[->| ->]]]]]]]]];
    cbn [starts_with_digit]; rewrite Z.mul_1_l; reflexivity.
Qed.

Lemma parseInt10_digits d ds tail :
  is_digit d = true ->
  parseInt10_string ((d :: ds) ++ tail)
  = Number_of_integer (digits_value ((d :: ds) ++ tail) 0).
Proof.
  intros Hd. rewrite parseInt10_string_trimmed. cbn [app skip_whitespace].
  rewrite (digit_not_whitespace d Hd). apply parseInt10_trimmed_digits, Hd.
Qed.

Lemma digits_value_stop tail acc : no_digit_ahead tail -> digits_value tail acc = acc.
Proof. destruct tail as [|c tail]; cbn; [reflexivity | intros ->; reflexivity]. Qed.

(* zeros, the digits of z, then something else: the digits write z *)
Lemma digits_value_numeral k z tail :
  0 <= z -> no_digit_ahead tail ->
  digits_value (repeat 48%N k ++ decimal z ++ tail) 0 = z.
Proof.
  intros Hz Htail. rewrite digits_value_zeros.
  rewrite digits_value_app by (apply decimal_digits, Hz).
  rewrite digits_value_decimal by exact Hz. apply digits_value_stop, Htail.
Qed.

Lemma numeral_head k z tail :
  0 <= z ->
  exists d ds, repeat 48%N k ++ decimal z ++ tail = d :: ds /\ is_digit d = true.
Proof.
  intros Hz. destruct k as [|k]; cbn [repeat app].
  - destruct (decimal_head z Hz) as (d & ds & -> & Hd & _). cbn [app]. eauto.
  - eauto.
Qed.

Lemma parseInt10_numeral ws k z tail :
  forallb is_whitespace ws = true -> 0 <= z -> no_digit_ahead tail ->
  parseInt10_string (ws ++ repeat 48%N k ++ decimal z ++ tail) = Number_of_integer z.
Proof.
  intros Hws Hz Htail. rewrite parseInt10_string_trimmed, skip_whitespace_app by exact Hws.
  destruct (numeral_head k z tail Hz) as (d & ds & E & Hd).
  rewrite <- (digits_value_numeral k z tail Hz Htail) at 2.
  rewrite E. cbn [skip_whitespace]. rewrite (digit_not_whitespace d Hd).
  apply parseInt10_trimmed_digits, Hd.
Qed.




Lemma parseInt10_decimal_safe z :
  0 <= z < 2 ^ 53 -> parseInt10_string (decimal z) = Int z.
Proof.
  intros Hz.
  pose proof (parseInt10_numeral [] 0 z [] eq_refl ltac:(lia) I) as H.
  cbn [repeat app] in H. rewrite app_nil_r in H. rewrite H.
  apply Number_of_integer_safe. lia.
Qed.

(** ** The SCRAM engine *)

Lemma PLAIN_is_not_PLUS : PLAIN <> PLUS.
Proof. discriminate. Qed.

(** C4 (as the code has it): with a transport, SCRAM-SHA-256-PLUS is
    selected when the server offers it and the transport can give a peer
    certificate, and startSession throws when it cannot; SCRAM-SHA-256 is
    selected when PLUS is not offered (gs2 header y) or there is no
    transport (header n); when no candidate is offered the error names the
    candidates.  The client-first message is
    gs2Header + ",,n=*,r=" + clientNonce. *)
Theorem startSession_selection mechanisms stream nonce :
  startSession mechanisms stream nonce =
    match stream with
    | Some st =>
        if bool_decide (PLUS ∈ mechanisms) then
          if has_getPeerCertificate st
          then Ok (client_first PLUS "p=tls-server-end-point" nonce)
          else Throw (Error (str "SASL: Mechanism SCRAM-SHA-256-PLUS requires a certificate"))
        else if bool_decide (PLAIN ∈ mechanisms)
        then Ok (client_first PLAIN "y" nonce)
        else Throw (Error (str "SASL: Only mechanism(s) SCRAM-SHA-256-PLUS and SCRAM-SHA-256 are supported"))
    | None =>
        if bool_decide (PLAIN ∈ mechanisms)
        then Ok (client_first PLAIN "n" nonce)
        else Throw (Error (str "SASL: Only mechanism(s) SCRAM-SHA-256 are supported"))
    end.
Proof.
  unfold startSession, includes.
  destruct stream as [st|]; cbn [find].
  - destruct (bool_decide (PLUS ∈ mechanisms)) eqn:Hp.
    + rewrite bool_decide_eq_true_2 by reflexivity. cbn [andb].
      destruct (has_getPeerCertificate st); reflexivity.
    + destruct (bool_decide (PLAIN ∈ mechanisms)) eqn:Hs; [|reflexivity].
      rewrite (bool_decide_eq_false_2 (PLAIN = PLUS)) by apply PLAIN_is_not_PLUS.
      reflexivity.
  - destruct (bool_decide (PLAIN ∈ mechanisms)) eqn:Hs; [|reflexivity].
    rewrite (bool_decide_eq_false_2 (PLAIN = PLUS)) by apply PLAIN_is_not_PLUS.
    reflexivity.
Qed.

(** C4 as stated fails: a transport is supplied and the server offers
    SCRAM-SHA-256-PLUS, yet PLUS is not selected, because the transport has
    no getPeerCertificate: startSession throws. *)
Lemma startSession_plus_needs_certificate :
  let mechanisms := [PLUS; PLAIN] in
  let transport := Some {| has_getPeerCertificate := false; peerCertificate_raw := [] |} in
  (is_Some transport /\ PLUS ∈ mechanisms) /\
  startSession mechanisms transport (str "bm9uY2U=") =
    Throw (Error (str "SASL: Mechanism SCRAM-SHA-256-PLUS requires a certificate")) /\
  ~ (exists s, startSession mechanisms transport (str "bm9uY2U=") = Ok s /\ mechanism s = PLUS).
Proof.
  cbv zeta. split; [split; [eauto | left] |].
  assert (E : startSession [PLUS; PLAIN]
                (Some {| has_getPeerCertificate := false; peerCertificate_raw := [] |})
                (str "bm9uY2U=")
              = Throw (Error (str "SASL: Mechanism SCRAM-SHA-256-PLUS requires a certificate")))
    by (vm_compute; reflexivity).
  split; [exact E|]. intros [s [Hs _]]. rewrite E in Hs. discriminate.
Qed.

Example startSession_without_transport :
  startSession [PLUS; PLAIN] None (str "bm9uY2U=")
  = Ok (client_first PLAIN "n" (str "bm9uY2U=")).
Proof. vm_compute. reflexivity. Qed.

(** *** The server-first message *)

Lemma startsWith_prefix s p : startsWith s p = true <-> exists ext, s = p ++ ext.
Proof.
  revert s. induction p as [|c p IH]; intros s; simpl.
  - split; [intros _; exists s; reflexivity | intros _; destruct s; reflexivity].
  - destruct s as [|d s]; simpl.
    + split; [discriminate | intros [ext H]; discriminate].
    + rewrite andb_true_iff, N.eqb_eq, IH. split.
      * intros [-> [ext ->]]. exists ext. reflexivity.
      * intros [ext H]. injection H as -> ->. eauto.
Qed.

Lemma nonce_check (n cn : jsstring) :
  ~ strictly_extends n cn ->
  startsWith n cn = false \/ (length n =? length cn)%nat = true.
Proof.
  intros H. destruct (startsWith n cn) eqn:E; [right | left; reflexivity].
  apply startsWith_prefix in E. destruct E as [ext ->].
  destruct ext as [|c ext].
  - rewrite app_nil_r. apply Nat.eqb_refl.
  - exfalso. apply H. exists (c :: ext). split; [discriminate | reflexivity].
Qed.

Lemma iteration_syntax_spec s : iteration_syntax s = true <-> positive_decimal s.
Proof.
  unfold iteration_syntax, positive_decimal. destruct s as [|d ds].
  - split; [discriminate | intros (? & ? & ? & _); discriminate].
  - rewrite !andb_true_iff, forallb_forall, !N.leb_le. split.
    + intros [[H1 H2] H3]. exists d, ds. split; [reflexivity|]. split; [lia|].
      apply List.Forall_forall. intros c Hc. specialize (H3 c Hc).
      unfold is_digit in H3. rewrite andb_true_iff, !N.leb_le in H3. lia.
    + intros (d' & ds' & E & Hd & Hds). injection E as <- <-.
      split; [lia|]. intros c Hc.
      rewrite List.Forall_forall in Hds. specialize (Hds c Hc).
      unfold is_digit. rewrite andb_true_iff, !N.leb_le. lia.
Qed.

Lemma parseInt10_positive_decimal s :
  positive_decimal s ->
  (exists n, parseInt10_string s = Int n /\ 0 < n) \/
  parseInt10_string s = Infinity false.
Proof.
  intros Hs. apply positive_decimal_digits in Hs.
  destruct Hs as (d & ds & -> & Hd & Hds).
  destruct (decimal_digits_value ds d Hd Hds) as [Hpos _].
  pose proof (parseInt10_digits d ds []) as E. rewrite app_nil_r in E.
  rewrite E by (apply is_digit_range; lia).
  apply Number_of_integer_positive, Hpos.
Qed.

Lemma continueSession_nonce f1 f2 f3 f4 f5 f6 f7 session password serverData stream sv :
  parseServerFirstMessage serverData = Ok sv ->
  ~ strictly_extends (nonce sv) (clientNonce session) ->
  throws (continueSession f1 f2 f3 f4 f5 f6 f7 session password serverData stream).
Proof.
  intros Hparse Hnonce. unfold continueSession, throws.
  destruct (negb (bool_decide (message session = str "SASLInitialResponse")));
    [eauto|].
  destruct password; eauto.
  destruct (bool_decide (s = [])); [eauto|].
  destruct (negb (is_string serverData)); [eauto|].
  rewrite Hparse. cbn [rbind].
  destruct (nonce_check _ _ Hnonce) as [-> | E]; cbn [negb]; [eauto|].
  destruct (negb (startsWith (nonce sv) (clientNonce session))); [eauto|].
  rewrite E. eauto.
Qed.

Lemma parseServerFirstMessage_iteration data attrs :
  parseAttributePairs data = Ok attrs ->
  ~ (exists it, attrs !! str "i" = Some it /\ positive_decimal it) ->
  throws (parseServerFirstMessage data).
Proof.
  intros Hattrs Hit. unfold parseServerFirstMessage, throws.
  rewrite Hattrs. cbn [rbind].
  destruct (get_nonempty attrs (str "r")) as [n|]; [|eauto].
  cbn [isPrintableChars rbind].
  destruct (negb (forallb printable n)); [eauto|].
  destruct (get_nonempty attrs (str "s")) as [s|]; [|eauto].
  destruct (negb (isBase64 s)); [eauto|].
  destruct (get_nonempty attrs (str "i")) as [it|] eqn:Ei; [|eauto].
  destruct (iteration_syntax it) eqn:Es; cbn [negb]; [|eauto].
  exfalso. apply Hit. exists it. split; [|apply iteration_syntax_spec; exact Es].
  unfold get_nonempty in Ei.
  destruct (attrs !! str "i") as [[|c r]|]; congruence.
Qed.

Lemma parseServerFirstMessage_accepts data sv :
  parseServerFirstMessage data = Ok sv ->
  (exists n, iteration sv = Int n /\ 0 < n) \/ iteration sv = Infinity false.
Proof.
  unfold parseServerFirstMessage.
  destruct (parseAttributePairs data) as [attrs|]; cbn [rbind]; [|discriminate].
  destruct (get_nonempty attrs (str "r")) as [n|]; [|discriminate].
  cbn [isPrintableChars rbind].
  destruct (negb (forallb printable n)); [discriminate|].
  destruct (get_nonempty attrs (str "s")) as [s|]; [|discriminate].
  destruct (negb (isBase64 s)); [discriminate|].
  destruct (get_nonempty attrs (str "i")) as [it|] eqn:Ei; [|discriminate].
  destruct (iteration_syntax it) eqn:Es; cbn [negb]; [|discriminate].
  intros [= <-]. cbn [iteration].
  apply parseInt10_positive_decimal, iteration_syntax_spec, Es.
Qed.

Lemma strictly_extends_iff s p :
  strictly_extends s p <-> (exists ext, s = p ++ ext) /\ length s <> length p.
Proof.
  split.
  - intros (ext & Hne & ->). split; [eauto|].
    rewrite length_app. destruct ext; [congruence | simpl; lia].
  - intros [[ext ->] Hlen]. exists ext. split; [|reflexivity].
    intros ->. apply Hlen. rewrite app_nil_r. reflexivity.
Qed.

(** C5: continueSession rejects every server-first message whose nonce
    does not start with the client nonce or has the length of the client
    nonce, that is, whose nonce does not strictly extend the client nonce,
    whatever the password and the hash functions; parseServerFirstMessage
    rejects every message whose iteration attribute is not a decimal integer
    with a nonzero leading digit, so that an accepted iteration count is a
    positive integer, or Infinity when its digits write a number past the
    finite Numbers. *)
Theorem scram_rejections :
  (forall f1 f2 f3 f4 f5 f6 f7 session password serverData stream sv,
     parseServerFirstMessage serverData = Ok sv ->
     ~ (exists ext, nonce sv = clientNonce session ++ ext)
     \/ length (nonce sv) = length (clientNonce session) ->
     throws (continueSession f1 f2 f3 f4 f5 f6 f7 session password serverData stream)) /\
  (forall f1 f2 f3 f4 f5 f6 f7 session password serverData stream sv,
     parseServerFirstMessage serverData = Ok sv ->
     ~ strictly_extends (nonce sv) (clientNonce session) ->
     throws (continueSession f1 f2 f3 f4 f5 f6 f7 session password serverData stream)) /\
  (forall data attrs,
     parseAttributePairs data = Ok attrs ->
     ~ (exists it, attrs !! str "i" = Some it /\ positive_decimal it) ->
     throws (parseServerFirstMessage data)) /\
  (forall data sv,
     parseServerFirstMessage data = Ok sv ->
     (exists n, iteration sv = Int n /\ 0 < n) \/ iteration sv = Infinity false).
Proof.
  repeat apply conj.
  - intros f1 f2 f3 f4 f5 f6 f7 session password serverData stream sv Hparse Hbad.
    eapply continueSession_nonce; [exact Hparse|].
    rewrite strictly_extends_iff. intros [Hpre Hlen].
    destruct Hbad as [Hbad | Hbad]; [exact (Hbad Hpre) | exact (Hlen Hbad)].
  - intros. eapply continueSession_nonce; eassumption.
  - intros. eapply parseServerFirstMessage_iteration; eassumption.
  - intros. eapply parseServerFirstMessage_accepts; eassumption.
Qed.

(* the server repeats the client nonce and adds nothing *)
Lemma scram_rejections_witness :
  throws (continueSession (fun _ => Ok []) (fun _ b => Ok b) (fun _ b _ => Ok b)
            (fun b _ => Ok b) (fun b => Ok b) (fun _ => []) (fun _ => [])
            (client_first PLAIN "n" (str "abcdef")) (VString (str "pencil"))
            (VString (str "r=abcdef,s=QUJDRA==,i=4096")) None).
Proof.
  apply (proj1 scram_rejections) with
    (sv := {| nonce := str "abcdef"; salt := str "QUJDRA=="; iteration := Int 4096 |}).
  - vm_compute. reflexivity.
  - right. reflexivity.
Defined.

Example iteration_zero :
  parseServerFirstMessage (VString (str "r=abcdef,s=QUJD,i=0"))
  = Throw (Error (str "SASL: SCRAM-SERVER-FIRST-MESSAGE: invalid iteration count")).
Proof. vm_compute. reflexivity. Qed.

Example iteration_negative :
  parseServerFirstMessage (VString (str "r=abcdef,s=QUJD,i=-4096"))
  = Throw (Error (str "SASL: SCRAM-SERVER-FIRST-MESSAGE: invalid iteration count")).
Proof. vm_compute. reflexivity. Qed.

Example iteration_not_numeric :
  parseServerFirstMessage (VString (str "r=abcdef,s=QUJD,i=many"))
  = Throw (Error (str "SASL: SCRAM-SERVER-FIRST-MESSAGE: invalid iteration count")).
Proof. vm_compute. reflexivity. Qed.

Example iteration_4096 :
  parseServerFirstMessage (VString (str "r=abcdef,s=QUJDRA==,i=4096"))
  = Ok {| nonce := str "abcdef"; salt := str "QUJDRA=="; iteration := Int 4096 |}.
Proof. vm_compute. reflexivity. Qed.

(** *** The parsers at some inputs *)

Example split_keeps_empty_fields :
  split_comma (str "r=ab,,i=1,") = [str "r=ab"; []; str "i=1"; []].
Proof. vm_compute. reflexivity. Qed.

Example later_attribute_wins :
  parseAttributePairs (VString (str "i=0,i=4096"))
  = Ok (<[str "i" := str "4096"]> ∅).
Proof. vm_compute. reflexivity. Qed.

Example attribute_needs_equals :
  parseAttributePairs (VString (str "r=abc,salt"))
  = Throw (Error (str "SASL: Invalid attribute pair entry")).
Proof. vm_compute. reflexivity. Qed.

Example base64_accepted :
  map isBase64 [[]; str "QUJD"; str "QUI="; str "QQ=="; str "QUJDRA=="]
  = [true; true; true; true; true].
Proof. vm_compute. reflexivity. Qed.

Example base64_rejected :
  map isBase64 [str "QUJ"; str "Q==="; str "QU=D"; str "===="; str "QUI=QUJD"; str "QU-D"]
  = [false; false; false; false; false; false].
Proof. vm_compute. reflexivity. Qed.

Example parseInt10_examples :
  map parseInt10_string [str "  -12px"; str "+7"; []; str "0x10"; str "4096"; str "-"]
  = [Int (-12); Int 7; NaN; Int 0; Int 4096; NaN].
Proof. vm_compute. reflexivity. Qed.

(** *** xorBuffers *)

Lemma xor_byte_involutive x y :
  is_byte x -> (Z.lxor ((Z.lxor x y) mod 256) y) mod 256 = x.
Proof.
  intros Hx. change 256 with (2 ^ 8).
  apply Z.bits_inj'. intros n Hn.
  destruct (Z.lt_ge_cases n 8) as [Hlt | Hge].
  - rewrite Z.mod_pow2_bits_low by lia.
    rewrite Z.lxor_spec.
    rewrite Z.mod_pow2_bits_low by lia.
    rewrite Z.lxor_spec.
    destruct (Z.testbit x n), (Z.testbit y n); reflexivity.
  - rewrite Z.mod_pow2_bits_high by lia.
    symmetry. apply (Z.bits_above_log2 x n); [unfold is_byte in Hx; lia|].
    unfold is_byte in Hx.
    destruct (Z.eq_dec x 0) as [->|Hne]; [simpl; lia|].
    assert (Z.log2 x < 8) by (apply Z.log2_lt_pow2; lia). lia.
Qed.

Lemma xor_bytes_length a b :
  length a = length b -> length (xor_bytes a b) = length a.
Proof.
  revert b. induction a as [|x a IH]; intros [|y b] H; simpl in *; try lia.
  f_equal. apply IH. lia.
Qed.

Lemma xor_bytes_involutive a b :
  length a = length b -> Forall is_byte a -> xor_bytes (xor_bytes a b) b = a.
Proof.
  revert b. induction a as [|x a IH]; intros [|y b] Hlen Hbytes; simpl in *;
    try reflexivity; try discriminate.
  inversion Hbytes; subst.
  rewrite xor_byte_involutive by assumption.
  f_equal. apply IH; [lia | assumption].
Qed.

Lemma xorBuffers_ok a b :
  a <> [] -> length a = length b ->
  xorBuffers (Buffer a) (Buffer b) = Ok (xor_bytes a b).
Proof.
  intros Hne Hlen. unfold xorBuffers.
  rewrite Hlen, Nat.eqb_refl. cbn [negb].
  destruct b; [destruct a; [congruence | discriminate] | reflexivity].
Qed.

(** C6: for buffers a and b of the same non-zero length, xorBuffers(a, b)
    succeeds and XORing its result with b gives a back, byte by byte: the
    ClientProof XORed with the ClientSignature is the ClientKey. *)
Theorem xorBuffers_round_trip a b :
  a <> [] -> length a = length b -> Forall is_byte a ->
  exists proof,
    xorBuffers (Buffer a) (Buffer b) = Ok proof /\
    xorBuffers (Buffer proof) (Buffer b) = Ok a.
Proof.
  intros Hne Hlen Hbytes.
  exists (xor_bytes a b). split; [apply xorBuffers_ok; assumption|].
  rewrite xorBuffers_ok.
  - rewrite xor_bytes_involutive by assumption. reflexivity.
  - intros E. apply Hne. apply (f_equal (@length Z)) in E.
    rewrite xor_bytes_length in E by assumption.
    destruct a; [reflexivity | discriminate].
  - rewrite xor_bytes_length by assumption. assumption.
Qed.

Lemma xorBuffers_round_trip_witness :
  exists proof,
    xorBuffers (Buffer [202; 254; 0; 255]) (Buffer [18; 52; 86; 120]) = Ok proof /\
    xorBuffers (Buffer proof) (Buffer [18; 52; 86; 120]) = Ok [202; 254; 0; 255].
Proof.
  apply xorBuffers_round_trip.
  - discriminate.
  - reflexivity.
  - repeat constructor; unfold is_byte; lia.
Defined.

Example xorBuffers_empty :
  xorBuffers (Buffer []) (Buffer []) = Throw (Error (str "Buffers cannot be empty")).
Proof. reflexivity. Qed.

(** *** The password guard *)

Lemma continueSession_guard f1 f2 f3 f4 f5 f6 f7 session password serverData stream :
  ~ usable_password password ->
  continueSession f1 f2 f3 f4 f5 f6 f7 session password serverData stream =
    if negb (bool_decide (message session = str "SASLInitialResponse"))
    then Throw (Error (str "SASL: Last message was not SASLInitialResponse"))
    else if is_string password
    then Throw (Error (str "SASL: SCRAM-SERVER-FIRST-MESSAGE: client password must be a non-empty string"))
    else Throw (Error (str "SASL: SCRAM-SERVER-FIRST-MESSAGE: client password must be a string")).
Proof.
  intros Hpw. unfold continueSession.
  destruct (negb (bool_decide (message session = str "SASLInitialResponse")));
    [reflexivity|].
  destruct password; try reflexivity. cbn [is_string].
  destruct (bool_decide (s = [])) eqn:E; [reflexivity|].
  exfalso. apply Hpw. exists s. split; [reflexivity|].
  apply bool_decide_eq_false_1 in E. exact E.
Qed.

(** ** The startup parameters *)



Example startup_defaults :
  getStartupConf (fun _ => []) example_params
  = [("user"%string, VString (str "alice")); ("database"%string, VString (str "app"))].
Proof. reflexivity. Qed.

Example startup_all_set :
  getStartupConf (fun _ => [])
    {| user := VString (str "alice"); database := VString (str "app");
       application_name := VString []; fallback_application_name := VString (str "psql");
       replication := VBool true; statement_timeout := VNumber (Int 5000);
       lock_timeout := VString (str "250ms"); idle_in_transaction_session_timeout := VNumber (Int 0);
       options := VString (str "-c geqo=off"); query_timeout := VUndefined |}
  = [("user"%string, VString (str "alice")); ("database"%string, VString (str "app"));
     ("application_name"%string, VString (str "psql"));
     ("replication"%string, VString (str "true"));
     ("statement_timeout"%string, VString (str "5000"));
     ("lock_timeout"%string, VString (str "250"));
     ("options"%string, VString (str "-c geqo=off"))].
Proof. vm_compute. reflexivity. Qed.

Example startup_timeout_text :
  String_parseInt (fun _ => []) (VString (str "5000ms")) = VString (str "5000").
Proof. vm_compute. reflexivity. Qed.

Example startup_timeout_number :
  String_parseInt (fun _ => []) (VNumber (Int 30000)) = VString (str "30000").
Proof. vm_compute. reflexivity. Qed.

Example startup_timeout_not_numeric :
  String_parseInt (fun _ => []) (VString (str "soon")) = VString (str "NaN").
Proof. vm_compute. reflexivity. Qed.

(* past 2^53 parseInt rounds to the nearest Number *)
Example startup_timeout_rounded :
  String_parseInt (fun _ => []) (VString (str "9007199254740993"))
  = VString (str "9007199254740992").
Proof. vm_compute. reflexivity. Qed.

(* from 10^21 on String writes an exponent, and parseInt stops at it *)
Example startup_timeout_exponent :
  ToString (fun _ => []) (VNumber (Int (10 ^ 21))) = str "1e+21" /\
  String_parseInt (fun _ => []) (VNumber (Int (10 ^ 21))) = VString (str "1").
Proof. split; vm_compute; reflexivity. Qed.

Example startup_timeout_fraction :
  ToString (fun _ => []) (VNumber (Frac 3 2)) = str "1.5" /\
  String_parseInt (fun _ => []) (VNumber (Frac 3 2)) = VString (str "1").
Proof. split; vm_compute; reflexivity. Qed.

Example startup_timeout_infinite :
  String_parseInt (fun _ => []) (VNumber (Infinity false)) = VString (str "NaN").
Proof. vm_compute. reflexivity. Qed.

Example startup_timeout_with_unit :
  integer_text (str " 0250ms") (str "250").
Proof.
  exact (integer_text_digits (str " ") 1 250 (str "ms") eq_refl
           ltac:(split; [discriminate | reflexivity]) eq_refl).
Qed.

(** *** Numbers at some inputs *)

Example String_of_number_examples :
  map String_of_number
    [Int 0; Int (-42); Int (2 ^ 53); Int (2 ^ 53 + 2); Int (2 ^ 64); Int (10 ^ 21);
     Int (2 ^ 70); Int (10 ^ 23); Int (10 ^ 400); Frac 1 10; Frac 1 3; Frac (-3) 2;
     Frac 1 (10 ^ 6); Frac 1 (10 ^ 7); Frac 5 (10 ^ 324); Frac 1 (10 ^ 400); NaN]
  = map str
    ["0"; "-42"; "9007199254740992"; "9007199254740994"; "18446744073709552000";
     "1e+21"; "1.1805916207174113e+21"; "1e+23"; "Infinity"; "0.1";
     "0.3333333333333333"; "-1.5"; "0.000001"; "1e-7"; "5e-324"; "0"; "NaN"]%string.
Proof. vm_compute. reflexivity. Qed.

Example parseInt10_rounds :
  map parseInt10_string
    [str "9007199254740993"; str "-9007199254740995"; str "18446744073709551617"]
  = [Int 9007199254740992; Int (-9007199254740996); Int 18446744073709551616].
Proof. vm_compute. reflexivity. Qed.

(** ** The SCRAM engine, further properties *)

(* case analysis on whether a code unit is "=" (61), bit by bit, as the
   pattern matching of isBase64_fuel does it *)
Ltac is_pad c t :=
  destruct c as [|c]; [t|];
  destruct c as [c|c|]; [|t|t];
  destruct c as [c|c|]; [t| |t];
  destruct c as [c|c|]; [|t|t];
  destruct c as [c|c|]; [|t|t];
  destruct c as [c|c|]; [|t|t];
  destruct c as [c|c|]; [t|t|].

Lemma isBase64_fuel_eq fuel a b c d rest :
  isBase64_fuel fuel (a :: b :: c :: d :: rest) =
    if bool_decide (rest = []) && (d =? 61)%N then
      if (c =? 61)%N then base64_char a && base64_char b
      else base64_char a && base64_char b && base64_char c
    else
      base64_char a && base64_char b && base64_char c && base64_char d
      && match fuel with
         | O => false
         | S f => isBase64_fuel f rest
         end.
Proof.
  assert (F : forall x, base64_char 61 && x = false) by reflexivity.
  destruct rest as [|r rest];
    is_pad d ltac:(is_pad c ltac:(destruct fuel; cbn; rewrite ?andb_false_r; reflexivity);
                   destruct fuel; cbn; rewrite ?andb_false_r; reflexivity);
    is_pad c ltac:(destruct fuel; cbn; rewrite ?andb_false_r; reflexivity);
    destruct fuel; cbn; rewrite ?andb_false_r; reflexivity.
Qed.

Lemma isBase64_fuel_short fuel s :
  (length s < 4)%nat -> isBase64_fuel fuel s = bool_decide (s = []).
Proof.
  destruct s as [|a [|b [|c [|d rest]]]]; cbn [length]; intros H; try lia;
    try (destruct fuel; reflexivity).
  is_pad c ltac:(destruct fuel; reflexivity). destruct fuel; reflexivity.
Qed.

Lemma isBase64_fuel_spec fuel : forall s,
  (length s < 4 * S fuel)%nat -> (isBase64_fuel fuel s = true <-> Base64 s).
Proof.
  induction fuel as [|fuel IH]; intros s Hlen.
  - rewrite isBase64_fuel_short by lia. rewrite bool_decide_eq_true. split.
    + intros ->. constructor.
    + intros H. destruct H; [reflexivity | | |]; cbn in Hlen; lia.
  - destruct s as [|a [|b [|c [|d rest]]]];
      try (rewrite isBase64_fuel_short by (cbn; lia); rewrite bool_decide_eq_true;
           split; [discriminate | intros H; inversion H]).
    + split; [constructor | reflexivity].
    + rewrite isBase64_fuel_eq.
      destruct (bool_decide (rest = [])) eqn:Er; cbn [andb].
      * apply bool_decide_eq_true_1 in Er. subst rest.
        destruct (N.eqb_spec d 61) as [->|Hd].
        -- destruct (N.eqb_spec c 61) as [->|Hc].
           ++ rewrite andb_true_iff. split.
              ** intros [? ?]. constructor; assumption.
              ** intros H. inversion H; subst; try discriminate; auto.
           ++ rewrite !andb_true_iff. split.
              ** intros [[? ?] ?]. constructor; assumption.
              ** intros H. inversion H; subst; try discriminate; try congruence; auto.
        -- rewrite !andb_true_iff. split.
           ++ intros [[[[? ?] ?] ?] _]. constructor; try assumption. constructor.
           ++ intros H. inversion H; subst; try congruence.
              repeat split; try assumption. destruct fuel; reflexivity.
      * apply bool_decide_eq_false_1 in Er.
        rewrite !andb_true_iff, IH by (cbn in Hlen; lia). split.
        -- intros [[[[? ?] ?] ?] ?]. constructor; assumption.
        -- intros H. inversion H; subst; try congruence. auto.
Qed.

Lemma isBase64_spec s : isBase64 s = true <-> Base64 s.
Proof. unfold isBase64. apply isBase64_fuel_spec. lia. Qed.

Lemma Base64_length s : Base64 s -> (length s mod 4 = 0)%nat.
Proof.
  induction 1; try reflexivity.
  change (length (a :: b :: c :: d :: rest)) with (4 + length rest)%nat.
  rewrite <- Nat.Div0.add_mod_idemp_r, IHBase64. reflexivity.
Qed.

Lemma b64_digit_char k : 0 <= k < 64 -> base64_char (b64_digit k) = true.
Proof.
  intros Hk. unfold b64_digit, base64_char.
  repeat match goal with
         | |- context [?a <? ?b] => destruct (Z.ltb_spec a b)
         | |- context [?a =? ?b] => destruct (Z.eqb_spec a b)
         end;
    repeat match goal with
           | |- context [(?a <=? ?b)%N] => destruct (N.leb_spec a b)
           | |- context [(?a =? ?b)%N] => destruct (N.eqb_spec a b)
           end; cbn; try reflexivity; lia.
Qed.

Lemma b64_Base64_bounded n : forall b,
  (length b < n)%nat -> Forall is_byte b -> Base64 (b64 b).
Proof.
  unfold is_byte.
  induction n as [|n IH]; intros b Hlen Hb; [lia|].
  destruct b as [|x [|y [|z rest]]]; cbn [b64].
  - constructor.
  - inversion_clear Hb.
    constructor; apply b64_digit_char; Z.div_mod_to_equations; lia.
  - inversion_clear Hb as [|? ? ? Hb']. inversion_clear Hb'.
    constructor; apply b64_digit_char; Z.div_mod_to_equations; lia.
  - inversion_clear Hb as [|? ? ? Hb1]. inversion_clear Hb1 as [|? ? ? Hb2].
    inversion_clear Hb2 as [|? ? ? Hb3].
    constructor; try (apply b64_digit_char; Z.div_mod_to_equations; lia).
    apply IH; [cbn in Hlen; lia | assumption].
Qed.

(** X1: isBase64 accepts exactly the strings of the regular expression:
    groups of four base64 characters, then at most one group padded with
    one or two "="; so it accepts the base64 encoding of every buffer, and
    whatever it accepts has a length that is a multiple of four. *)
Theorem isBase64_language :
  (forall s, isBase64 s = true <-> Base64 s) /\
  (forall b, Forall is_byte b -> isBase64 (b64 b) = true) /\
  (forall s, isBase64 s = true -> (length s mod 4 = 0)%nat).
Proof.
  repeat apply conj.
  - apply isBase64_spec.
  - intros b Hb. apply isBase64_spec, (b64_Base64_bounded (S (length b))); [lia | exact Hb].
  - intros s Hs. apply Base64_length, isBase64_spec, Hs.
Qed.

Lemma isBase64_language_witness :
  isBase64 (b64 [110; 44; 44; 0; 255]) = true /\ (length (str "QUJDRA==") mod 4 = 0)%nat.
Proof.
  split.
  - apply (proj1 (proj2 isBase64_language)).
    repeat constructor; unfold is_byte; lia.
  - apply (proj2 (proj2 isBase64_language)). vm_compute. reflexivity.
Defined.

Lemma get_nonempty_Some (attrs : gmap jsstring jsstring) k v :
  get_nonempty attrs k = Some v <-> attrs !! k = Some v /\ v <> [].
Proof.
  unfold get_nonempty. destruct (attrs !! k) as [[|c r]|]; split;
    try (intros [? ?]); try discriminate; try congruence; auto.
  intros [= <-]. split; [reflexivity | discriminate].
Qed.

Lemma get_nonempty_None (attrs : gmap jsstring jsstring) k :
  get_nonempty attrs k = None <-> attrs !! k = None \/ attrs !! k = Some [].
Proof.
  unfold get_nonempty. destruct (attrs !! k) as [[|c r]|]; split; auto;
    try discriminate; intros [?|?]; discriminate.
Qed.

(** X2: finalizeSession accepts a server-final message exactly when the
    session is in the phase after continueSession, the message is a string
    of attributes without a (non-empty) e attribute, and its v attribute is
    non-empty base64 and equal to the server signature the session expects;
    a non-empty e attribute is reported as the server's error even when a
    matching v is there. *)
Theorem finalizeSession_accepts session serverData :
  (finalizeSession session serverData = Ok tt <->
   message session = str "SASLResponse" /\
   exists attrs signature,
     is_string serverData = true /\
     parseAttributePairs serverData = Ok attrs /\
     (attrs !! str "e" = None \/ attrs !! str "e" = Some []) /\
     attrs !! str "v" = Some signature /\ signature <> [] /\ Base64 signature /\
     serverSignature session = Some signature) /\
  (forall attrs e,
     message session = str "SASLResponse" ->
     is_string serverData = true ->
     parseAttributePairs serverData = Ok attrs ->
     attrs !! str "e" = Some e -> e <> [] ->
     finalizeSession session serverData =
       Throw (Error (str "SASL: SCRAM-SERVER-FINAL-MESSAGE: server returned error: "
                     ++ [34%N] ++ e ++ [34%N]))).
Proof.
  split.
  - unfold finalizeSession, parseServerFinalMessage.
    destruct (bool_decide (message session = str "SASLResponse")) eqn:Em; cbn [negb].
    2:{ apply bool_decide_eq_false_1 in Em. split; [discriminate | tauto]. }
    apply bool_decide_eq_true_1 in Em.
    destruct (is_string serverData) eqn:Es; cbn [negb].
    2:{ split; [discriminate | intros (_ & ? & ? & ? & _); discriminate]. }
    destruct (parseAttributePairs serverData) as [attrs|err] eqn:Ep; cbn [rbind].
    2:{ split; [discriminate | intros (_ & ? & ? & _ & ? & _); discriminate]. }
    destruct (get_nonempty attrs (str "e")) as [e|] eqn:Ee.
    { apply get_nonempty_Some in Ee. destruct Ee as [Ee Hne].
      split; [discriminate|].
      intros (_ & attrs' & sig & _ & Heq & [He | He] & _); injection Heq as <-;
        pose proof (eq_trans (eq_sym Ee) He) as Hc;
        [discriminate Hc | injection Hc as ->; destruct (Hne eq_refl)]. }
    apply get_nonempty_None in Ee.
    destruct (get_nonempty attrs (str "v")) as [sig|] eqn:Ev.
    2:{ apply get_nonempty_None in Ev. split; [discriminate|].
        intros (_ & attrs' & sig & _ & [= <-] & _ & Hv & Hne & _).
        destruct Ev as [Ev | Ev]; pose proof (eq_trans (eq_sym Hv) Ev) as Hc;
          [discriminate Hc | injection Hc as ->; destruct (Hne eq_refl)]. }
    apply get_nonempty_Some in Ev. destruct Ev as [Ev Hne].
    destruct (isBase64 sig) eqn:Eb; cbn [negb rbind].
    2:{ split; [discriminate|].
        intros (_ & attrs' & sig' & _ & [= <-] & _ & Hv & _ & Hb & _).
        pose proof (eq_trans (eq_sym Ev) Hv) as Hc. injection Hc as <-.
        apply isBase64_spec in Hb. rewrite Hb in Eb. discriminate Eb. }
    apply isBase64_spec in Eb.
    destruct (bool_decide (Some sig = serverSignature session)) eqn:Eq; cbn [negb].
    + apply bool_decide_eq_true_1 in Eq. split; [intros _ | reflexivity].
      split; [exact Em|]. exists attrs, sig. auto 10.
    + apply bool_decide_eq_false_1 in Eq. split; [discriminate|].
      intros (_ & attrs' & sig' & _ & [= <-] & _ & Hv & _ & _ & Hs).
      pose proof (eq_trans (eq_sym Ev) Hv) as Hc. injection Hc as <-.
      destruct Eq. symmetry. exact Hs.
  - intros attrs e Hm Hs Hp He Hne. unfold finalizeSession, parseServerFinalMessage.
    rewrite bool_decide_eq_true_2 by exact Hm. rewrite Hs, Hp. cbn [negb rbind].
    assert (get_nonempty attrs (str "e") = Some e) as ->
      by (apply get_nonempty_Some; auto).
    reflexivity.
Qed.

Lemma finalizeSession_accepts_witness :
  let session :=
    {| mechanism := PLAIN; clientNonce := str "abcdef"; response := str "c=biws";
       message := str "SASLResponse"; serverSignature := Some (str "QUJDRA==") |} in
  finalizeSession session (VString (str "v=QUJDRA==")) = Ok tt /\
  finalizeSession session (VString (str "e=other-error,v=QUJDRA=="))
  = Throw (Error (str "SASL: SCRAM-SERVER-FINAL-MESSAGE: server returned error: "
                  ++ [34%N] ++ str "other-error" ++ [34%N])).
Proof.
  intros session. split.
  - apply (proj1 (finalizeSession_accepts session _)).
    split; [reflexivity|].
    exists (<[str "v" := str "QUJDRA=="]> ∅), (str "QUJDRA==").
    repeat apply conj; try (vm_compute; reflexivity).
    + left. vm_compute. reflexivity.
    + vm_compute. discriminate.
    + apply isBase64_spec. vm_compute. reflexivity.
  - eapply (proj2 (finalizeSession_accepts session _)).
    + reflexivity.
    + reflexivity.
    + vm_compute. reflexivity.
    + vm_compute. reflexivity.
    + vm_compute. discriminate.
Defined.

(** X3: parseServerFirstMessage accepts a message exactly when it is a
    string of attribute pairs whose r attribute is non-empty and printable,
    whose s attribute is non-empty base64 and whose i attribute is a decimal
    integer with a nonzero leading digit; the result carries the r and s
    attributes verbatim and the parsed iteration count, which is the
    integer the digits write when that is below 2^53, and the Number
    nearest to it in any case. *)
Theorem parseServerFirstMessage_wellformed data sv :
  parseServerFirstMessage data = Ok sv <->
  exists attrs it,
    parseAttributePairs data = Ok attrs /\
    attrs !! str "r" = Some (nonce sv) /\ nonce sv <> [] /\
    forallb printable (nonce sv) = true /\
    attrs !! str "s" = Some (salt sv) /\ salt sv <> [] /\ Base64 (salt sv) /\
    attrs !! str "i" = Some it /\ positive_decimal it /\
    iteration sv = parseInt10_string it /\
    (forall z, 0 <= z < 2 ^ 53 -> it = decimal z -> iteration sv = Int z).
Proof.
  unfold parseServerFirstMessage.
  destruct (parseAttributePairs data) as [attrs|err] eqn:Ep; cbn [rbind].
  2:{ split; [discriminate | intros (? & ? & ? & _); discriminate]. }
  destruct (get_nonempty attrs (str "r")) as [n|] eqn:Er.
  2:{ apply get_nonempty_None in Er. split; [discriminate|].
      intros (attrs' & it & [= <-] & Hr & Hne & _).
      destruct Er as [Er | Er]; pose proof (eq_trans (eq_sym Hr) Er) as Hc;
        [discriminate Hc | injection Hc as Hc; destruct (Hne Hc)]. }
  apply get_nonempty_Some in Er. destruct Er as [Er Hn].
  cbn [isPrintableChars rbind].
  destruct (forallb printable n) eqn:Epr; cbn [negb].
  2:{ split; [discriminate|].
      intros (attrs' & it & [= <-] & Hr & _ & Hp & _).
      pose proof (eq_trans (eq_sym Er) Hr) as Hc. injection Hc as Hc.
      rewrite <- Hc, Epr in Hp. discriminate Hp. }
  destruct (get_nonempty attrs (str "s")) as [s|] eqn:Es.
  2:{ apply get_nonempty_None in Es. split; [discriminate|].
      intros (attrs' & it & [= <-] & _ & _ & _ & Hs & Hne & _).
      destruct Es as [Es | Es]; pose proof (eq_trans (eq_sym Hs) Es) as Hc;
        [discriminate Hc | injection Hc as Hc; destruct (Hne Hc)]. }
  apply get_nonempty_Some in Es. destruct Es as [Es Hs].
  destruct (isBase64 s) eqn:Eb; cbn [negb].
  2:{ split; [discriminate|].
      intros (attrs' & it & [= <-] & _ & _ & _ & Hs' & _ & Hb & _).
      pose proof (eq_trans (eq_sym Es) Hs') as Hc. injection Hc as Hc.
      rewrite <- Hc in Hb. apply isBase64_spec in Hb. rewrite Hb in Eb.
      discriminate Eb. }
  apply isBase64_spec in Eb.
  destruct (get_nonempty attrs (str "i")) as [it|] eqn:Ei.
  2:{ apply get_nonempty_None in Ei. split; [discriminate|].
      intros (attrs' & it & [= <-] & _ & _ & _ & _ & _ & _ & Hi & Hpd & _).
      destruct Hpd as (d & ds & -> & _).
      destruct Ei as [Ei | Ei]; pose proof (eq_trans (eq_sym Hi) Ei) as Hc;
        discriminate Hc. }
  apply get_nonempty_Some in Ei. destruct Ei as [Ei Hi].
  destruct (iteration_syntax it) eqn:Esy; cbn [negb].
  2:{ split; [discriminate|].
      intros (attrs' & it' & [= <-] & _ & _ & _ & _ & _ & _ & Hi' & Hpd & _).
      pose proof (eq_trans (eq_sym Ei) Hi') as Hc. injection Hc as Hc.
      rewrite <- Hc in Hpd. apply iteration_syntax_spec in Hpd.
      rewrite Hpd in Esy. discriminate Esy. }
  apply iteration_syntax_spec in Esy.
  split.
  - intros [= <-]. cbn [nonce salt iteration]. exists attrs, it.
    repeat apply conj; try assumption; try reflexivity.
    intros z Hz ->. apply parseInt10_decimal_safe, Hz.
  - intros (attrs' & it' & [= <-] & Hr & _ & _ & Hs' & _ & _ & Hi' & _ & Hit & _).
    pose proof (eq_trans (eq_sym Er) Hr) as Hc1. injection Hc1 as Hc1.
    pose proof (eq_trans (eq_sym Es) Hs') as Hc2. injection Hc2 as Hc2.
    pose proof (eq_trans (eq_sym Ei) Hi') as Hc3. injection Hc3 as Hc3.
    destruct sv as [n' s' i']. cbn in *. subst. reflexivity.
Qed.

Example iteration_rounded :
  parseServerFirstMessage (VString (str "r=abcdef,s=QUJDRA==,i=9007199254740993"))
  = Ok {| nonce := str "abcdef"; salt := str "QUJDRA==";
          iteration := Int 9007199254740992 |}.
Proof. vm_compute. reflexivity. Qed.

Example iteration_infinite :
  parseServerFirstMessage
    (VString (str "r=abcdef,s=QUJDRA==,i=1" ++ repeat 48%N 310))
  = Ok {| nonce := str "abcdef"; salt := str "QUJDRA=="; iteration := Infinity false |}.
Proof. vm_compute. reflexivity. Qed.

(** *** Attribute pairs *)

Lemma split_comma_aux_app cur s t :
  split_comma_aux cur (s ++ 44%N :: t) = split_comma_aux cur s ++ split_comma t.
Proof.
  revert cur. induction s as [|c s IH]; intros cur; cbn.
  - reflexivity.
  - destruct (c =? 44)%N; cbn; rewrite IH; reflexivity.
Qed.

Lemma split_comma_aux_field cur t :
  44%N ∉ t -> split_comma_aux cur t = [rev cur ++ t].
Proof.
  revert cur. induction t as [|c t IH]; intros cur Ht; cbn.
  - rewrite app_nil_r. reflexivity.
  - apply not_elem_of_cons in Ht. destruct Ht as [Hc Ht].
    destruct (N.eqb_spec c 44) as [->|_]; [congruence|].
    rewrite IH by exact Ht. cbn. rewrite <- app_assoc. reflexivity.
Qed.

Lemma map_result_app {A B} (f : A -> result B) l1 l2 :
  map_result f (l1 ++ l2) =
    rbind (map_result f l1) (fun ys1 =>
    rbind (map_result f l2) (fun ys2 => Ok (ys1 ++ ys2))).
Proof.
  induction l1 as [|x l1 IH]; cbn.
  - destruct (map_result f l2); reflexivity.
  - destruct (f x) as [y|e]; cbn; [|reflexivity].
    rewrite IH. destruct (map_result f l1); cbn; [|reflexivity].
    destruct (map_result f l2); reflexivity.
Qed.

Lemma Map_of_app entries k v :
  Map_of (entries ++ [(k, v)]) = <[k := v]> (Map_of entries).
Proof. unfold Map_of. rewrite foldl_app. reflexivity. Qed.

(** X4: parseAttributePairs reads the comma-separated fields from left to
    right: a well-formed field appended to an accepted text adds its
    attribute, replacing an earlier attribute of the same name, and a text
    that is rejected stays rejected, with the same error, whatever fields
    follow it. *)
Theorem parseAttributePairs_append s :
  (forall attrs c v,
     parseAttributePairs (VString s) = Ok attrs ->
     c <> 44%N -> is_line_terminator c = false -> 44%N ∉ v ->
     parseAttributePairs (VString (s ++ 44%N :: c :: 61%N :: v))
     = Ok (<[ [c] := v ]> attrs)) /\
  (forall e t,
     parseAttributePairs (VString s) = Throw e ->
     parseAttributePairs (VString (s ++ 44%N :: t)) = Throw e).
Proof.
  unfold parseAttributePairs, split_comma. split.
  - intros attrs c v Hs Hc Hl Hv.
    rewrite split_comma_aux_app. unfold split_comma.
    rewrite (split_comma_aux_field [] (c :: 61%N :: v)).
    2:{ rewrite !not_elem_of_cons. repeat split; [congruence | discriminate | exact Hv]. }
    rewrite map_result_app.
    destruct (map_result parseAttributePair (split_comma_aux [] s)) as [entries|];
      cbn [rbind] in *; [|discriminate].
    injection Hs as <-. cbn [rev app map_result parseAttributePair rbind].
    rewrite Hl. cbn [rbind]. rewrite Map_of_app. reflexivity.
  - intros e t Hs. rewrite split_comma_aux_app, map_result_app.
    destruct (map_result parseAttributePair (split_comma_aux [] s)); cbn [rbind] in *;
      [discriminate | exact Hs].
Qed.

Lemma parseAttributePairs_append_witness :
  parseAttributePairs (VString (str "i=0" ++ 44%N :: 105%N :: 61%N :: str "4096"))
  = Ok (<[ [105%N] := str "4096" ]> (<[ [105%N] := str "0" ]> ∅)) /\
  parseAttributePairs (VString (str "salt" ++ 44%N :: str "r=abc"))
  = Throw (Error (str "SASL: Invalid attribute pair entry")).
Proof.
  split.
  - apply (proj1 (parseAttributePairs_append (str "i=0"))).
    + vm_compute. reflexivity.
    + discriminate.
    + reflexivity.
    + apply (bool_decide_unpack _). vm_compute. exact I.
  - apply (proj2 (parseAttributePairs_append (str "salt"))).
    vm_compute. reflexivity.
Defined.

(** *** The order of the exchange *)

Lemma continueSession_inv f1 f2 f3 f4 f5 f6 f7 session password serverData stream session' :
  continueSession f1 f2 f3 f4 f5 f6 f7 session password serverData stream = Ok session' ->
  exists pw sv cb proof signature,
    message session = str "SASLInitialResponse" /\
    password = VString pw /\ pw <> [] /\
    parseServerFirstMessage serverData = Ok sv /\
    startsWith (nonce sv) (clientNonce session) = true /\
    length (nonce sv) <> length (clientNonce session) /\
    channelBinding f1 f2 f6 session stream = Ok cb /\
    session' = {| mechanism := mechanism session;
                  clientNonce := clientNonce session;
                  response := (str "c=" ++ cb ++ str ",r=" ++ nonce sv) ++ str ",p=" ++ f6 proof;
                  message := str "SASLResponse";
                  serverSignature := Some (f6 signature) |}.
Proof.
  unfold continueSession.
  destruct (bool_decide (message session = str "SASLInitialResponse")) eqn:Em;
    cbn [negb]; [|discriminate].
  apply bool_decide_eq_true_1 in Em.
  destruct password as [| | | |pw|]; try discriminate.
  destruct (bool_decide (pw = [])) eqn:Epw; [discriminate|].
  apply bool_decide_eq_false_1 in Epw.
  destruct (is_string serverData); cbn [negb]; [|discriminate].
  destruct (parseServerFirstMessage serverData) as [sv|]; cbn [rbind]; [|discriminate].
  destruct (startsWith (nonce sv) (clientNonce session)) eqn:Esw; cbn [negb]; [|discriminate].
  destruct (Nat.eqb_spec (length (nonce sv)) (length (clientNonce session))) as [|Hlen];
    [discriminate|].
  destruct (channelBinding f1 f2 f6 session stream) as [cb|]; cbn [rbind]; [|discriminate].
  repeat match goal with
         | |- rbind ?r _ = Ok _ -> _ => destruct r; cbn [rbind]; [|discriminate]
         end.
  intros [= <-]. eexists pw, sv, cb, _, _. repeat apply conj; try reflexivity; assumption.
Qed.

Lemma phases_differ : str "SASLInitialResponse" <> str "SASLResponse".
Proof. vm_compute. discriminate. Qed.

(** X5: when continueSession succeeds, the session was in the phase after
    startSession, the password was a non-empty string and the server nonce
    strictly extends the client nonce; the new session keeps mechanism and
    client nonce, expects a server signature and carries the client-final
    message c=<channel binding>,r=<server nonce>,p=<proof>.  The phases
    cannot be replayed or skipped: a second continueSession on the new
    session is refused, and so is finalizeSession on the old one. *)
Theorem continueSession_success f1 f2 f3 f4 f5 f6 f7 session password serverData stream session' :
  continueSession f1 f2 f3 f4 f5 f6 f7 session password serverData stream = Ok session' ->
  (message session = str "SASLInitialResponse" /\ usable_password password /\
   exists sv cb proof,
     parseServerFirstMessage serverData = Ok sv /\
     strictly_extends (nonce sv) (clientNonce session) /\
     channelBinding f1 f2 f6 session stream = Ok cb /\
     response session' = str "c=" ++ cb ++ str ",r=" ++ nonce sv ++ str ",p=" ++ proof) /\
  (mechanism session' = mechanism session /\
   clientNonce session' = clientNonce session /\
   message session' = str "SASLResponse" /\
   is_Some (serverSignature session')) /\
  (forall g1 g2 g3 g4 g5 g6 g7 password' serverData' stream',
     continueSession g1 g2 g3 g4 g5 g6 g7 session' password' serverData' stream'
     = Throw (Error (str "SASL: Last message was not SASLInitialResponse"))) /\
  (forall serverData',
     finalizeSession session serverData'
     = Throw (Error (str "SASL: Last message was not SASLResponse"))).
Proof.
  intros H. apply continueSession_inv in H.
  destruct H as (pw & sv & cb & proof & signature & Hm & -> & Hpw & Hsv & Hsw & Hlen & Hcb & ->).
  repeat apply conj; cbn.
  - exact Hm.
  - exists pw. auto.
  - exists sv, cb, (f6 proof). repeat apply conj; try assumption.
    + apply strictly_extends_iff. split; [|exact Hlen].
      apply startsWith_prefix. exact Hsw.
    + rewrite <- !app_assoc. reflexivity.
  - reflexivity.
  - reflexivity.
  - reflexivity.
  - eexists. reflexivity.
  - intros. unfold continueSession. cbn [message].
    rewrite bool_decide_eq_false_2 by (intros E; symmetry in E; exact (phases_differ E)).
    reflexivity.
  - intros. unfold finalizeSession. rewrite Hm.
    rewrite bool_decide_eq_false_2 by exact phases_differ. reflexivity.
Qed.

Lemma continueSession_success_witness :
  exists session',
    continueSession (fun _ => Ok []) (fun _ b => Ok b) (fun _ b _ => Ok b)
      (fun b _ => Ok b) (fun b => Ok b) b64 (fun _ => [1; 2; 3])
      (client_first PLAIN "n" (str "abcdef")) (VString (str "pencil"))
      (VString (str "r=abcdefXYZ,s=QUJDRA==,i=4096")) None = Ok session' /\
    message session' = str "SASLResponse" /\
    finalizeSession (client_first PLAIN "n" (str "abcdef")) (VString (str "v=AQID"))
    = Throw (Error (str "SASL: Last message was not SASLResponse")).
Proof.
  eexists. split; [vm_compute; reflexivity|].
  match goal with
  | |- message ?s = _ /\ _ =>
      pose proof (continueSession_success (fun _ => Ok []) (fun _ b => Ok b)
                    (fun _ b _ => Ok b) (fun b _ => Ok b) (fun b => Ok b) b64
                    (fun _ => [1; 2; 3]) (client_first PLAIN "n" (str "abcdef"))
                    (VString (str "pencil"))
                    (VString (str "r=abcdefXYZ,s=QUJDRA==,i=4096")) None s) as H
  end.
  destruct H as (_ & (_ & _ & Hm & _) & _ & Hf); [vm_compute; reflexivity|].
  split; [exact Hm | apply Hf].
Defined.

(** X6: the channel-binding attribute of the client-final message repeats
    the gs2 header of the client-first message: for a session that
    startSession made and continueSession continued over the same
    transport, c= is the base64 encoding of <header>,, where the header is
    n without a transport and y with one, and, for SCRAM-SHA-256-PLUS, of
    p=tls-server-end-point,, followed by the hash of the peer certificate
    of the transport; that hash is taken with the hash function the
    signature algorithm of the certificate names, and with SHA-256 in place
    of MD5 and SHA-1. *)
Theorem channel_binding_matches_header f1 f2 f3 f4 f5 f6 f7
    mechanisms stream clientNonce session password serverData session' :
  startSession mechanisms stream clientNonce = Ok session ->
  continueSession f1 f2 f3 f4 f5 f6 f7 session password serverData stream = Ok session' ->
  exists gs2Header cb rest,
    response session = gs2Header ++ str ",,n=*,r=" ++ clientNonce /\
    response session' = str "c=" ++ cb ++ str ",r=" ++ rest /\
    (mechanism session = PLUS \/ mechanism session = PLAIN) /\
    (mechanism session = PLAIN ->
     gs2Header = match stream with Some _ => str "y" | None => str "n" end /\
     cb = b64 (ascii_bytes (gs2Header ++ str ",,"))) /\
    (mechanism session = PLUS ->
     gs2Header = str "p=tls-server-end-point" /\
     exists st hashName certHash,
       stream = Some st /\ has_getPeerCertificate st = true /\
       f1 (peerCertificate_raw st) = Ok hashName /\
       f2 (if bool_decide (hashName = str "MD5") || bool_decide (hashName = str "SHA-1")
           then str "SHA-256" else hashName)
          (peerCertificate_raw st) = Ok certHash /\
       cb = f6 (ascii_bytes (gs2Header ++ str ",,") ++ certHash)).
Proof.
  intros Hs Hc. apply continueSession_inv in Hc.
  destruct Hc as (pw & sv & cb & proof & signature & _ & _ & _ & _ & _ & _ & Hcb & ->).
  cbn [response].
  assert (Hplain : bool_decide (PLAIN = PLUS) = false)
    by (apply bool_decide_eq_false_2, PLAIN_is_not_PLUS).
  assert (Hplus : bool_decide (PLUS = PLUS) = true)
    by (apply bool_decide_eq_true_2; reflexivity).
  unfold startSession in Hs. unfold channelBinding in Hcb.
  destruct stream as [st|]; cbn [find] in Hs.
  - destruct (includes mechanisms PLUS).
    + rewrite Hplus in Hs. cbn [andb] in Hs.
      destruct (has_getPeerCertificate st) eqn:Hcert; cbn [negb] in Hs; [|discriminate].
      injection Hs as <-. cbn [mechanism response] in *. rewrite Hplus in Hcb.
      destruct (f1 (peerCertificate_raw st)) as [hashName|] eqn:Hname; cbn [rbind] in Hcb;
        [|discriminate].
      match type of Hcb with
      | rbind ?r _ = _ =>
          destruct r as [certHash|] eqn:Hhash; cbn [rbind] in Hcb; [|discriminate]
      end.
      injection Hcb as <-.
      exists (str "p=tls-server-end-point"),
             (f6 (ascii_bytes (str "p=tls-server-end-point,,") ++ certHash)),
             (nonce sv ++ str ",p=" ++ f6 proof).
      repeat apply conj; try reflexivity; try (rewrite <- !app_assoc; reflexivity).
      * left. reflexivity.
      * intros E. symmetry in E. destruct (PLAIN_is_not_PLUS E).
      * intros _. split; [reflexivity|].
        exists st, hashName, certHash. repeat apply conj; try reflexivity; assumption.
    + destruct (includes mechanisms PLAIN); [|discriminate].
      rewrite Hplain in Hs. cbn [andb] in Hs.
      injection Hs as <-. cbn [mechanism response] in *. rewrite Hplain in Hcb.
      injection Hcb as <-.
      exists (str "y"), (str "eSws"), (nonce sv ++ str ",p=" ++ f6 proof).
      repeat apply conj; try reflexivity; try (rewrite <- !app_assoc; reflexivity).
      * right. reflexivity.
      * intros _. split; reflexivity.
      * intros E. destruct (PLAIN_is_not_PLUS E).
  - destruct (includes mechanisms PLAIN); [|discriminate].
    rewrite Hplain in Hs. cbn [andb] in Hs.
    injection Hs as <-. cbn [mechanism response] in *. rewrite Hplain in Hcb.
    injection Hcb as <-.
    exists (str "n"), (str "biws"), (nonce sv ++ str ",p=" ++ f6 proof).
    repeat apply conj; try reflexivity; try (rewrite <- !app_assoc; reflexivity).
    * right. reflexivity.
    * intros _. split; reflexivity.
    * intros E. destruct (PLAIN_is_not_PLUS E).
Qed.

(* without a transport the attribute is the encoding of n,, ; over a
   transport whose certificate is signed with SHA-1, SCRAM-SHA-256-PLUS
   binds to the SHA-256 hash of the certificate *)
Lemma channel_binding_matches_header_witness :
  let hashName := fun _ : bytes => Ok (str "SHA-1") in
  let hash := fun (name : jsstring) (cert : bytes) =>
                if bool_decide (name = str "SHA-256") then Ok (7 :: cert) else Ok [] in
  let tls := {| has_getPeerCertificate := true; peerCertificate_raw := [1; 2; 3] |} in
  (exists session session' gs2Header cb rest,
     startSession [PLAIN] None (str "abcdef") = Ok session /\
     response session = gs2Header ++ str ",,n=*,r=" ++ str "abcdef" /\
     response session' = str "c=" ++ cb ++ str ",r=" ++ rest /\
     gs2Header = str "n" /\
     cb = b64 (ascii_bytes (gs2Header ++ str ",,"))) /\
  (exists session session' cb rest,
     startSession [PLUS; PLAIN] (Some tls) (str "abcdef") = Ok session /\
     mechanism session = PLUS /\
     continueSession hashName hash (fun _ b _ => Ok b) (fun b _ => Ok b) (fun b => Ok b)
       b64 (fun _ => [1; 2; 3]) session (VString (str "pencil"))
       (VString (str "r=abcdefXYZ,s=QUJDRA==,i=4096")) (Some tls) = Ok session' /\
     response session' = str "c=" ++ cb ++ str ",r=" ++ rest /\
     cb = b64 (ascii_bytes (str "p=tls-server-end-point,,") ++ [7; 1; 2; 3])).
Proof.
  cbv zeta. split.
  - destruct (channel_binding_matches_header (fun _ => Ok []) (fun _ b => Ok b)
                (fun _ b _ => Ok b) (fun b _ => Ok b) (fun b => Ok b) b64
                (fun _ => [1; 2; 3]) [PLAIN] None (str "abcdef")
                (client_first PLAIN "n" (str "abcdef")) (VString (str "pencil"))
                (VString (str "r=abcdefXYZ,s=QUJDRA==,i=4096"))
                {| mechanism := PLAIN; clientNonce := str "abcdef";
                   response := str "c=biws,r=abcdefXYZ,p=AAAA";
                   message := str "SASLResponse"; serverSignature := Some (str "AQID") |})
      as (gs2Header & cb & rest & H0 & H1 & _ & Hcb & _).
    + vm_compute. reflexivity.
    + vm_compute. reflexivity.
    + destruct (Hcb eq_refl) as [Hh Hc].
      exists (client_first PLAIN "n" (str "abcdef")),
        {| mechanism := PLAIN; clientNonce := str "abcdef";
           response := str "c=biws,r=abcdefXYZ,p=AAAA";
           message := str "SASLResponse"; serverSignature := Some (str "AQID") |},
        gs2Header, cb, rest.
      split; [vm_compute; reflexivity|]. repeat split; assumption.
  - destruct (continueSession (fun _ => Ok (str "SHA-1"))
                (fun name cert => if bool_decide (name = str "SHA-256")
                                  then Ok (7 :: cert) else Ok [])
                (fun _ b _ => Ok b) (fun b _ => Ok b) (fun b => Ok b)
                b64 (fun _ => [1; 2; 3]) (client_first PLUS "p=tls-server-end-point" (str "abcdef"))
                (VString (str "pencil")) (VString (str "r=abcdefXYZ,s=QUJDRA==,i=4096"))
                (Some {| has_getPeerCertificate := true; peerCertificate_raw := [1; 2; 3] |}))
      as [session'|e] eqn:Ec; [|vm_compute in Ec; discriminate Ec].
    destruct (channel_binding_matches_header _ _ _ _ _ _ _ [PLUS; PLAIN]
                (Some {| has_getPeerCertificate := true; peerCertificate_raw := [1; 2; 3] |})
                (str "abcdef") (client_first PLUS "p=tls-server-end-point" (str "abcdef"))
                _ _ session' ltac:(vm_compute; reflexivity) Ec)
      as (gs2Header & cb & rest & _ & H1 & _ & _ & Hcb).
    destruct (Hcb eq_refl) as (-> & st & name & certHash & Hst & _ & Hname & Hhash & ->).
    injection Hst as <-. injection Hname as <-. cbn [peerCertificate_raw] in Hhash.
    vm_compute in Hhash. injection Hhash as <-.
    exists (client_first PLUS "p=tls-server-end-point" (str "abcdef")), session',
      (b64 (ascii_bytes (str "p=tls-server-end-point,,") ++ [7; 1; 2; 3])), rest.
    split; [vm_compute; reflexivity|]. split; [reflexivity|].
    split; [exact Ec|]. split; [exact H1 | reflexivity].
Defined.

(** *** xorBuffers *)

Lemma xor_bytes_comm a b : xor_bytes a b = xor_bytes b a.
Proof.
  revert b. induction a as [|x a IH]; intros [|y b]; cbn; try reflexivity.
  rewrite Z.lxor_comm, IH. reflexivity.
Qed.

Lemma xor_bytes_are_bytes a b : Forall is_byte (xor_bytes a b).
Proof.
  revert b. induction a as [|x a IH]; intros [|y b]; cbn; constructor; [|apply IH].
  unfold is_byte. apply Z.mod_pos_bound. lia.
Qed.

(** X7: xorBuffers does not depend on the order of two buffers, neither in
    its result nor in its error, and a result is a non-empty buffer of the
    common length whose elements are bytes, whatever integers the arguments
    hold. *)
Theorem xorBuffers_symmetric a b :
  xorBuffers (Buffer a) (Buffer b) = xorBuffers (Buffer b) (Buffer a) /\
  (forall r, xorBuffers (Buffer a) (Buffer b) = Ok r ->
     length r = length a /\ length r = length b /\ r <> [] /\ Forall is_byte r).
Proof.
  unfold xorBuffers. split.
  - rewrite (Nat.eqb_sym (length b) (length a)).
    destruct (Nat.eqb_spec (length a) (length b)) as [E|_]; cbn [negb]; [|reflexivity].
    rewrite E, xor_bytes_comm. reflexivity.
  - intros r.
    destruct (Nat.eqb_spec (length a) (length b)) as [E|_]; cbn [negb]; [|discriminate].
    destruct (Nat.eqb_spec (length a) 0) as [|Hne]; [discriminate|].
    intros [= <-]. rewrite xor_bytes_length by exact E.
    repeat apply conj; [reflexivity | exact E | | apply xor_bytes_are_bytes].
    intros Hnil. apply (f_equal (@length Z)) in Hnil.
    rewrite xor_bytes_length in Hnil by exact E. cbn in Hnil. lia.
Qed.

Lemma xorBuffers_symmetric_witness :
  length [216; 202; 86; 135] = length [202; 254; 0; 255] /\
  Forall is_byte [216; 202; 86; 135].
Proof.
  destruct (proj2 (xorBuffers_symmetric [202; 254; 0; 255] [18; 52; 86; 120])
              [216; 202; 86; 135]) as (H1 & _ & _ & H2).
  - vm_compute. reflexivity.
  - split; [exact H1 | exact H2].
Defined.

(** *** The server-first message, parsed and rebuilt *)

Lemma parseInt10_decimal it :
  positive_decimal it -> (length it <= 15)%nat ->
  String_of_number (parseInt10_string it) = it.
Proof.
  intros Hit Hlen. apply positive_decimal_digits in Hit.
  destruct Hit as (d & ds & -> & Hd & Hds).
  destruct (decimal_digits_value ds d Hd Hds) as [Hpos Hdec].
  assert (Hdigits : forallb is_digit (d :: ds) = true).
  { cbn. rewrite Hds, andb_true_r. apply is_digit_range. lia. }
  pose proof (digits_value_bound (d :: ds) 0 ltac:(lia) Hdigits) as Hb.
  assert (Hp : 10 ^ Z.of_nat (length (d :: ds)) <= 10 ^ 15)
    by (apply Z.pow_le_mono_r; lia).
  pose proof (parseInt10_digits d ds []) as E. rewrite app_nil_r in E.
  rewrite E by (apply is_digit_range; lia).
  rewrite Number_of_integer_safe by lia.
  rewrite String_of_number_safe by lia. exact Hdec.
Qed.

Lemma printable_no_comma n : forallb printable n = true -> 44%N ∉ n.
Proof.
  intros Hn Hin. rewrite forallb_forall in Hn.
  apply list_elem_of_In, Hn in Hin. discriminate Hin.
Qed.

Lemma Base64_no_comma s : Base64 s -> 44%N ∉ s.
Proof.
  assert (F : forall c, base64_char c = true -> 44%N <> c) by (intros c Hc <-; discriminate Hc).
  induction 1; rewrite ?not_elem_of_cons; repeat split;
    try apply not_elem_of_nil; try discriminate; auto.
Qed.

Lemma positive_decimal_no_comma it : positive_decimal it -> 44%N ∉ it.
Proof.
  intros (d & ds & -> & Hd & Hds). rewrite not_elem_of_cons. split; [lia|].
  intros Hin. rewrite Forall_forall in Hds. apply Hds in Hin. lia.
Qed.

Lemma get_nonempty_insert (m : gmap jsstring jsstring) k v :
  v <> [] -> get_nonempty (<[k := v]> m) k = Some v.
Proof.
  intros Hv. unfold get_nonempty. rewrite lookup_insert_eq.
  destruct v; [contradiction | reflexivity].
Qed.

Lemma get_nonempty_insert_ne (m : gmap jsstring jsstring) k k' v :
  k' <> k -> get_nonempty (<[k' := v]> m) k = get_nonempty m k.
Proof. intros Hk. unfold get_nonempty. rewrite lookup_insert_ne by exact Hk. reflexivity. Qed.

Lemma parse_server_first_text n s it :
  44%N ∉ n -> 44%N ∉ s -> 44%N ∉ it ->
  parseAttributePairs (VString (server_first_text n s it))
  = Ok (<[str "i" := it]> (<[str "s" := s]> (<[str "r" := n]> ∅))).
Proof.
  intros Hn Hs Hit.
  assert (E : server_first_text n s it
              = (114%N :: 61%N :: n) ++ 44%N :: (115%N :: 61%N :: s) ++ 44%N :: 105%N :: 61%N :: it).
  { reflexivity. }
  rewrite E. unfold parseAttributePairs, split_comma.
  rewrite split_comma_aux_app. unfold split_comma. rewrite split_comma_aux_app.
  unfold split_comma.
  rewrite !split_comma_aux_field
    by (rewrite !not_elem_of_cons; repeat split; try discriminate; assumption).
  cbn. reflexivity.
Qed.

(** X8: a server-first message in the form the server sends it,
    r=<nonce>,s=<salt>,i=<count> with a printable nonce, a base64 salt and a
    count without leading zero, is accepted with exactly these parts, and
    the text continueSession builds from the parsed parts for the auth
    message is the message itself.  The count is kept within the integers a
    Number holds exactly. *)
Theorem server_first_round_trip n s it :
  n <> [] -> forallb printable n = true ->
  s <> [] -> Base64 s ->
  positive_decimal it -> (length it <= 15)%nat ->
  exists sv,
    parseServerFirstMessage (VString (server_first_text n s it)) = Ok sv /\
    nonce sv = n /\ salt sv = s /\
    str "r=" ++ nonce sv ++ str ",s=" ++ salt sv ++ str ",i="
      ++ String_of_number (iteration sv)
    = server_first_text n s it.
Proof.
  intros Hn Hpr Hs Hb Hit Hlen.
  unfold parseServerFirstMessage.
  rewrite parse_server_first_text
    by auto using printable_no_comma, Base64_no_comma, positive_decimal_no_comma.
  cbn [rbind].
  assert (Hit' : it <> []) by (destruct Hit as (? & ? & -> & _); discriminate).
  assert (Hrs : str "s" <> str "r") by (vm_compute; discriminate).
  assert (Hri : str "i" <> str "r") by (vm_compute; discriminate).
  assert (Hsi : str "i" <> str "s") by (vm_compute; discriminate).
  rewrite (get_nonempty_insert_ne _ (str "r") (str "i")) by exact Hri.
  rewrite (get_nonempty_insert_ne _ (str "r") (str "s")) by exact Hrs.
  rewrite get_nonempty_insert by exact Hn.
  cbn [isPrintableChars rbind]. rewrite Hpr. cbn [negb].
  rewrite (get_nonempty_insert_ne _ (str "s") (str "i")) by exact Hsi.
  rewrite get_nonempty_insert by exact Hs.
  rewrite (proj2 (isBase64_spec s) Hb). cbn [negb].
  rewrite get_nonempty_insert by exact Hit'.
  rewrite (proj2 (iteration_syntax_spec it) Hit). cbn [negb].
  eexists. split; [reflexivity|]. cbn [nonce salt iteration].
  rewrite parseInt10_decimal by assumption.
  repeat split.
Qed.

Lemma server_first_round_trip_witness :
  exists sv,
    parseServerFirstMessage (VString (str "r=abcdefXYZ,s=QUJDRA==,i=4096")) = Ok sv /\
    str "r=" ++ nonce sv ++ str ",s=" ++ salt sv ++ str ",i="
      ++ String_of_number (iteration sv)
    = str "r=abcdefXYZ,s=QUJDRA==,i=4096".
Proof.
  destruct (server_first_round_trip (str "abcdefXYZ") (str "QUJDRA==") (str "4096"))
    as (sv & H1 & _ & _ & H2).
  - vm_compute. discriminate.
  - vm_compute. reflexivity.
  - vm_compute. discriminate.
  - apply isBase64_spec. vm_compute. reflexivity.
  - apply iteration_syntax_spec. vm_compute. reflexivity.
  - vm_compute. lia.
  - exists sv. split; [exact H1 | exact H2].
Defined.

(** *** Timeouts in the startup parameters *)

(** X25: what getStartupConf does to a timeout, String(parseInt(v, 10)),
    normalises it: a non-negative integer, and the decimal text of one
    followed by a unit or by any other text that does not start with a
    digit, both become the decimal text of that integer, and that text
    parses back to the integer; so a positive statement_timeout given as a
    number is sent as its decimal text.  Integers are kept within those a
    Number holds exactly. *)
Theorem startup_timeout_normalised function_text z :
  0 <= z < 2 ^ 53 ->
  String_parseInt function_text (VNumber (Int z)) = VString (decimal z) /\
  (forall c rest, is_digit c = false ->
     String_parseInt function_text (VString (decimal z ++ c :: rest)) = VString (decimal z)) /\
  parseInt10_string (decimal z) = Int z /\
  (forall params, 0 < z -> statement_timeout params = VNumber (Int z) ->
     property "statement_timeout" (getStartupConf function_text params)
     = Some (VString (decimal z))).
Proof.
  intros Hz.
  assert (Hparse : forall tail,
             match tail with c :: _ => is_digit c = false | [] => True end ->
             parseInt10_string (decimal z ++ tail) = Int z).
  { intros tail Htail.
    change (decimal z ++ tail) with ([] ++ repeat 48%N 0 ++ decimal z ++ tail).
    rewrite (parseInt10_numeral [] 0 z tail eq_refl) by (exact Htail || lia).
    apply Number_of_integer_safe. lia. }
  assert (Hnumber : String_parseInt function_text (VNumber (Int z)) = VString (decimal z)).
  { unfold String_parseInt. cbn [ToString]. rewrite String_of_number_safe by exact Hz.
    pose proof (Hparse [] I) as H. rewrite app_nil_r in H. rewrite H.
    rewrite String_of_number_safe by exact Hz. reflexivity. }
  repeat apply conj.
  - exact Hnumber.
  - intros c rest Hc. unfold String_parseInt. cbn [ToString].
    rewrite (Hparse (c :: rest) Hc). rewrite String_of_number_safe by exact Hz.
    reflexivity.
  - pose proof (Hparse [] I) as H. rewrite app_nil_r in H. exact H.
  - intros params Hpos Hst.
    pose proof Hnumber as E.
    assert (Ht : truthy (VNumber (Int z)) = true)
      by (cbn; destruct (Z.eqb_spec z 0); [lia | reflexivity]).
    unfold getStartupConf, assign_if_set. rewrite Hst, Ht, E.
    destruct (truthy (or_else (application_name params) (fallback_application_name params)));
      destruct (truthy (replication params));
      destruct (truthy (lock_timeout params));
      destruct (truthy (idle_in_transaction_session_timeout params));
      destruct (truthy (options params));
      reflexivity.
Qed.

Lemma startup_timeout_normalised_witness :
  String_parseInt (fun _ => []) (VString (str "5000ms")) = VString (str "5000").
Proof.
  apply (proj1 (proj2 (startup_timeout_normalised (fun _ => []) 5000
                         ltac:(vm_compute; split; [discriminate | reflexivity])))
           109%N (str "s")).
  reflexivity.
Defined.

(** ** The client *)

Lemma handled_app tr1 tr2 : handled (tr1 ++ tr2) = handled tr1 ++ handled tr2.
Proof. unfold handled. apply omap_app. Qed.

Lemma deliveries_app tr1 tr2 : deliveries (tr1 ++ tr2) = deliveries tr1 ++ deliveries tr2.
Proof. unfold deliveries. apply omap_app. Qed.

Lemma client_finals_app tr1 tr2 :
  client_finals (tr1 ++ tr2) = client_finals tr1 ++ client_finals tr2.
Proof. unfold client_finals. apply omap_app. Qed.

Lemma final_bind {A B} (m : M A) (k : A -> M B) w :
  final ((m ≫= k) w) =
  match m w with
  | Return a w1 => final (k a w1)
  | Raise _ w1 => w1
  end.
Proof. unfold mbind, M_bind, bind. destruct (m w); reflexivity. Qed.

(** *** Code that preserves a relation *)

Section Preserves.
Context (R : World -> World -> Prop) `{!PreOrder R}.

Lemma preserves_ret {A} (a : A) : preserves R (mret a).
Proof. intros w. reflexivity. Qed.

Lemma preserves_throw {A} e : preserves R (@throw A e).
Proof. intros w. reflexivity. Qed.

Lemma preserves_get : preserves R get.
Proof. intros w. reflexivity. Qed.

Lemma preserves_bind {A B} (m : M A) (k : A -> M B) :
  preserves R m -> (forall a, preserves R (k a)) -> preserves R (m ≫= k).
Proof.
  intros Hm Hk w. specialize (Hm w). rewrite final_bind.
  destruct (m w) as [a w'|e w']; simpl in *.
  - etransitivity; [exact Hm | apply Hk].
  - exact Hm.
Qed.

Lemma preserves_get_bind {B} (k : World -> M B) :
  (forall w, preserves R (k w)) -> preserves R (get ≫= k).
Proof. intros Hk. apply preserves_bind; [apply preserves_get | exact Hk]. Qed.

Lemma preserves_try_catch {A} (m : M A) h :
  preserves R m -> (forall e, preserves R (h e)) -> preserves R (try_catch m h).
Proof.
  intros Hm Hh w. specialize (Hm w).
  unfold try_catch. destruct (m w) as [a w'|e w']; simpl in *.
  - exact Hm.
  - etransitivity; [exact Hm | apply Hh].
Qed.

Lemma preserves_modify f : (forall w, R w (f w)) -> preserves R (modify f).
Proof. intros H w. apply H. Qed.

Lemma preserves_when b m : preserves R m -> preserves R (when b m).
Proof. intros H. destruct b; [exact H | apply preserves_ret]. Qed.

Lemma preserves_lift {A} (r : result A) : preserves R (lift r).
Proof. destruct r; [apply preserves_ret | apply preserves_throw]. Qed.

Lemma preserves_forEach {A} (l : list A) f :
  (forall x, preserves R (f x)) -> preserves R (forEach l f).
Proof.
  intros H. induction l as [|x l IH]; simpl.
  - apply preserves_ret.
  - apply preserves_bind; [apply H | intros _; exact IH].
Qed.

Lemma preserves_run `{runtime : Runtime} (P : Input -> Prop) inputs :
  (forall i, P i -> preserves R (step i)) ->
  Forall P inputs -> forall w, R w (run inputs w).
Proof.
  intros Hstep Hall. induction Hall as [|i inputs Hi _ IH]; intros w; simpl.
  - reflexivity.
  - etransitivity; [apply (Hstep i Hi) | apply IH].
Qed.

End Preserves.

(* [pg] holds the lemmas about the pieces of code already dealt with *)
Create HintDb pg.

(* one step through a piece of client code *)
Ltac pres_step :=
  match goal with
  | |- preserves _ (mret _) => apply preserves_ret; exact _
  | |- preserves _ (ret _) => apply (preserves_ret _); exact _
  | |- preserves _ (throw _) => apply preserves_throw; exact _
  | |- preserves _ (lift _) => apply preserves_lift; exact _
  | |- preserves _ get => apply preserves_get; exact _
  | |- preserves _ (get ≫= _) => apply preserves_get_bind; [exact _ | intros ?w]
  | |- preserves _ (_ ≫= _) => apply preserves_bind; [exact _ | | intros ?]
  | |- preserves _ (try_catch _ _) => apply preserves_try_catch; [exact _ | | intros ?]
  | |- preserves _ (when _ _) => apply preserves_when; [exact _ |]
  | |- preserves _ (forEach _ _) => apply preserves_forEach; [exact _ | intros ?]
  | |- preserves _ (modify _) => apply preserves_modify; intros ?w
  | |- preserves _ (update _) => apply preserves_modify; intros ?w
  | |- preserves _ (match ?x with _ => _ end) => destruct x eqn:?
  | |- preserves _ (let '(_, _) := ?x in _) => destruct x eqn:?
  | |- preserves _ _ => solve [auto with pg]
  end.

Ltac pres := repeat pres_step.

(* the methods of the client, down to the operations on the state *)
Ltac unfold_client :=
  unfold step, discard, on_event, emit_end, run_end_listener, fire, read_timeout,
    connect_timeout, tick, run_task, end_, once_end, ref, unref, cancel,
    cancel_connected, md5_hashed, pgpass_found, password_rejected, password_resolved,
    connect_, _connect, on_connection_end,
    _handleAuthCleartextPassword, _handleAuthMD5Password, _handleAuthSASL,
    _handleAuthSASLContinue, _handleAuthSASLFinal, the_session,
    _handleBackendKeyData, _handleReadyForQuery, _handleErrorMessage,
    _handleRowDescription, _handleDataRow, _handlePortalSuspended, _handleEmptyQuery,
    _handleCommandComplete, _handleParseComplete, _handleCopyInResponse,
    _handleCopyData, _handleNotification, _handleNotice, delegate,
    _getPassword, use_password, connection_emit_error, _handleErrorEvent,
    _handleErrorWhileConnecting, open_connection, con_connect, _pulseQueryQueue,
    _errorAllQueries,
    invoke_connect, handleReadyForQuery, submit, emit,
    clearConnectionTimeout, new_promise, setTimeout, clearTimeout, nextTick.

(* run a piece of client code on a world given by its fields *)
Ltac run :=
  cbv beta;
  unfold mbind, M_bind, bind, get, mret, M_ret, ret, update, modify, effect,
    nextTick, when, throw, modify_query, setTimeout, clearTimeout, new_promise;
  cbn.

#[local] Instance same_keys_preorder : PreOrder same_keys.
Proof.
  split.
  - intros w. split; reflexivity.
  - intros w1 w2 w3 [? ?] [? ?]. split; congruence.
Qed.

#[local] Instance same_handled_preorder : PreOrder same_handled.
Proof.
  split.
  - intros w. reflexivity.
  - intros w1 w2 w3 H1 H2. unfold same_handled in *. congruence.
Qed.

#[local] Instance same_ticks_preorder : PreOrder same_ticks.
Proof.
  split.
  - intros w. reflexivity.
  - intros w1 w2 w3 H1 H2. unfold same_ticks in *. congruence.
Qed.

#[local] Instance same_client_preorder : PreOrder same_client.
Proof.
  split.
  - intros w. reflexivity.
  - intros w1 w2 w3 H1 H2. unfold same_client in *. congruence.
Qed.

#[local] Instance stays_silenced_preorder q : PreOrder (stays_silenced q).
Proof.
  split.
  - intros w H. exact H.
  - intros w1 w2 w3 H1 H2 H. apply H2, H1, H.
Qed.

#[local] Instance scram_stalled_preorder : PreOrder scram_stalled.
Proof.
  split.
  - intros w. split; reflexivity.
  - intros w1 w2 w3 [? ?] [? ?]. split; congruence.
Qed.

(** *** Run equations *)

Lemma forEach_nextTick (T : qref -> Task) l w :
  forEach l (fun q => nextTick (T q)) w = Return tt (set_ticks (ticks w ++ map T l) w).
Proof.
  revert w. induction l as [|q l IH]; intros w; simpl.
  - rewrite app_nil_r. destruct w; reflexivity.
  - unfold mbind, M_bind, bind, nextTick at 1, modify. rewrite IH.
    simpl. rewrite <- app_assoc. reflexivity.
Qed.

Lemma remove_first_absent q l : q ∉ l -> remove_first q l = l.
Proof.
  induction l as [|x l IH]; intros H; cbn; [reflexivity|].
  rewrite not_elem_of_cons in H. destruct H as [Hx Hl].
  rewrite bool_decide_eq_false_2 by congruence. f_equal. auto.
Qed.

Lemma remove_first_once q l : (count_occ qref_eq_dec l q <= 1)%nat -> q ∉ remove_first q l.
Proof.
  induction l as [|x l IH]; intros H; cbn in *; [apply not_elem_of_nil|].
  destruct (qref_eq_dec x q) as [->|Hne].
  - rewrite bool_decide_eq_true_2 by reflexivity.
    intros Hin. apply list_elem_of_In in Hin.
    apply (count_occ_In qref_eq_dec) in Hin. lia.
  - rewrite bool_decide_eq_false_2 by assumption.
    rewrite not_elem_of_cons. split; [congruence | auto].
Qed.

Lemma elem_of_tail (q : qref) l : q ∈ tail l -> q ∈ l.
Proof. destruct l; cbn; [auto | intros H; apply elem_of_cons; right; exact H]. Qed.

(* the closing steps for two of the relations *)
Ltac close_handled :=
  unfold same_handled; cbn; rewrite ?handled_app; cbn; rewrite ?app_nil_r; reflexivity.

Ltac close_silenced := intros [? ?]; split; assumption.

Section ClientFacts.
Context {runtime : Runtime}.

Lemma errorAllQueries_run err w :
  exists w', _errorAllQueries err w = Return tt w' /\
    ticks w' = ticks w ++ map (fun q => THandleError q err) (failed_queries w) /\
    trace w' = trace w /\ end_listeners w' = end_listeners w /\
    error_listener w' = error_listener w /\
    _ending (client w') = _ending (client w).
Proof.
  unfold _errorAllQueries, failed_queries. run.
  destruct (_activeQuery (client w)) as [q|] eqn:Ea; cbn;
    rewrite (forEach_nextTick (fun q => THandleError q err)); cbn;
    (eexists; split; [reflexivity|]); cbn; rewrite <- ?app_assoc; auto 6.
Qed.

Lemma pulse_run w :
  exists w', _pulseQueryQueue w = Return tt w' /\
    deliveries (trace w') = deliveries (trace w) /\
    handled (trace w') = handled (trace w) /\
    queries w' = queries w /\ timers w' = timers w /\
    next_query w' = next_query w /\
    (exists more, ticks w' = ticks w ++ more) /\
    _queryQueue (client w') =
      (if readyForQuery (client w) then tail (_queryQueue (client w))
       else _queryQueue (client w)).
Proof.
  unfold _pulseQueryQueue, submit, emit. run.
  destruct (readyForQuery (client w)); run;
    [destruct (_queryQueue (client w)) as [|a rest] eqn:Eq; run;
       [destruct (hasExecuted (client w)); run
       |match goal with |- context [preflight ?x] => destruct (preflight x) end; run]
    |].
  all: (eexists; split; [reflexivity|]); cbn.
  all: rewrite ?deliveries_app, ?handled_app, ?Eq; cbn; rewrite ?app_nil_r.
  all: repeat apply conj; try reflexivity.
  all: try (exists []; rewrite app_nil_r; reflexivity).
  eexists; reflexivity.
Qed.

(** *** The backend keys *)

Lemma keys_invoke cb err : preserves same_keys (invoke cb err).
Proof.
  induction cb; simpl; unfold clearTimeout, effect; pres; split; reflexivity.
Qed.
Hint Resolve keys_invoke : pg.

Lemma keys_step i : ~ is_backendKeyData i -> preserves same_keys (step i).
Proof.
  intros Hi.
  destruct i; try destruct ev;
    unfold_client; unfold query, handleError, modify_query, effect;
    unfold_client; pres; try (split; reflexivity).
  all: exfalso; apply Hi; eexists _, _; reflexivity.
Qed.

(** *** The calls of handleError *)

Lemma handled_invoke cb err : preserves same_handled (invoke cb err).
Proof.
  induction cb; simpl; unfold clearTimeout, effect; pres; close_handled.
Qed.
Hint Resolve handled_invoke : pg.

Lemma handled_handleErrorEvent e : preserves same_handled (_handleErrorEvent e).
Proof. unfold_client; unfold effect. pres; close_handled. Qed.

Lemma handled_pulse : preserves same_handled _pulseQueryQueue.
Proof. unfold_client; unfold effect. pres; close_handled. Qed.

(* every listener but the one of 'errorMessage' *)
Lemma handled_on_event ev :
  (forall msg, ev <> errorMessage msg) -> preserves same_handled (on_event ev).
Proof.
  intros Hev.
  destruct ev; try (edestruct Hev; reflexivity);
    unfold_client; unfold effect; pres; close_handled.
Qed.

Lemma handleError_handled q err w :
  handled (trace (final (handleError q err w))) = handled (trace w) ++ [(q, err)].
Proof.
  unfold handleError. rewrite final_bind. unfold effect at 1, modify at 1.
  rewrite final_bind. unfold get at 1.
  match goal with |- handled (trace (final (?m ?w'))) = _ =>
    assert (P : preserves same_handled m) by pres; rewrite (P w')
  end.
  cbn. rewrite handled_app. reflexivity.
Qed.

Lemma ticks_invoke cb err : preserves same_ticks (invoke cb err).
Proof.
  induction cb; simpl; unfold clearTimeout, effect; pres; reflexivity.
Qed.
Hint Resolve ticks_invoke : pg.

Lemma ticks_handleError q err : preserves same_ticks (handleError q err).
Proof. unfold handleError, effect. pres; reflexivity. Qed.

Lemma client_invoke cb err : preserves same_client (invoke cb err).
Proof. induction cb; simpl; unfold clearTimeout, effect; pres; reflexivity. Qed.
Hint Resolve client_invoke : pg.

Lemma client_handleError q err : preserves same_client (handleError q err).
Proof. unfold handleError, effect. pres; reflexivity. Qed.

(** *** A silenced callback *)

Lemma silenced_modify_query q q' f :
  q' <> q \/ (forall o, callback (f o) = CbNoop) ->
  preserves (stays_silenced q) (modify_query q' f).
Proof.
  intros Hf w [Hs Ha]. split; [|exact Ha].
  unfold silenced, query_of in *. cbn.
  destruct (decide (q' = q)) as [->|Hne].
  - rewrite lookup_insert_eq. cbn.
    destruct Hf as [Hf | Hf]; [congruence | apply Hf].
  - rewrite lookup_insert_ne by assumption. exact Hs.
Qed.

Lemma silenced_invoke q cb err : preserves (stays_silenced q) (invoke cb err).
Proof.
  induction cb; simpl; unfold clearTimeout, effect; pres; close_silenced.
Qed.
Hint Resolve silenced_invoke : pg.

Lemma silenced_pulse q : preserves (stays_silenced q) _pulseQueryQueue.
Proof. unfold_client; unfold effect. pres; close_silenced. Qed.

#[local] Arguments _pulseQueryQueue : simpl never.

Lemma silenced_query q config :
  ~ resubmits q (CallQuery config) ->
  preserves (stays_silenced q) (query config).
Proof.
  intros Hc w [Hs Ha].
  assert (Hp : forall (r : QueryResult) w0,
             silenced q w0 /\ allocated q w0 ->
             let w1 := final (match _pulseQueryQueue w0 with
                              | Return _ w' => Return r w'
                              | Raise e w' => Raise e w'
                              end) in
             silenced q w1 /\ allocated q w1).
  { intros r w0 H0. pose proof (silenced_pulse q w0 H0) as H.
    destruct (_pulseQueryQueue w0); exact H. }
  unfold silenced, allocated in *.
  destruct config as [|q' values|qt fresh]; unfold query; run.
  - auto.
  - assert (q' <> q) by (intros ->; apply Hc; eexists; reflexivity).
    repeat match goal with
           | |- context [if ?b then _ else _] => destruct b eqn:?; run
           end;
      try apply Hp; unfold silenced, allocated, query_of in *; cbn;
      rewrite ?lookup_insert_ne by assumption; auto.
  - assert (Made (next_query w) <> q) by (destruct q; [discriminate | intros [= E]; lia]).
    assert (match q with Made n => (n < S (next_query w))%nat | Given _ => True end)
      by (destruct q; [exact I | lia]).
    repeat match goal with
           | |- context [if ?b then _ else _] => destruct b eqn:?; run
           end;
      try apply Hp; unfold silenced, allocated, query_of in *; cbn;
      rewrite ?lookup_insert_ne by assumption; auto.
Qed.

Lemma silenced_step q i :
  ~ resubmits q i -> preserves (stays_silenced q) (step i).
Proof.
  intros Hi.
  destruct i;
    try (cbn [step]; unfold discard; apply preserves_bind;
         [exact _ | apply silenced_query; exact Hi | intros; apply preserves_ret; exact _]);
    try destruct ev;
    unfold_client; unfold handleError, effect; unfold_client; pres;
    try close_silenced;
    apply silenced_modify_query; right; reflexivity.
Qed.

Lemma silenced_completions q err w :
  silenced q w ->
  deliveries (trace (final (handleError q err w))) = deliveries (trace w) /\
  deliveries (trace (final (handleReadyForQuery q w))) = deliveries (trace w).
Proof.
  unfold silenced. intros Hs. unfold handleError, handleReadyForQuery. run.
  unfold query_of in *. cbn.
  rewrite Hs. cbn. rewrite !deliveries_app. cbn. rewrite app_nil_r. auto.
Qed.

Lemma read_timeout_fires t q k w :
  timers w !! t = Some (ReadTimeout q k) ->
  plain k ->
  returns (fire t w) /\
  deliveries (trace (final (fire t w)))
    = deliveries (trace w) ++ delivery k (Some timeout_error) /\
  handled (trace (final (fire t w))) = handled (trace w) /\
  (exists more, ticks (final (fire t w)) = ticks w ++ [THandleError q timeout_error] ++ more) /\
  callback (query_of (final (fire t w)) q) = CbNoop /\
  next_query (final (fire t w)) = next_query w /\
  timers (final (fire t w)) !! t = None /\
  _queryQueue (client (final (fire t w))) =
    (if readyForQuery (client w) then tail (remove_first q (_queryQueue (client w)))
     else remove_first q (_queryQueue (client w))).
Proof.
  intros Ht Hk. unfold fire. run. rewrite Ht. run. unfold read_timeout. run.
  destruct k; try contradiction; cbn [invoke]; run.
  all: destruct (bool_decide (q ∈ _queryQueue (client w))) eqn:Hin; cbn.
  all: match goal with |- context [_pulseQueryQueue ?w0] =>
         destruct (pulse_run w0) as (w1 & E & Hd & Hh & Hq & Htm & Hn & [more Htk] & Hqq)
       end.
  all: rewrite E; cbn; cbn in Hd, Hh, Hq, Htm, Hn, Htk, Hqq.
  all: unfold returns, query_of; rewrite Hd, Hh, Hq, Htm, Hn, Htk, Hqq.
  all: rewrite ?deliveries_app, ?handled_app; cbn.
  all: rewrite ?app_nil_r, lookup_insert_eq, lookup_delete_eq; cbn.
  all: try (apply bool_decide_eq_false_1 in Hin;
            rewrite (remove_first_absent _ _ Hin)).
  all: repeat split; eauto; rewrite <- app_assoc; eauto.
Qed.

(** *** A stalled SCRAM exchange *)

Lemma stalled_connection_emit_error e : preserves scram_stalled (connection_emit_error e).
Proof.
  unfold_client; unfold effect. pres; (split; [reflexivity|]); cbn;
    rewrite ?client_finals_app; cbn; rewrite ?app_nil_r; reflexivity.
Qed.

Lemma handleAuthSASLContinue_stalled data w :
  ~ usable_password (password (client w)) ->
  scram_stalled w (final (_handleAuthSASLContinue data w)).
Proof.
  intros Hpw. unfold _handleAuthSASLContinue, the_session, try_catch. run.
  destruct (saslSession (client w)) as [session|]; run.
  - rewrite (continueSession_guard _ _ _ _ _ _ _ _ _ _ _ Hpw).
    destruct (negb _); [|destruct (is_string _)]; cbn; apply stalled_connection_emit_error.
  - apply stalled_connection_emit_error.
Qed.

(** *** The listeners of the connection's 'end' *)

Lemma on_connection_end_expected w :
  _ending (client w) = true ->
  exists w', on_connection_end w = Return tt w' /\
    deliveries (trace w') = deliveries (trace w) /\
    end_listeners w' = end_listeners w /\
    _ending (client w') = true.
Proof.
  intros He. unfold on_connection_end, clearConnectionTimeout. run. rewrite He.
  destruct (connectionTimeoutHandle (client w)) as [t|]; run.
  all: match goal with |- context [_errorAllQueries ?e ?w0] =>
         destruct (errorAllQueries_run e w0) as (w1 & E & _ & Htr & Hl & _ & Hen)
       end.
  all: rewrite E; cbn; cbn in *; rewrite Hen, He; cbn.
  all: eexists; split; [reflexivity|]; cbn; rewrite Htr, Hl, Hen, ?deliveries_app; cbn.
  all: rewrite ?app_nil_r; auto.
Qed.

Lemma run_end_listeners ls : forall w,
  _ending (client w) = true -> end_listeners w = ls ->
  exists w',
    forEach ls (fun l =>
      modify (fun w => set_end_listeners (remove_listener l (end_listeners w)) w) ;;
      run_end_listener l) w = Return tt w' /\
    deliveries (trace w') = deliveries (trace w) ++ omap completion ls /\
    end_listeners w' = [] /\ _ending (client w') = true.
Proof.
  induction ls as [|l ls IH]; intros w He Hl; cbn [forEach].
  - eexists; split; [reflexivity|]. cbn. rewrite app_nil_r. auto.
  - run. rewrite Hl. cbn. rewrite bool_decide_eq_true_2 by reflexivity.
    destruct l as [|f|p]; cbn [run_end_listener].
    + match goal with |- context [on_connection_end ?w0] =>
        destruct (on_connection_end_expected w0 He) as (w1 & E & Hd & Hls & He1)
      end.
      rewrite E. destruct (IH w1 He1 Hls) as (w2 & E2 & Hd2 & Hl2 & He2).
      exists w2. split; [exact E2|]. rewrite Hd2, Hd. cbn. auto.
    + run.
      match goal with |- context [forEach ls _ ?w0] =>
        destruct (IH w0 He eq_refl) as (w2 & E2 & Hd2 & Hl2 & He2)
      end.
      exists w2. split; [exact E2|]. rewrite Hd2. cbn. rewrite deliveries_app.
      cbn. rewrite <- app_assoc. auto.
    + run.
      match goal with |- context [forEach ls _ ?w0] =>
        destruct (IH w0 He eq_refl) as (w2 & E2 & Hd2 & Hl2 & He2)
      end.
      exists w2. split; [exact E2|]. rewrite Hd2. cbn. rewrite deliveries_app.
      cbn. rewrite <- app_assoc. auto.
Qed.

End ClientFacts.

(** *** The theorems about the client *)

Section ClientTheorems.
Context {runtime : Runtime}.

(** C1: on a client that is not queryable or is ending, query(q) with a
    non-null argument returns, changes no field of the client (so the queue
    is as it was and q is not in it through this call), calls no handler and
    no callback during the call, and schedules for a later tick the one task
    that hands q the error: "not queryable" when the connection failed,
    "Client was closed" when the client is ending and still queryable. *)
Theorem query_refused config w :
  config <> ArgNull ->
  _queryable (client w) = false \/ _ending (client w) = true ->
  returns (query config w) /\
  client (final (query config w)) = client w /\
  ticks (final (query config w)) = ticks w ++ [THandleError (submitted config w) (refusal w)] /\
  handled (trace (final (query config w))) = handled (trace w) /\
  deliveries (trace (final (query config w))) = deliveries (trace w) /\
  (forall w2,
     handled (trace (final (run_task (THandleError (submitted config w) (refusal w)) w2)))
     = handled (trace w2) ++ [(submitted config w, refusal w)]).
Proof.
  intros Hnull Hstate. unfold refusal, returns.
  assert (Hcases : _queryable (client w) = false \/
                   _queryable (client w) = true /\ _ending (client w) = true).
  { destruct (_queryable (client w)); [right | left]; intuition congruence. }
  clear Hstate.
  assert (Hlater : forall q e w2,
             handled (trace (final (run_task (THandleError q e) w2)))
             = handled (trace w2) ++ [(q, e)])
    by (intros; apply handleError_handled).
  destruct config as [|q values|qt fresh]; [congruence| |]; unfold query; run.
  all: destruct Hcases as [Hq | [Hq He]].
  all: repeat (rewrite ?Hq, ?He; cbn;
               match goal with
               | |- context [if ?b then _ else _] => destruct b eqn:?; run
               end).
  all: rewrite ?Hq, ?He; cbn.
  all: rewrite ?handled_app, ?deliveries_app; cbn; rewrite ?app_nil_r.
  all: split; [eauto|]; repeat split; try reflexivity; apply Hlater.
Qed.

(** C2: when the read timeout of a query that has a callback fires while
    the timer is still armed, the first occurrence of the query is taken out
    of the queue (so a query that was queued once is no longer queued), its
    callback is invoked once, with the "Query read timeout" error, and its
    callback slot becomes a function that does nothing: from then on, as
    long as the same object is not handed to query again, an error or a
    completion for that query invokes no callback and settles no promise. *)
Theorem query_read_timeout t q k w :
  timers w !! t = Some (ReadTimeout q k) ->
  plain k ->
  allocated q w ->
  returns (fire t w) /\
  deliveries (trace (final (fire t w)))
    = deliveries (trace w) ++ delivery k (Some timeout_error) /\
  _queryQueue (client (final (fire t w))) =
    (if readyForQuery (client w) then tail (remove_first q (_queryQueue (client w)))
     else remove_first q (_queryQueue (client w))) /\
  ((count_occ qref_eq_dec (_queryQueue (client w)) q <= 1)%nat ->
   q ∉ _queryQueue (client (final (fire t w)))) /\
  timers (final (fire t w)) !! t = None /\
  (exists more, ticks (final (fire t w)) = ticks w ++ [THandleError q timeout_error] ++ more) /\
  (forall inputs, Forall (fun i => ~ resubmits q i) inputs ->
     silenced q (run inputs (final (fire t w))) /\
     forall err,
       deliveries (trace (final (handleError q err (run inputs (final (fire t w))))))
       = deliveries (trace (run inputs (final (fire t w)))) /\
       deliveries (trace (final (handleReadyForQuery q (run inputs (final (fire t w))))))
       = deliveries (trace (run inputs (final (fire t w))))).
Proof.
  intros Ht Hk Ha.
  destruct (read_timeout_fires t q k w Ht Hk)
    as (H1 & H2 & H3 & H4 & H5 & H6 & H7 & H8).
  repeat apply conj; try assumption.
  - intros Hc. rewrite H8. pose proof (remove_first_once _ _ Hc) as Hn.
    destruct (readyForQuery (client w)); [|exact Hn].
    intros Hin. apply Hn, elem_of_tail, Hin.
  - intros inputs Hin.
    assert (Hs : silenced q (run inputs (final (fire t w)))).
    { eapply (preserves_run (stays_silenced q) (fun i => ~ resubmits q i)).
      - intros i Hi. apply silenced_step, Hi.
      - exact Hin.
      - split; [exact H5|]. unfold allocated in *. rewrite H6. exact Ha. }
    split; [exact Hs|]. intros err. apply silenced_completions, Hs.
Qed.

(** C3 (as the code has it): a socket error fails the active and the
    queued queries on later ticks, and so does a preflight error of submit:
    handleError is not called inside the handler, a task is scheduled that
    calls it.  A backend ErrorResponse for the active query is different:
    the listener of the message clears the active query and calls its
    handleError at once.  No other listener of the connection calls
    handleError. *)
Theorem failures_delivery :
  (forall err w, _connecting (client w) = false ->
     handled (trace (final (_handleErrorEvent err w))) = handled (trace w) /\
     ticks (final (_handleErrorEvent err w))
       = ticks w ++ map (fun q => THandleError q err) (failed_queries w)) /\
  (forall q rest err w,
     readyForQuery (client w) = true -> _queryQueue (client w) = q :: rest ->
     preflight (query_of w q) = Some err ->
     handled (trace (final (_pulseQueryQueue w))) = handled (trace w) /\
     ticks (final (_pulseQueryQueue w)) = ticks w ++ [TSubmitError q err]) /\
  (forall q err w,
     handled (trace (final (run_task (THandleError q err) w))) = handled (trace w) ++ [(q, err)] /\
     handled (trace (final (run_task (TSubmitError q err) w))) = handled (trace w) ++ [(q, err)]) /\
  (forall msg q w, _connecting (client w) = false -> _activeQuery (client w) = Some q ->
     handled (trace (final (_handleErrorMessage msg w))) = handled (trace w) ++ [(q, msg)] /\
     ticks (final (_handleErrorMessage msg w)) = ticks w /\
     client (final (_handleErrorMessage msg w)) = set_activeQuery None (client w)) /\
  (forall ev w, (forall msg, ev <> errorMessage msg) ->
     handled (trace (final (on_event ev w))) = handled (trace w)).
Proof.
  repeat apply conj.
  - intros err w Hc. split; [apply handled_handleErrorEvent|].
    unfold _handleErrorEvent. run. rewrite Hc. run.
    destruct (errorAllQueries_run err (on_client (set_queryable false) w))
      as (w1 & E & Ht & Htr & _ & Hl & _).
    rewrite E. unfold emit. run.
    destruct (error_listener w1); cbn; rewrite Ht; reflexivity.
  - intros q rest err w Hr Hq Hp. split; [apply handled_pulse|].
    unfold _pulseQueryQueue, submit. run. rewrite Hr, Hq. run.
    unfold query_of in *. cbn. rewrite Hp. reflexivity.
  - intros q err w. split; [apply handleError_handled|].
    cbn [run_task]. rewrite final_bind.
    pose proof (handleError_handled q err w) as H.
    destruct (handleError q err w) as [[] w1|e w1]; cbn in H; [|exact H].
    rewrite <- H.
    match goal with |- handled (trace (final (?m ?w'))) = _ =>
      assert (P : preserves same_handled m)
        by (unfold_client; unfold effect; pres; close_handled);
      exact (P w')
    end.
  - intros msg q w Hc Ha. unfold _handleErrorMessage. run. rewrite Hc, Ha.
    unfold bind. cbn. split; [|split].
    + rewrite handleError_handled. reflexivity.
    + rewrite (ticks_handleError q msg _). reflexivity.
    + rewrite (client_handleError q msg _). reflexivity.
  - intros ev w Hev. apply handled_on_event. exact Hev.
Qed.

(* end() only raises _ending, so calling it again changes no field of the
   client.  With no callback, on a client that never connected or that has
   already ended, it returns an already resolved promise and does nothing
   to the transport.  On a client that connected and has not ended, it
   destroys the stream when there is an active query or the client is not
   queryable, and otherwise ends the connection with Terminate; its
   callback, or the promise it returns, is registered for the connection's
   'end', and that event completes every end that is pending, once each. *)
Lemma end_shutdown :
  (forall cb w, client (final (end_ cb w)) = set_ending true (client w)) /\
  (forall cb cb' w,
     client (final (end_ cb' (final (end_ cb w)))) = client (final (end_ cb w))) /\
  (forall w, con_connecting w = false \/ _ended (client w) = true ->
     end_ None w = Return EndResolved (on_client (set_ending true) w)) /\
  (forall cb w, con_connecting w = true -> _ended (client w) = false ->
     exists r w', end_ cb w = Return r w' /\
       trace w' = trace w ++ [shutdown_action w] /\
       match cb with
       | Some f => r = EndUndefined /\ end_listeners w' = end_listeners w ++ [EndCallback f]
       | None => r = EndPromise (next_promise w) /\
                 end_listeners w' = end_listeners w ++ [EndResolve (next_promise w)]
       end) /\
  (forall w, _ending (client w) = true ->
     returns (on_event end_event w) /\
     deliveries (trace (final (on_event end_event w)))
       = deliveries (trace w) ++ omap completion (end_listeners w) /\
     end_listeners (final (on_event end_event w)) = []).
Proof.
  assert (H1 : forall cb w, client (final (end_ cb w)) = set_ending true (client w)).
  { intros cb w. unfold end_, once_end. run.
    destruct (negb (con_connecting w) || _ended (client w)); destruct cb; run;
      try reflexivity;
      destruct (bool_decide (_activeQuery (client w) <> None)
                || negb (_queryable (client w))); reflexivity. }
  repeat apply conj.
  - exact H1.
  - intros cb cb' w. rewrite !H1. destruct (client w); reflexivity.
  - intros w Hn. unfold end_. run.
    assert (negb (con_connecting w) || _ended (client w) = true) as ->.
    { destruct Hn as [-> | ->]; [reflexivity | apply orb_true_r]. }
    reflexivity.
  - intros cb w Hc He. unfold end_, once_end, shutdown_action. run.
    rewrite Hc, He. cbn.
    destruct (bool_decide (_activeQuery (client w) <> None) || negb (_queryable (client w)));
      destruct cb; run; eauto 10.
  - intros w He. change (on_event end_event w) with (emit_end w).
    destruct (run_end_listeners (end_listeners w) w He eq_refl) as (w' & E & Hd & Hl & _).
    change (emit_end w = Return tt w') in E.
    rewrite E. cbn. unfold returns. eauto.
Qed.

(** C8: end(cb) with a callback on a client that never connected, or that
    has already ended, calls cb at once but does not stop there, as end()
    without a callback does by returning a resolved promise: it goes on to
    the transport, ending the connection or destroying the stream, and
    registers cb for the connection's 'end' as well, so that cb is called
    once more when that event comes.  The claim, and the comment in the
    code ("if we have never connected, then end is a noop, callback
    immediately"), have it call back and leave the transport alone. *)
Theorem end_callback_not_a_noop f w :
  con_connecting w = false \/ _ended (client w) = true ->
  (exists w', end_ (Some f) w = Return EndUndefined w' /\
     client w' = set_ending true (client w) /\
     trace w' = trace w ++ [Called f None; shutdown_action w] /\
     end_listeners w' = end_listeners w ++ [EndCallback f]) /\
  end_ None w = Return EndResolved (on_client (set_ending true) w).
Proof.
  intros Hn.
  assert (E : negb (con_connecting w) || _ended (client w) = true).
  { destruct Hn as [-> | ->]; [reflexivity | apply orb_true_r]. }
  split.
  - unfold end_, once_end, shutdown_action. run. rewrite E. run.
    destruct (bool_decide (_activeQuery (client w) <> None) || negb (_queryable (client w)));
      run; (eexists; split; [reflexivity|]); cbn; rewrite <- ?app_assoc;
      repeat split; reflexivity.
  - unfold end_. run. rewrite E. reflexivity.
Qed.

(** C9 (as the code has it): processID and secretKey change only when a
    BackendKeyData message arrives: no other call, event, tick or timer
    changes them, in one step or in a run; each BackendKeyData message sets
    both to what it carries, the first one and any later one alike. *)
Theorem keys_follow_backendKeyData :
  (forall i w, ~ is_backendKeyData i -> same_keys w (final (step i w))) /\
  (forall inputs w, Forall (fun i => ~ is_backendKeyData i) inputs ->
     same_keys w (run inputs w)) /\
  (forall pid key w, listening w = true ->
     returns (step (ConnectionEmits (backendKeyData pid key)) w) /\
     processID (client (final (step (ConnectionEmits (backendKeyData pid key)) w))) = pid /\
     secretKey (client (final (step (ConnectionEmits (backendKeyData pid key)) w))) = key).
Proof.
  repeat apply conj.
  - intros i w Hi. apply keys_step, Hi.
  - intros inputs w Hall.
    apply (preserves_run same_keys (fun i => ~ is_backendKeyData i)); [|exact Hall].
    intros i Hi. apply keys_step, Hi.
  - intros pid key w Hl. unfold returns. cbn [step]. unfold on_event. run.
    rewrite Hl. run. eauto.
Qed.

(** C10: when the password is not a string or is the empty string,
    continueSession throws an error that depends on the session and the
    password only: the server-first message is not parsed and no hash
    function is consulted.  In the client, the listener of
    AuthenticationSASLContinue then leaves the SCRAM session as it is and
    hands no client-final message to the connection. *)
Theorem continueSession_needs_password :
  (forall session password, ~ usable_password password ->
     exists e, forall f1 f2 f3 f4 f5 f6 f7 serverData stream,
       continueSession f1 f2 f3 f4 f5 f6 f7 session password serverData stream = Throw e) /\
  (forall data w, ~ usable_password (password (client w)) ->
     scram_stalled w (final (on_event (authenticationSASLContinue data) w))).
Proof.
  split.
  - intros session password Hpw.
    exists (if negb (bool_decide (message session = str "SASLInitialResponse"))
            then Error (str "SASL: Last message was not SASLInitialResponse")
            else if is_string password
            then Error (str "SASL: SCRAM-SERVER-FIRST-MESSAGE: client password must be a non-empty string")
            else Error (str "SASL: SCRAM-SERVER-FIRST-MESSAGE: client password must be a string")).
    intros. rewrite continueSession_guard by exact Hpw.
    destruct (negb _); [|destruct (is_string _)]; reflexivity.
  - intros data w Hpw. unfold on_event. run.
    destruct (listening w); [|split; reflexivity].
    apply handleAuthSASLContinue_stalled, Hpw.
Qed.

End ClientTheorems.

(** ** The client, further properties *)

(** *** Running client code towards a postcondition *)

Lemma wp_ret {A} (a : A) Q E w : Q a w -> wp (mret a) Q E w.
Proof. exact (fun H => H). Qed.

Lemma wp_throw {A} e (Q : A -> World -> Prop) E w : E w -> wp (throw e) Q E w.
Proof. exact (fun H => H). Qed.

Lemma wp_get Q E w : Q w w -> wp get Q E w.
Proof. exact (fun H => H). Qed.

Lemma wp_modify f Q E w : Q tt (f w) -> wp (modify f) Q E w.
Proof. exact (fun H => H). Qed.

Lemma wp_bind {A B} (m : M A) (k : A -> M B) Q E w :
  wp m (fun a w' => wp (k a) Q E w') E w -> wp (m ≫= k) Q E w.
Proof. unfold wp, mbind, M_bind, bind. destruct (m w); exact (fun H => H). Qed.

Lemma wp_try_catch {A} (m : M A) h Q E w :
  wp m Q (fun w' => forall e, wp (h e) Q E w') w -> wp (try_catch m h) Q E w.
Proof. unfold wp, try_catch. destruct (m w); [exact (fun H => H) | intros H; apply H]. Qed.

(* a call that is not looked into: the world it ends in is [final (m w)] *)
Lemma wp_final (m : M unit) (Q : unit -> World -> Prop) E w :
  Q tt (final (m w)) -> E (final (m w)) -> wp m Q E w.
Proof. unfold wp. destruct (m w) as [[] w'|e w']; cbn; auto. Qed.

Lemma wp_forEach {A} (l : list A) (f : A -> M unit) (I : World -> Prop)
    (Q : unit -> World -> Prop) (E : World -> Prop) w :
  I w ->
  (forall x w', I w' -> wp (f x) (fun _ => I) E w') ->
  (forall w', I w' -> Q tt w') ->
  wp (forEach l f) Q E w.
Proof.
  intros Hw Hf HQ. revert w Hw. induction l as [|x l IH]; intros w Hw; cbn.
  - apply HQ, Hw.
  - apply wp_bind. specialize (Hf x w Hw). unfold wp in *.
    destruct (f x w) as [[] w'|e w']; [apply IH; exact Hf | exact Hf].
Qed.

Lemma wp_post {A} (m : M A) (I : World -> Prop) w :
  wp m (fun _ => I) I w -> I (final (m w)).
Proof. unfold wp. destruct (m w); exact (fun H => H). Qed.

#[local] Arguments wp : simpl never.

Lemma wp_update f Q E w : Q tt (on_client f w) -> wp (update f) Q E w.
Proof. exact (fun H => H). Qed.

Lemma wp_effect e Q E w : Q tt (set_trace (trace w ++ [e]) w) -> wp (effect e) Q E w.
Proof. exact (fun H => H). Qed.

Lemma wp_nextTick t Q E w : Q tt (set_ticks (ticks w ++ [t]) w) -> wp (nextTick t) Q E w.
Proof. exact (fun H => H). Qed.

Lemma wp_modify_query q f Q E w :
  Q tt (set_queries (<[q := f (query_of w q)]> (queries w)) w) ->
  wp (modify_query q f) Q E w.
Proof. exact (fun H => H). Qed.

Lemma wp_forEach_nextTick (T : qref -> Task) l Q E w :
  Q tt (set_ticks (ticks w ++ map T l) w) ->
  wp (forEach l (fun q => nextTick (T q))) Q E w.
Proof. unfold wp. rewrite forEach_nextTick. exact (fun H => H). Qed.

Lemma submits_app tr1 tr2 : submits (tr1 ++ tr2) = submits tr1 ++ submits tr2.
Proof. unfold submits. apply omap_app. Qed.

Lemma emitted_app tr1 tr2 : emitted (tr1 ++ tr2) = emitted tr1 ++ emitted tr2.
Proof. unfold emitted. apply omap_app. Qed.

Lemma connect_events_app tr1 tr2 :
  connect_events (tr1 ++ tr2) = connect_events tr1 ++ connect_events tr2.
Proof. unfold connect_events. rewrite emitted_app. apply omap_app. Qed.

#[local] Instance beside_callbacks_preorder : PreOrder beside_callbacks.
Proof.
  split.
  - intros w. unfold beside_callbacks. auto 15.
  - intros w1 w2 w3 H1 H2. unfold beside_callbacks in *.
    destruct H1 as (?&?&?&?&?&?&?&?&?&?), H2 as (?&?&?&?&?&?&?&?&?&?).
    repeat apply conj; congruence.
Qed.

Lemma invoke_beside cb err : preserves beside_callbacks (invoke cb err).
Proof.
  induction cb; simpl; unfold clearTimeout, effect; pres;
    unfold beside_callbacks; cbn; auto 15.
Qed.

Lemma invoke_client cb err w : client (final (invoke cb err w)) = client w.
Proof. apply (invoke_beside cb err w). Qed.

Lemma invoke_queries cb err w : queries (final (invoke cb err w)) = queries w.
Proof. apply (invoke_beside cb err w). Qed.

Lemma invoke_ticks cb err w : ticks (final (invoke cb err w)) = ticks w.
Proof. apply (invoke_beside cb err w). Qed.

Lemma invoke_next_query cb err w : next_query (final (invoke cb err w)) = next_query w.
Proof. apply (invoke_beside cb err w). Qed.

Lemma invoke_end_listeners cb err w :
  end_listeners (final (invoke cb err w)) = end_listeners w.
Proof. apply (invoke_beside cb err w). Qed.

Lemma invoke_error_listener cb err w :
  error_listener (final (invoke cb err w)) = error_listener w.
Proof. apply (invoke_beside cb err w). Qed.

(* invoking a callback adds [invoke_trace] to the trace, up to the point
   where the callback slot holds no function *)
Lemma invoke_trace_prefix cb err : forall w,
  exists done, trace (final (invoke cb err w)) = trace w ++ done /\
    submits done = [] /\ emitted done = [] /\ handled done = [] /\
    (returns (invoke cb err w) -> done = invoke_trace cb err).
Proof.
  induction cb as [| | | |t k IH]; intros w; cbn [invoke invoke_trace].
  - exists []. cbn. rewrite app_nil_r. repeat split; auto.
  - eexists. cbn. repeat split; reflexivity.
  - eexists. cbn. repeat split; reflexivity.
  - exists []. cbn. rewrite app_nil_r. repeat split; auto.
  - unfold clearTimeout. run.
    match goal with |- context [invoke k err ?w0] => destruct (IH w0) as (done & E & H1 & H2 & H3 & H4) end.
    exists (ClearTimeout t :: done). cbn in E |- *.
    destruct (invoke k err _) as [a w'|e w'] eqn:Ek; cbn in E |- *; rewrite E, <- app_assoc; cbn.
    + repeat split; auto. intros _. f_equal. apply H4. eexists _, _. reflexivity.
    + repeat split; auto. intros (a & w2 & H). discriminate H.
Qed.

Lemma invoke_submits cb err w :
  submits (trace (final (invoke cb err w))) = submits (trace w).
Proof.
  destruct (invoke_trace_prefix cb err w) as (done & -> & H & _).
  rewrite submits_app, H, app_nil_r. reflexivity.
Qed.

Lemma invoke_emitted cb err w :
  emitted (trace (final (invoke cb err w))) = emitted (trace w).
Proof.
  destruct (invoke_trace_prefix cb err w) as (done & -> & _ & H & _).
  rewrite emitted_app, H, app_nil_r. reflexivity.
Qed.

Lemma invoke_handled cb err w :
  handled (trace (final (invoke cb err w))) = handled (trace w).
Proof.
  destruct (invoke_trace_prefix cb err w) as (done & -> & _ & _ & H & _).
  rewrite handled_app, H, app_nil_r. reflexivity.
Qed.

Lemma invoke_connect_events cb err w :
  connect_events (trace (final (invoke cb err w))) = connect_events (trace w).
Proof. unfold connect_events. rewrite invoke_emitted. reflexivity. Qed.

Lemma submits_snoc tr e :
  submits (tr ++ [e]) = submits tr ++ match e with QSubmit q => [q] | _ => [] end.
Proof. rewrite submits_app. destruct e; reflexivity. Qed.

Lemma emitted_snoc tr e :
  emitted (tr ++ [e]) = emitted tr ++ match e with Emit ev => [ev] | _ => [] end.
Proof. rewrite emitted_app. destruct e; reflexivity. Qed.

Lemma connect_events_snoc tr e :
  connect_events (tr ++ [e]) =
  connect_events tr ++ match e with Emit EConnect => [EConnect] | _ => [] end.
Proof.
  rewrite connect_events_app. destruct e; try reflexivity.
  match goal with ev : ClientEvent |- _ => destruct ev; reflexivity end.
Qed.

(* the methods of the client, down to the operations on the state and the
   callbacks *)
Ltac unfold_methods :=
  unfold step, discard, on_event, emit_end, run_end_listener, fire, read_timeout,
    connect_timeout, tick, run_task, end_, once_end, ref, unref, cancel,
    cancel_connected, md5_hashed, pgpass_found, password_rejected, password_resolved,
    connect_, _connect, on_connection_end, query,
    _handleAuthCleartextPassword, _handleAuthMD5Password, _handleAuthSASL,
    _handleAuthSASLContinue, _handleAuthSASLFinal, the_session,
    _handleBackendKeyData, _handleReadyForQuery, _handleErrorMessage,
    _handleRowDescription, _handleDataRow, _handlePortalSuspended, _handleEmptyQuery,
    _handleCommandComplete, _handleParseComplete, _handleCopyInResponse,
    _handleCopyData, _handleNotification, _handleNotice, delegate,
    _getPassword, use_password, connection_emit_error, _handleErrorEvent,
    _handleErrorWhileConnecting, open_connection, con_connect, _pulseQueryQueue,
    _errorAllQueries,
    invoke_connect, handleError, handleReadyForQuery, submit, emit,
    clearConnectionTimeout, new_promise, setTimeout, clearTimeout.

(* one step of client code towards the postcondition *)
Ltac wp_step :=
  lazymatch goal with
  | |- wp (mret _) _ _ _ => apply wp_ret
  | |- wp (ret _) _ _ _ => apply (wp_ret _)
  | |- wp (throw _) _ _ _ => apply wp_throw
  | |- wp get _ _ _ => apply wp_get
  | |- wp (modify _) _ _ _ => apply wp_modify
  | |- wp (update _) _ _ _ => apply wp_update
  | |- wp (effect _) _ _ _ => apply wp_effect
  | |- wp (nextTick _) _ _ _ => apply wp_nextTick
  | |- wp (modify_query _ _) _ _ _ => apply wp_modify_query
  | |- wp (_ ≫= _) _ _ _ => apply wp_bind
  | |- wp (try_catch _ _) _ _ _ => apply wp_try_catch
  | |- wp (when ?b _) _ _ _ => destruct b eqn:?; cbn [when]
  | |- wp (lift ?r) _ _ _ => destruct r eqn:?; cbn [lift]
  | |- wp (invoke _ _) _ _ _ => apply wp_final
  | |- wp (forEach _ (fun q => nextTick _)) _ _ _ => apply wp_forEach_nextTick
  | |- wp (match ?x with _ => _ end) _ _ _ => destruct x eqn:?
  | |- wp (let '(_, _) := ?x in _) _ _ _ => destruct x eqn:?
  | |- forall _, _ => intro
  end; cbv beta.

Ltac wp_run := repeat (wp_step; cbn).

(* what a callback left alone, rewritten to what it was *)
Ltac past_callbacks :=
  rewrite ?invoke_client, ?invoke_queries, ?invoke_ticks, ?invoke_next_query,
    ?invoke_end_listeners, ?invoke_error_listener.

Ltac past_callbacks_everywhere :=
  repeat match goal with
         | H : context [final (invoke _ _ _)] |- _ =>
             progress (rewrite ?invoke_client, ?invoke_queries, ?invoke_ticks,
                         ?invoke_next_query, ?invoke_end_listeners,
                         ?invoke_error_listener in H; cbn in H)
         end;
  repeat match goal with
         | H : _ || _ = false |- _ => apply orb_false_elim in H; destruct H
         end.

(* the flags of the client that a branch has fixed *)
Ltac known_flags :=
  repeat match goal with
         | H : ?f (client ?w) = _ |- context [?f (client ?w)] => rewrite H
         end.

(* a branch whose tests contradict each other *)
Ltac absurd_branch :=
  match goal with
  | H : _ = _ |- _ => cbn in H; discriminate H
  end.

Ltac known_flags_in Hx :=
  repeat match goal with
         | H : ?f (client ?w) = _ |- _ => progress rewrite H in Hx
         end.

Section MoreClientFacts.
Context {runtime : Runtime}.

#[local] Arguments submits : simpl never.
#[local] Arguments emitted : simpl never.
#[local] Arguments connect_events : simpl never.
#[local] Arguments handled : simpl never.
#[local] Arguments deliveries : simpl never.
#[local] Arguments credentials : simpl never.

Lemma run_invariant (I : World -> Prop) (P : Input -> Prop) :
  (forall i w, P i -> I w -> wp (step i) (fun _ => I) I w) ->
  forall inputs w, Forall P inputs -> I w -> I (run inputs w).
Proof.
  intros Hstep inputs w Hall. revert w.
  induction Hall as [|i inputs Hi _ IH]; intros w Hw; cbn [run]; [exact Hw|].
  apply IH, wp_post, Hstep; assumption.
Qed.


(** *** The bookkeeping of the client *)

Ltac consistent_leaf Hw :=
  unfold consistent in *; cbn; past_callbacks; cbn;
  first
    [ exact Hw
    | absurd_branch
    | past_callbacks_everywhere; destruct Hw as [Hw1 Hw2]; known_flags;
      known_flags_in Hw1; cbn in Hw1 |- *;
      split;
      [ first [exact Hw1 | reflexivity | congruence | (rewrite andb_false_r; reflexivity)]
      | first [exact Hw2
              | intros Ha;
                first [congruence | split; reflexivity | apply Hw2; congruence] ] ] ].

Lemma consistent_wp i w :
  ~ is_setter i -> consistent w -> wp (step i) (fun _ => consistent) consistent w.
Proof.
  intros Hi Hw.
  destruct i; try (destruct Hi; eexists; reflexivity); try destruct ev.
  all: unfold_methods; wp_run.
  all: try solve [consistent_leaf Hw].
  apply (wp_forEach _ _ consistent); [exact Hw | | auto].
  clear w Hw. intros l w Hw. wp_run.
  all: solve [consistent_leaf Hw].
Qed.

(** X9: the bookkeeping of the client stays consistent: whatever is called
    on it and whatever the connection, the scheduler and the timers do
    (the deprecated setter of activeQuery apart), the client is never
    connecting and connected at once, and as long as a query is active the
    client does not count as ready for the next query and has executed. *)
Theorem client_stays_consistent inputs w :
  consistent w ->
  Forall (fun i => ~ is_setter i) inputs ->
  consistent (run inputs w).
Proof.
  intros Hw Hall.
  apply (run_invariant consistent (fun i => ~ is_setter i)); try assumption.
  intros. apply consistent_wp; assumption.
Qed.

(** *** The 'connect' event *)

Ltac announced_leaf Hw :=
  unfold announced_once in *; cbn; past_callbacks;
  rewrite ?connect_events_snoc, ?invoke_connect_events; cbn;
  rewrite ?connect_events_snoc, ?invoke_connect_events; cbn;
  rewrite ?app_nil_r;
  first
    [ exact Hw
    | absurd_branch
    | past_callbacks_everywhere; destruct Hw as [Hw1 Hw2]; known_flags; cbn;
      first
        [ split; [exact Hw1 | intros Ha; apply Hw2 in Ha; destruct Ha; split; congruence]
        | match type of Hw2 with
          | context [connect_events (trace ?w0)] =>
              let evs := fresh "evs" in
              remember (connect_events (trace w0)) as evs; destruct evs as [|? ?]
          end;
          [ split; [cbn; lia | intros _; split; reflexivity]
          | exfalso; destruct Hw2; [discriminate | congruence] ] ] ].

Lemma announced_once_wp i w :
  announced_once w -> wp (step i) (fun _ => announced_once) announced_once w.
Proof.
  intros Hw.
  destruct i; try destruct ev.
  all: unfold_methods; wp_run.
  all: try solve [announced_leaf Hw].
  apply (wp_forEach _ _ announced_once); [exact Hw | | auto].
  clear w Hw. intros l w Hw. wp_run.
  all: solve [announced_leaf Hw].
Qed.

(** X10: a client announces 'connect' at most once in its life, whatever
    is called on it and whatever the connection, the scheduler and the
    timers do; and once it has announced it, it is connected and no longer
    connecting. *)
Theorem connect_announced_once cfg pw inputs :
  announced_once (run inputs (new_world cfg pw)).
Proof.
  apply (run_invariant announced_once (fun _ => True)).
  - intros. apply announced_once_wp. assumption.
  - apply Forall_forall. auto.
  - split; [cbv; lia | intros H; destruct H; reflexivity].
Qed.

(** *** The queue *)




(** *** A client that lost its connection *)

Ltac unqueryable_leaf Hw :=
  unfold unqueryable in *; cbn; past_callbacks;
  rewrite ?submits_snoc, ?invoke_submits; cbn;
  rewrite ?submits_snoc, ?invoke_submits; cbn; rewrite ?app_nil_r;
  first
    [ exact Hw
    | absurd_branch
    | past_callbacks_everywhere;
      let Hq := fresh "Hq" in let Hl := fresh "Hl" in let Hs := fresh "Hs" in
      destruct Hw as [[Hq Hl] Hs];
      try rewrite Hq in *; try rewrite Hl in *; cbn;
      first [absurd_branch | repeat split; auto; congruence] ].

Lemma unqueryable_wp s i w :
  unqueryable w /\ submits (trace w) = s ->
  wp (step i) (fun _ w' => unqueryable w' /\ submits (trace w') = s)
     (fun w' => unqueryable w' /\ submits (trace w') = s) w.
Proof.
  intros Hw.
  destruct i; try destruct ev.
  all: unfold_methods; wp_run.
  all: try solve [unqueryable_leaf Hw].
  apply (wp_forEach _ _ (fun w' => unqueryable w' /\ submits (trace w') = s));
    [exact Hw | | auto].
  clear w Hw. intros l w Hw. wp_run.
  all: solve [unqueryable_leaf Hw].
Qed.

(** X12: a client that is not queryable and has nothing queued stays so
    for good, and never submits a query again, whatever is called on it
    and whatever the connection, the scheduler and the timers do. *)
Theorem unqueryable_client_inert inputs w :
  unqueryable w ->
  unqueryable (run inputs w) /\
  submits (trace (run inputs w)) = submits (trace w).
Proof.
  intros Hw.
  apply (run_invariant
           (fun w' => unqueryable w' /\ submits (trace w') = submits (trace w))
           (fun _ => True)).
  - intros. apply unqueryable_wp. assumption.
  - apply Forall_forall. auto.
  - auto.
Qed.


(** *** The active query *)

Ltac active_leaf Hw :=
  unfold active_is_last in *; cbn; past_callbacks;
  rewrite ?submits_snoc, ?invoke_submits; cbn;
  rewrite ?submits_snoc, ?invoke_submits; cbn; rewrite ?app_nil_r;
  first
    [ exact Hw
    | absurd_branch
    | let q := fresh "q" in let H := fresh "H" in
      intros q H;
      first [ discriminate H
            | injection H as <-; apply last_snoc
            | past_callbacks_everywhere; apply Hw; congruence ] ].

Lemma active_is_last_wp i w :
  ~ is_setter i -> active_is_last w ->
  wp (step i) (fun _ => active_is_last) active_is_last w.
Proof.
  intros Hi Hw.
  destruct i; try (destruct Hi; eexists; reflexivity); try destruct ev.
  all: unfold_methods; wp_run.
  all: try solve [active_leaf Hw].
  apply (wp_forEach _ _ active_is_last); [exact Hw | | auto].
  clear w Hw. intros l w Hw. wp_run.
  all: solve [active_leaf Hw].
Qed.

(** X13: the active query of a client is always the query it submitted
    last: in every state a client reaches from its construction (the
    deprecated setter of activeQuery apart), if a query is active then it
    is the last one handed to the connection. *)
Theorem active_query_is_last_submitted cfg pw inputs :
  Forall (fun i => ~ is_setter i) inputs ->
  active_is_last (run inputs (new_world cfg pw)).
Proof.
  intros Hall.
  apply (run_invariant active_is_last (fun i => ~ is_setter i)); try assumption.
  - intros. apply active_is_last_wp; assumption.
  - intros q H. discriminate H.
Qed.

(** *** Flags that are never reset *)

#[local] Instance latched_preorder : PreOrder latched.
Proof.
  split.
  - intros w. unfold latched. auto 12.
  - intros w1 w2 w3 H1 H2. unfold latched in *.
    destruct H1 as (?&?&?&?&?&?&?&?), H2 as (?&?&?&?&?&?&?&?).
    repeat apply conj; intros; auto.
Qed.

Lemma latched_invoke cb err : preserves latched (invoke cb err).
Proof.
  induction cb; simpl; unfold clearTimeout, effect; pres;
    unfold latched; cbn; auto 12.
Qed.
Hint Resolve latched_invoke : pg.

Lemma latched_step i : preserves latched (step i).
Proof.
  destruct i; try destruct ev;
    unfold_client; unfold query, handleError, modify_query, effect;
    unfold_client; unfold effect; pres; unfold latched; cbn; auto 12.
Qed.

(** X14: the flags of the client are set once and for all: over every
    run, a client that is ending, ended, connected, failed while
    connecting or has executed stays so, a client that is not queryable
    never becomes queryable again, and the listeners stay attached to a
    connection that stays opened. *)
Theorem client_flags_latch inputs w : latched w (run inputs w).
Proof.
  apply (preserves_run latched (fun _ => True)).
  - intros i _. apply latched_step.
  - apply Forall_forall. auto.
Qed.

(** *** connect, called again *)

(** X15: connect on a client that is connecting or connected opens no
    second transport, arms no timer and registers no listener: it only
    replaces the stored connect callback by the new one and schedules, for
    a later tick, the call that hands the new callback (or the returned
    promise) the error "Client has already been connected". *)
Theorem connect_twice callback w :
  _connecting (client w) || _connected (client w) = true ->
  let cb := match callback with
            | Some f => CcUser f
            | None => CcPromise (next_promise w)
            end in
  let w' := final (connect_ callback w) in
  returns (connect_ callback w) /\
  client w' = set_connectionCallback (Some cb) (client w) /\
  trace w' = trace w /\ timers w' = timers w /\
  end_listeners w' = end_listeners w /\ con_connecting w' = con_connecting w /\
  ticks w' = ticks w ++ [TConnectError cb reuse_error] /\
  (forall w2, trace (final (run_task (TConnectError cb reuse_error) w2))
              = trace w2 ++ [connect_delivery cb (Some reuse_error)]).
Proof.
  intros H. destruct callback as [f|]; unfold connect_, _connect, returns; do 2 run;
    rewrite H; cbn; (split; [eauto|]); repeat split; intros w2; reflexivity.
Qed.

(** *** Errors while connecting *)

(** X16: while the client is connecting, the first error of the
    connection (a socket error or an ErrorResponse) sets _connectionError,
    clears the connect timer and goes to the connect callback, or to the
    'error' event when there is no callback, without touching the queries;
    every later error is dropped: the handler changes nothing at all. *)
Theorem connect_error_reported_once err ev w :
  ev = error_ err \/ ev = errorMessage err ->
  listening w = true -> _connecting (client w) = true ->
  (_connectionError (client w) = true -> on_event ev w = Return tt w) /\
  (_connectionError (client w) = false ->
   let w' := final (on_event ev w) in
   client w' = set_connectionError true (client w) /\
   ticks w' = ticks w /\
   timers w' = match connectionTimeoutHandle (client w) with
               | Some t => delete t (timers w)
               | None => timers w
               end /\
   match _connectionCallback (client w) with
   | Some cb =>
       deliveries (trace w') = deliveries (trace w) ++ [connect_delivery cb (Some err)] /\
       emitted (trace w') = emitted (trace w)
   | None =>
       deliveries (trace w') = deliveries (trace w) /\
       if error_listener w then emitted (trace w') = emitted (trace w) ++ [EError err]
       else on_event ev w = Raise err w'
   end).
Proof.
  intros Hev Hl Hc.
  destruct Hev as [-> | ->];
    unfold on_event, _handleErrorEvent, _handleErrorMessage,
      _handleErrorWhileConnecting, clearConnectionTimeout, clearTimeout, emit,
      invoke_connect;
    run; rewrite Hl; run; rewrite Hc; run.
  all: split; [intros ->; destruct w; reflexivity|].
  all: intros ->; run.
  all: destruct (connectionTimeoutHandle (client w)) as [t|]; run.
  all: destruct (_connectionCallback (client w)) as [[f|p]|]; run.
  all: try destruct (error_listener w); run.
  all: rewrite ?deliveries_app, ?emitted_app; cbn; rewrite ?app_nil_r.
  all: repeat split; reflexivity.
Qed.

(** *** cancel *)

Lemma count_occ_remove_first q l q' :
  count_occ qref_eq_dec (remove_first q l) q' =
    if decide (q' = q) then pred (count_occ qref_eq_dec l q)
    else count_occ qref_eq_dec l q'.
Proof.
  induction l as [|x l IH]; cbn.
  - destruct (decide (q' = q)); reflexivity.
  - destruct (decide (x = q)) as [->|Hx].
    + rewrite bool_decide_eq_true_2 by reflexivity.
      destruct (qref_eq_dec q q) as [_|Hn]; [|destruct (Hn eq_refl)].
      destruct (decide (q' = q)) as [->|Hq]; [reflexivity|].
      destruct (qref_eq_dec q q') as [E|_]; [destruct (Hq (eq_sym E)) | reflexivity].
    + rewrite bool_decide_eq_false_2 by exact Hx. cbn.
      destruct (qref_eq_dec x q) as [E|_]; [destruct (Hx E)|].
      destruct (qref_eq_dec x q') as [->|Hxq'].
      * destruct (decide (q' = q)) as [E|_]; [destruct (Hx E)|].
        rewrite IH. destruct (decide (q' = q)) as [E|_]; [destruct (Hx E) | reflexivity].
      * exact IH.
Qed.

(** X17: cancel of the active query changes nothing in the client: the
    cancelling client connects, and once connected sends the cancel message
    with the process id and the secret key that the client holds at that
    moment.  cancel of any other query sends nothing, leaves the active
    query alone and takes exactly one occurrence of the query, the first
    one, out of the queue; a query that is not queued leaves the queue as
    it is. *)
Theorem cancel_takes_one_out q w :
  let w' := final (cancel q w) in
  returns (cancel q w) /\
  (_activeQuery (client w) = Some q ->
   client w' = client w /\ trace w' = trace w ++ [ConOnConnectCancel] /\
   forall w2, trace (final (cancel_connected w2))
              = trace w2 ++ [ConCancel (processID (client w2)) (secretKey (client w2))]) /\
  (_activeQuery (client w) <> Some q ->
   trace w' = trace w /\
   _activeQuery (client w') = _activeQuery (client w) /\
   _queryQueue (client w') = remove_first q (_queryQueue (client w)) /\
   (forall q', count_occ qref_eq_dec (_queryQueue (client w')) q' =
               if decide (q' = q) then pred (count_occ qref_eq_dec (_queryQueue (client w)) q)
               else count_occ qref_eq_dec (_queryQueue (client w)) q') /\
   (q ∉ _queryQueue (client w) -> w' = w)).
Proof.
  unfold cancel, cancel_connected, returns. run.
  destruct (bool_decide (_activeQuery (client w) = Some q)) eqn:Ea; run.
  - apply bool_decide_eq_true_1 in Ea. split; [eauto|]. split; [|congruence].
    intros _. repeat split.
  - apply bool_decide_eq_false_1 in Ea. split; [|split; [congruence|]].
    { destruct (bool_decide _); cbn; eauto. }
    intros _.
    destruct (bool_decide (q ∈ _queryQueue (client w))) eqn:Eq; cbn.
    + apply bool_decide_eq_true_1 in Eq.
      repeat split; [intros q'; apply count_occ_remove_first | intros Hn; destruct (Hn Eq)].
    + apply bool_decide_eq_false_1 in Eq.
      rewrite (remove_first_absent _ _ Eq).
      repeat split. intros q'. destruct (decide (q' = q)) as [->|]; [|reflexivity].
      assert (H0 : count_occ qref_eq_dec (_queryQueue (client w)) q = 0%nat).
      { apply count_occ_not_In. intros Hin. apply Eq, list_elem_of_In, Hin. }
      rewrite H0. reflexivity.
Qed.

(** *** Credentials *)

Lemma credentials_app tr1 tr2 :
  credentials (tr1 ++ tr2) = credentials tr1 ++ credentials tr2.
Proof. unfold credentials. apply omap_app. Qed.

#[local] Instance no_credentials_preorder : PreOrder no_credentials.
Proof.
  split.
  - intros w. repeat split.
  - intros w1 w2 w3 (?&?&?) (?&?&?). repeat split; congruence.
Qed.

Lemma no_credentials_connection_emit_error e :
  preserves no_credentials (connection_emit_error e).
Proof.
  unfold_client; unfold effect. pres; unfold no_credentials; cbn;
    rewrite ?credentials_app; cbn; rewrite ?app_nil_r; auto.
Qed.


(** *** Backend messages without an active query *)

Lemma errorAllQueries_eq err w :
  _errorAllQueries err w =
  Return tt (on_client (set_queryQueue [])
               (on_client (set_activeQuery None)
                  (set_ticks (ticks w ++ map (fun q => THandleError q err) (failed_queries w))
                     w))).
Proof.
  unfold _errorAllQueries, failed_queries. run.
  destruct w as [c cfg cc ps qs nq tk tm nt np el li erl tr].
  destruct c as [a1 a2 a3 a4 a5 a6 active queue a9 a10 a11 a12 a13 a14 a15 a16 a17].
  cbn. destruct active as [q|]; run;
    rewrite (forEach_nextTick (fun q => THandleError q err)); cbn;
    rewrite <- ?app_assoc; reflexivity.
Qed.

Lemma handleErrorEvent_eq err w :
  _connecting (client w) = false ->
  _handleErrorEvent err w =
  let w1 := on_client (set_queryQueue [])
              (on_client (set_activeQuery None)
                 (set_ticks (ticks w ++ map (fun q => THandleError q err) (failed_queries w))
                    (on_client (set_queryable false) w))) in
  if error_listener w then Return tt (set_trace (trace w ++ [Emit (EError err)]) w1)
  else Raise err w1.
Proof.
  intros Hc. unfold _handleErrorEvent, emit. run. rewrite Hc. run.
  rewrite errorAllQueries_eq. cbn. destruct (error_listener w); reflexivity.
Qed.

(** X19: a backend message for a query that arrives while no query is
    active: RowDescription, DataRow, PortalSuspended, EmptyQuery,
    CopyInResponse and CopyData make the listener throw a TypeError and
    change nothing; CommandComplete and ParseComplete are taken for a
    broken connection instead: on a client that is not connecting they make
    it unqueryable, fail every queued query on a later tick with the error
    "Received unexpected ... message from backend." and emit that error. *)
Theorem message_without_active_query ev w :
  listening w = true -> _activeQuery (client w) = None ->
  (delegated ev = true -> exists msg, on_event ev w = Raise (TypeError msg) w) /\
  (forall text, checked_message ev = Some text -> _connecting (client w) = false ->
   let err := unexpected_message text in
   let w' := final (on_event ev w) in
   _queryable (client w') = false /\ _queryQueue (client w') = [] /\
   ticks w' = ticks w ++ map (fun q => THandleError q err) (_queryQueue (client w)) /\
   parsedStatements w' = parsedStatements w /\
   if error_listener w then emitted (trace w') = emitted (trace w) ++ [EError err]
   else on_event ev w = Raise err w').
Proof.
  intros Hl Ha. split.
  - intros Hd. destruct ev; try discriminate Hd;
      unfold on_event, _handleRowDescription, _handleDataRow, _handlePortalSuspended,
        _handleEmptyQuery, _handleCopyInResponse, _handleCopyData, delegate;
      run; rewrite Hl; run; rewrite Ha; run; eexists; reflexivity.
  - intros text Ht Hc.
    assert (E : on_event ev w = _handleErrorEvent (unexpected_message text) w).
    { destruct ev; try discriminate Ht; injection Ht as <-;
        unfold on_event, _handleCommandComplete, _handleParseComplete;
        run; rewrite Hl; run; rewrite Ha; reflexivity. }
    cbv zeta. rewrite E, (handleErrorEvent_eq _ _ Hc). cbv zeta.
    unfold failed_queries. rewrite Ha. cbn [app].
    destruct (error_listener w); cbn; rewrite ?emitted_app; repeat split; reflexivity.
Qed.

(** *** The end of the connection *)

(** X20: when the connection of a client that is not connecting ends, the
    listener marks the client as ended and fails the active query and
    every queued query on later ticks.  If end was called, or the client
    failed to connect, nothing else happens and the 'end' event is
    scheduled after the failures; the error of the queries is "Connection
    terminated" after end, "Connection terminated unexpectedly" otherwise.
    If the connection ends unexpectedly, the client becomes unqueryable and
    emits that error before 'end' is scheduled; when nobody listens to
    'error', the error is thrown out of the listener instead and the 'end'
    event is not scheduled. *)
Theorem connection_end_fails_queries w :
  _connecting (client w) = false ->
  let err := termination_error w in
  let w' := final (on_connection_end w) in
  let expected := _ending (client w) || _connectionError (client w) in
  let failures := map (fun q => THandleError q err) (failed_queries w) in
  _ended (client w') = true /\
  _activeQuery (client w') = None /\ _queryQueue (client w') = [] /\
  deliveries (trace w') = deliveries (trace w) /\
  _queryable (client w') = (if expected then _queryable (client w) else false) /\
  (if expected || error_listener w
   then on_connection_end w = Return tt w' /\
        ticks w' = ticks w ++ failures ++ [TEmitEnd] /\
        emitted (trace w') = emitted (trace w) ++ (if expected then [] else [EError err])
   else on_connection_end w = Raise err w' /\
        ticks w' = ticks w ++ failures /\
        emitted (trace w') = emitted (trace w)) /\
  (forall w2, emitted (trace (final (run_task TEmitEnd w2))) = emitted (trace w2) ++ [EEnd]).
Proof.
  intros Hc. unfold termination_error, on_connection_end,
    clearConnectionTimeout, clearTimeout.
  run.
  destruct (connectionTimeoutHandle (client w)) as [t|]; run.
  all: rewrite errorAllQueries_eq; run; rewrite ?Hc; cbn.
  all: destruct (_ending (client w)); cbn.
  all: try (destruct (_connectionError (client w)); cbn).
  all: rewrite ?handleErrorEvent_eq by (cbn; exact Hc); cbn.
  all: try (destruct (error_listener w); cbn).
  all: rewrite ?emitted_app, ?deliveries_app, <- ?app_assoc; cbn; rewrite ?app_nil_r.
  all: repeat split; first [reflexivity | intros w2; cbn; rewrite emitted_app; reflexivity].
Qed.

(** *** A password that is not a string *)

Lemma handleErrorEvent_listening e w :
  listening (final (_handleErrorEvent e w)) = listening w.
Proof.
  destruct (_connecting (client w)) eqn:Hc.
  - unfold _handleErrorEvent, _handleErrorWhileConnecting, clearConnectionTimeout,
      clearTimeout, emit, invoke_connect.
    run. rewrite Hc. run.
    destruct (_connectionError (client w)); run; [reflexivity|].
    destruct (connectionTimeoutHandle (client w)) as [t|]; run.
    all: destruct (_connectionCallback (client w)) as [[f|p]|]; run; try reflexivity.
    all: destruct (error_listener w); reflexivity.
  - rewrite (handleErrorEvent_eq _ _ Hc). cbv zeta.
    destruct (error_listener w); reflexivity.
Qed.

(** X18: when the password function resolves to something that is neither
    undefined nor a string, the client makes the connection emit a
    TypeError, "Password must be a string", and goes no further: the
    stored password and the SCRAM session stay as they are and no password
    message, MD5 hash or SASL response is handed to the connection,
    whichever authentication was asked for.  The error is handled like any
    error of the connection: while the client is connecting it marks the
    connection as failed and goes to the connect callback, or else to the
    listeners of 'error', and is lost when there are none; on a client
    that is not connecting it makes the client unqueryable and is emitted.
    A string is stored, in the client and in its connection parameters,
    and, for cleartext authentication, sent as it is. *)
Theorem password_must_be_string pass use w :
  (pass <> VUndefined -> is_string pass = false ->
   let err := password_type_error in
   let w' := final (password_resolved pass use w) in
   no_credentials w w' /\
   (listening w = true ->
    password_resolved pass use w
    = try_catch (on_event (error_ err)) (fun e => on_event (error_ e)) w) /\
   (listening w = true -> _connecting (client w) = true ->
    _connectionError (client w) = false ->
    password_resolved pass use w = Return tt w' /\
    _connectionError (client w') = true /\
    match _connectionCallback (client w) with
    | Some cb =>
        deliveries (trace w') = deliveries (trace w) ++ [connect_delivery cb (Some err)] /\
        emitted (trace w') = emitted (trace w)
    | None =>
        deliveries (trace w') = deliveries (trace w) /\
        emitted (trace w')
        = emitted (trace w) ++ (if error_listener w then [EError err] else [])
    end) /\
   (listening w = true -> _connecting (client w) = false -> error_listener w = true ->
    password_resolved pass use w = Return tt w' /\
    _queryable (client w') = false /\
    emitted (trace w') = emitted (trace w) ++ [EError err])) /\
  (is_string pass = true ->
   let w' := final (password_resolved pass UseCleartext w) in
   password (client w') = pass /\
   connectionParameters_password (client w') = pass /\
   credentials (trace w') = credentials (trace w) ++ [ConPassword pass]).
Proof.
  split.
  - intros Hu Hs. cbv zeta. unfold password_resolved.
    rewrite bool_decide_eq_false_2 by exact Hu. rewrite Hs. cbn [negb].
    split; [|split; [|split]].
    + apply preserves_try_catch; [exact _ | |];
        intros; apply no_credentials_connection_emit_error.
    + intros Hl. unfold try_catch, connection_emit_error, on_event, password_type_error.
      run. rewrite Hl. run.
      match goal with
      | |- context [_handleErrorEvent ?e w] =>
          pose proof (handleErrorEvent_listening e w) as El;
          destruct (_handleErrorEvent e w) as [[] w1|e' w1]; [reflexivity|]
      end.
      cbn in El. run. rewrite El, Hl. reflexivity.
    + intros Hl Hc He.
      unfold try_catch, connection_emit_error, _handleErrorEvent,
        _handleErrorWhileConnecting, clearConnectionTimeout, clearTimeout, emit,
        invoke_connect, connect_delivery.
      run. rewrite Hl. run. rewrite Hc. run. rewrite He. run.
      destruct (connectionTimeoutHandle (client w)) as [t|]; run.
      all: destruct (_connectionCallback (client w)) as [[f|p]|]; run.
      all: try (destruct (error_listener w); run).
      all: rewrite ?Hl; run; rewrite ?Hc; run.
      all: rewrite ?deliveries_app, ?emitted_app; cbn; rewrite ?app_nil_r.
      all: repeat split; reflexivity.
    + intros Hl Hc He. unfold try_catch, connection_emit_error. run. rewrite Hl.
      rewrite (handleErrorEvent_eq _ _ Hc). cbv zeta. rewrite He. cbn.
      rewrite emitted_app. repeat split; reflexivity.
  - intros Hs. destruct pass; try discriminate Hs.
    unfold password_resolved, use_password, try_catch.
    rewrite bool_decide_eq_false_2 by discriminate. run.
    rewrite credentials_app. repeat split; reflexivity.
Qed.

(** *** The read timeout of a query that completes in time *)

#[local] Arguments _pulseQueryQueue : simpl never.

Lemma completion_disarms q t k w :
  callback (query_of w q) = CbClearTimeout t k -> plain k ->
  (exists w1, handleReadyForQuery q w = Return tt w1 /\
     timers w1 = delete t (timers w) /\
     deliveries (trace w1) = deliveries (trace w) ++ delivery k None /\
     fire t w1 = Return tt w1) /\
  (forall err, exists w1, handleError q err w = Return tt w1 /\
     timers w1 = delete t (timers w) /\
     deliveries (trace w1) = deliveries (trace w) ++ delivery k (Some err) /\
     fire t w1 = Return tt w1).
Proof.
  intros Hcb Hk.
  assert (Hfire : forall w1, timers w1 = delete t (timers w) -> fire t w1 = Return tt w1).
  { intros w1 E. unfold fire. run. rewrite E, lookup_delete_eq. reflexivity. }
  split; [|intros err]; unfold handleError, handleReadyForQuery;
    run; unfold query_of in *; cbn; rewrite Hcb; cbn; unfold clearTimeout; run;
    destruct k; try contradiction; cbn [invoke]; run;
    (eexists; split; [reflexivity|]); cbn;
    (split; [reflexivity|]); (split; [|apply Hfire; reflexivity]);
    rewrite !deliveries_app; cbn; rewrite ?app_nil_r; reflexivity.
Qed.

Lemma query_arms_timer qt fresh w :
  truthy (or_else qt (query_timeout (connectionParameters (config w)))) = true ->
  callback fresh = CbUndefined \/ plain (callback fresh) ->
  let q := Made (next_query w) in
  let t := next_timer w in
  let k := if is_function (callback fresh) then callback fresh
           else CbSettle (next_promise w) in
  let w' := final (query (ArgConfig qt fresh) w) in
  plain k /\
  timers w' !! t = Some (ReadTimeout q k) /\
  callback (query_of w' q) = CbClearTimeout t k.
Proof.
  intros Ht Hcb. cbv zeta.
  assert (Hp : forall (r : QueryResult) w0,
             let w1 := final (match _pulseQueryQueue w0 with
                              | Return _ w' => Return r w'
                              | Raise e w' => Raise e w'
                              end) in
             timers w1 = timers w0 /\ queries w1 = queries w0).
  { intros r w0. destruct (pulse_run w0) as (w1 & E & _ & _ & Hq & Htm & _).
    rewrite E. cbn. auto. }
  split.
  { destruct Hcb as [-> | Hcb]; [exact I|].
    destruct (callback fresh); try contradiction; exact I. }
  unfold query. run. 
  assert (Hk : is_function (callback fresh) = true \/ callback fresh = CbUndefined).
  { destruct Hcb as [-> | Hcb]; [auto|]. left. destruct (callback fresh); try contradiction; reflexivity. }
  destruct Hk as [Hk | Hk]; rewrite Hk; run; rewrite Ht; run.
  all: unfold query_of; cbn; rewrite ?lookup_insert_eq; cbn.
  all: repeat match goal with
              | |- context [if ?b then _ else _] => destruct b eqn:?; run
              end.
  all: try match goal with
           | |- context [_pulseQueryQueue ?w0] =>
               destruct (Hp (RUndefined) w0) as [H1 H2];
               destruct (Hp (RPromise (next_promise w)) w0) as [H3 H4];
               cbn in H1, H2, H3, H4; rewrite ?H1, ?H2, ?H3, ?H4
           end.
  all: cbn; unfold query_of; cbn; rewrite ?lookup_insert_eq; cbn;
    rewrite ?lookup_insert_eq; cbn; split; reflexivity.
Qed.

(** X21: a query with a read timeout gets a timer and a callback that
    clears it: query wraps the callback of the query (the caller's
    function, or the settle function of the promise it returns) into one
    that first clears the timer; so when the query completes or fails in
    time, the timer is disarmed before the callback runs, the callback is
    invoked once with the outcome, and the expiry of the timer afterwards
    does nothing. *)
Theorem read_timer_disarmed :
  (forall qt fresh w,
     truthy (or_else qt (query_timeout (connectionParameters (config w)))) = true ->
     callback fresh = CbUndefined \/ plain (callback fresh) ->
     let q := Made (next_query w) in
     let t := next_timer w in
     let k := if is_function (callback fresh) then callback fresh
              else CbSettle (next_promise w) in
     let w' := final (query (ArgConfig qt fresh) w) in
     plain k /\
     timers w' !! t = Some (ReadTimeout q k) /\
     callback (query_of w' q) = CbClearTimeout t k) /\
  (forall q t k w,
     callback (query_of w q) = CbClearTimeout t k -> plain k ->
     (exists w1, handleReadyForQuery q w = Return tt w1 /\
        timers w1 = delete t (timers w) /\
        deliveries (trace w1) = deliveries (trace w) ++ delivery k None /\
        fire t w1 = Return tt w1) /\
     (forall err, exists w1, handleError q err w = Return tt w1 /\
        timers w1 = delete t (timers w) /\
        deliveries (trace w1) = deliveries (trace w) ++ delivery k (Some err) /\
        fire t w1 = Return tt w1)).
Proof.
  split.
  - exact query_arms_timer.
  - exact completion_disarms.
Qed.

(** *** The first ReadyForQuery *)

(** X22: the first ReadyForQuery of a connecting client completes
    connect: the client becomes connected, the connect timer is cleared,
    the connect callback (or promise) is completed without an error and
    forgotten, then 'connect' is emitted, and only then the first query
    that was queued before the connection stood is submitted and becomes
    the active query; with nothing queued the client stays ready. *)
Theorem connect_completes w :
  listening w = true -> _connecting (client w) = true ->
  _activeQuery (client w) = None ->
  exists w', on_event readyForQuery_ w = Return tt w' /\
    _connected (client w') = true /\ _connecting (client w') = false /\
    _connectionCallback (client w') = None /\
    timers w' = match connectionTimeoutHandle (client w) with
                | Some t => delete t (timers w)
                | None => timers w
                end /\
    trace w' =
      trace w
      ++ match connectionTimeoutHandle (client w) with
         | Some t => [ClearTimeout t]
         | None => []
         end
      ++ match _connectionCallback (client w) with
         | Some cb => [connect_delivery cb None]
         | None => []
         end
      ++ [Emit EConnect]
      ++ match _queryQueue (client w) with
         | q :: _ => [QSubmit q]
         | [] => if hasExecuted (client w) then [Emit EDrain] else []
         end /\
    _activeQuery (client w') = head (_queryQueue (client w)) /\
    _queryQueue (client w') = tail (_queryQueue (client w)) /\
    readyForQuery (client w') = bool_decide (_queryQueue (client w) = []).
Proof.
  intros Hl Hc Ha.
  unfold on_event, _handleReadyForQuery, _pulseQueryQueue, submit, emit,
    clearConnectionTimeout, clearTimeout, invoke_connect.
  run. rewrite Hl. run. rewrite Hc. run.
  destruct (connectionTimeoutHandle (client w)) as [t|]; run.
  all: destruct (_connectionCallback (client w)) as [[f|p]|] eqn:Ecb; run.
  all: rewrite ?Ha; run.
  all: destruct (_queryQueue (client w)) as [|q rest] eqn:Eq; run.
  all: try (destruct (hasExecuted (client w)); run).
  all: try match goal with
           | |- context [preflight ?x] => destruct (preflight x); run
           end.
  all: eexists; split; [reflexivity|]; cbn; rewrite <- ?app_assoc; cbn.
  all: repeat split; first [reflexivity | exact Eq | exact Ecb].
Qed.

(** *** The SCRAM exchange, seen from the client *)

Lemma auth_sasl_run mechanisms nonce pw s0 w :
  listening w = true -> password (client w) = VString pw ->
  startSession mechanisms (binding_stream w) nonce = Ok s0 ->
  on_event (authenticationSASL mechanisms nonce) w =
  Return tt (set_trace (trace w ++ [ConSendSASLInitialResponse (mechanism s0) (response s0)])
               (on_client (set_saslSession (Some s0)) w)).
Proof.
  intros Hl Hpw H0.
  unfold on_event, _handleAuthSASL, _getPassword, use_password, try_catch.
  run. rewrite Hl. run. rewrite Hpw. run. rewrite H0. reflexivity.
Qed.

Lemma auth_sasl_continue_run data pw s0 s1 w :
  listening w = true -> password (client w) = VString pw ->
  saslSession (client w) = Some s0 ->
  continueSession signatureAlgorithmHashFromCertificate hashByName deriveKey
    hmacSha256 sha256 base64_encode base64_decode s0 (VString pw) data
    (binding_stream w) = Ok s1 ->
  on_event (authenticationSASLContinue data) w =
  Return tt (set_trace (trace w ++ [ConSendSCRAMClientFinal (response s1)])
               (on_client (set_saslSession (Some s1)) w)).
Proof.
  intros Hl Hpw Hs H1.
  unfold on_event, _handleAuthSASLContinue, the_session, try_catch.
  run. rewrite Hl. run. rewrite Hs. run. rewrite Hpw, H1. reflexivity.
Qed.

Lemma auth_sasl_final_run data s1 w :
  listening w = true -> saslSession (client w) = Some s1 ->
  finalizeSession s1 data = Ok tt ->
  on_event (authenticationSASLFinal data) w =
  Return tt (on_client (set_saslSession None) w).
Proof.
  intros Hl Hs H2.
  unfold on_event, _handleAuthSASLFinal, the_session, try_catch.
  run. rewrite Hl. run. rewrite Hs. run. rewrite H2. reflexivity.
Qed.

(** X23: a SCRAM exchange that goes well, step by step in the client: on
    AuthenticationSASL the client starts a session over the transport it
    would bind to and sends the client-first message with the chosen
    mechanism, on AuthenticationSASLContinue it continues that session
    with its password and sends the client-final message, and on
    AuthenticationSASLFinal it checks the server signature and drops the
    session; nothing else is sent and no other field of the client
    changes. *)
Theorem scram_exchange_completes mechanisms nonce data1 data2 pw s0 s1 w :
  listening w = true ->
  password (client w) = VString pw ->
  startSession mechanisms (binding_stream w) nonce = Ok s0 ->
  continueSession signatureAlgorithmHashFromCertificate hashByName deriveKey
    hmacSha256 sha256 base64_encode base64_decode s0 (VString pw) data1
    (binding_stream w) = Ok s1 ->
  finalizeSession s1 data2 = Ok tt ->
  let w' := run [ConnectionEmits (authenticationSASL mechanisms nonce);
                 ConnectionEmits (authenticationSASLContinue data1);
                 ConnectionEmits (authenticationSASLFinal data2)] w in
  client w' = set_saslSession None (client w) /\
  trace w' = trace w ++ [ConSendSASLInitialResponse (mechanism s0) (response s0);
                         ConSendSCRAMClientFinal (response s1)] /\
  ticks w' = ticks w /\ timers w' = timers w.
Proof.
  intros Hl Hpw H0 H1 H2. cbv zeta. cbn [run step].
  rewrite (auth_sasl_run _ _ _ _ _ Hl Hpw H0). cbn [final].
  rewrite (auth_sasl_continue_run data1 pw s0 s1);
    [ | exact Hl | exact Hpw | reflexivity | exact H1 ].
  cbn [final].
  rewrite (auth_sasl_final_run data2 s1); [ | exact Hl | reflexivity | exact H2 ].
  cbn. rewrite <- app_assoc. repeat split.
Qed.

(** *** The connect deadline *)

(** X24: connect on a client that is neither connecting nor connected
    arms the connect timer before it opens the transport, if and only if
    connectionTimeoutMillis is positive, and keeps its handle; the
    transport is opened at the path <host>/.s.PGSQL.<port> when the host
    starts with a slash, and at port and host otherwise.  When the timer
    expires the connection is marked as ending and its stream is destroyed
    with the error "timeout expired", while the client itself is left as it
    is. *)
Theorem connect_deadline w :
  (forall callback,
     _connecting (client w) || _connected (client w) = false ->
     let w' := final (connect_ callback w) in
     _connecting (client w') = true /\
     (if 0 <? _connectionTimeoutMillis (config w)
      then connectionTimeoutHandle (client w') = Some (next_timer w) /\
           timers w' !! next_timer w = Some ConnectTimeout
      else connectionTimeoutHandle (client w') = connectionTimeoutHandle (client w) /\
           timers w' = timers w) /\
     (forall h, host (config w) = VString h ->
        trace w'
        = trace w
          ++ (if 0 <? _connectionTimeoutMillis (config w)
              then [SetTimeout (next_timer w)
                      (VNumber (Int (_connectionTimeoutMillis (config w))))]
              else [])
          ++ [match h with
              | 47%N :: _ =>
                  ConConnectPath (h ++ str "/.s.PGSQL."
                                    ++ ToString function_text (port (config w)))
              | _ => ConConnectTcp (port (config w)) (VString h)
              end])) /\
  (forall t,
     timers w !! t = Some ConnectTimeout ->
     exists w', fire t w = Return tt w' /\
       client w' = client w /\ timers w' = delete t (timers w) /\
       ticks w' = ticks w /\
       trace w' = trace w ++ [SetConEnding;
                              StreamDestroy (Some (Error (str "timeout expired")))]).
Proof.
  split.
  - intros callback H. cbv zeta.
    destruct callback as [f|]; unfold connect_, _connect, open_connection, con_connect;
      do 2 run;
      rewrite H; run.
    all: destruct (0 <? _connectionTimeoutMillis (config w)); do 2 run.
    all: destruct (host (config w)) as [| | | |[|c h]|]; run.
    all: try (destruct c; run).
    all: repeat match goal with
                | |- context [if ?b then _ else _] => destruct b; run
                | |- context [match ?p with xH => _ | _ => _ end] => destruct p; run
                end.
    all: repeat split; try reflexivity; try apply lookup_insert_eq.
    all: intros h' Eh; try discriminate Eh; injection Eh as <-;
      rewrite <- ?app_assoc; reflexivity.
  - intros t Ht. unfold fire, connect_timeout. run. rewrite Ht. run.
    eexists. split; [reflexivity|]. cbn. rewrite <- app_assoc. repeat split.
Qed.

(** *** query on a client that accepts queries *)

(** X26: query with a text or config on a client that accepts queries
    (queryable, not ending), without a read timeout: the new query goes to
    the end of the queue and nothing is submitted while the client is not
    ready; on a ready client with an empty queue it is submitted at once
    and becomes the active query, and a preflight error of submit is
    handed to the query on a later tick.  The call returns undefined when
    the query has a callback and a promise otherwise. *)
Theorem query_enqueues_or_submits qt fresh w :
  _queryable (client w) = true -> _ending (client w) = false ->
  truthy (or_else qt (query_timeout (connectionParameters (config w)))) = false ->
  let q := Made (next_query w) in
  let result := if is_function (callback fresh) then RUndefined
                else RPromise (next_promise w) in
  exists w', query (ArgConfig qt fresh) w = Return result w' /\
    (readyForQuery (client w) = false ->
     _queryQueue (client w') = _queryQueue (client w) ++ [q] /\
     _activeQuery (client w') = _activeQuery (client w) /\
     trace w' = trace w /\ ticks w' = ticks w) /\
    (readyForQuery (client w) = true -> _queryQueue (client w) = [] ->
     _queryQueue (client w') = [] /\ _activeQuery (client w') = Some q /\
     readyForQuery (client w') = false /\
     trace w' = trace w ++ [QSubmit q] /\
     ticks w' = ticks w ++ match preflight fresh with
                           | Some err => [TSubmitError q err]
                           | None => []
                           end).
Proof.
  intros Hq He Ht. cbv zeta.
  unfold query, _pulseQueryQueue, submit. do 2 run.
  destruct (is_function (callback fresh)) eqn:Ef; do 3 run; rewrite ?Ht; do 2 run.
  all: unfold query_of; cbn; rewrite ?lookup_insert_eq; cbn.
  all: repeat match goal with
              | |- context [if ?b then _ else _] =>
                  lazymatch b with
                  | context [_queryable] => rewrite Hq; cbn
                  | context [_ending] => rewrite He; cbn
                  | _ => destruct b eqn:?; run
                  end
              end.
  all: rewrite ?Hq, ?He; run.
  all: try (destruct (_queryQueue (client w)) as [|a rest] eqn:Equeue; run).
  all: unfold query_of; cbn; rewrite ?lookup_insert_eq; cbn.
  all: try (destruct (preflight fresh); run).
  all: repeat match goal with
              | |- context [match preflight ?x with _ => _ end] =>
                  destruct (preflight x); run
              end.
  all: eexists; (split; [reflexivity|]); cbn; rewrite ?app_nil_r.
  all: split; [intros Hr | intros Hr Hempty]; try discriminate;
    repeat split; try reflexivity; try (rewrite ?Equeue; reflexivity).
Qed.

(** *** MD5 authentication *)

(** X27: on AuthenticationMD5Password a client whose password is a string
    asks for the hash of user, password and the salt of the message and
    sends nothing yet; when the hash arrives it is sent as the password;
    when hashing fails the error is emitted on the client (thrown when
    nobody listens) and nothing else happens: no password is sent, and the
    client, its queue and the scheduler are left as they are. *)
Theorem md5_password_flow salt pw w :
  listening w = true -> password (client w) = VString pw ->
  on_event (authenticationMD5Password salt) w
  = Return tt (set_trace (trace w ++ [Md5Hash (user (connectionParameters (config w)))
                                        (VString pw) salt]) w) /\
  (forall hashedPassword w2,
     md5_hashed (Ok hashedPassword) w2
     = Return tt (set_trace (trace w2 ++ [ConPassword (VString hashedPassword)]) w2)) /\
  (forall e w2,
     let w' := final (md5_hashed (Throw e) w2) in
     client w' = client w2 /\ ticks w' = ticks w2 /\
     credentials (trace w') = credentials (trace w2) /\
     if error_listener w2 then emitted (trace w') = emitted (trace w2) ++ [EError e]
     else md5_hashed (Throw e) w2 = Raise e w2).
Proof.
  intros Hl Hpw. repeat apply conj.
  - unfold on_event, _handleAuthMD5Password, _getPassword, use_password.
    run. rewrite Hl. run. rewrite Hpw. run. rewrite Hpw. reflexivity.
  - reflexivity.
  - intros e w2. unfold md5_hashed, emit. run.
    destruct (error_listener w2); cbn; rewrite ?credentials_app, ?emitted_app;
      cbn; rewrite ?app_nil_r; repeat split; reflexivity.
Qed.

(** *** The parsed statements *)

#[local] Instance same_statements_preorder : PreOrder same_statements.
Proof.
  split.
  - intros w. reflexivity.
  - intros w1 w2 w3 H1 H2. unfold same_statements in *. congruence.
Qed.

Lemma statements_invoke cb err : preserves same_statements (invoke cb err).
Proof.
  induction cb; simpl; unfold clearTimeout, effect; pres; reflexivity.
Qed.
Hint Resolve statements_invoke : pg.

Lemma statements_step i :
  i <> ConnectionEmits parseComplete -> preserves same_statements (step i).
Proof.
  intros Hi.
  destruct i; try destruct ev; try (destruct Hi; reflexivity);
    unfold_client; unfold query, handleError, modify_query, effect;
    unfold_client; unfold effect; pres; reflexivity.
Qed.

(** X28: the record of parsed statements follows ParseComplete and
    nothing else: over every run without a ParseComplete message it is
    unchanged, and a ParseComplete that arrives while a query is active
    records the text of that query under its name when it has one, and
    records nothing for an unnamed query; in both cases the client and the
    trace are left as they are. *)
Theorem statements_follow_parseComplete :
  (forall inputs w,
     Forall (fun i => i <> ConnectionEmits parseComplete) inputs ->
     parsedStatements (run inputs w) = parsedStatements w) /\
  (forall w q,
     listening w = true -> _activeQuery (client w) = Some q ->
     let w' := final (on_event parseComplete w) in
     parsedStatements w' =
       match name (query_of w q) with
       | Some n => <[n := text (query_of w q)]> (parsedStatements w)
       | None => parsedStatements w
       end /\
     client w' = client w /\ trace w' = trace w /\ ticks w' = ticks w).
Proof.
  split.
  - intros inputs w Hall.
    apply (preserves_run same_statements (fun i => i <> ConnectionEmits parseComplete));
      [intros i Hi; apply statements_step; exact Hi | exact Hall].
  - intros w q Hl Ha. cbv zeta. unfold on_event, _handleParseComplete.
    run. rewrite Hl. run. rewrite Ha. run.
    destruct (name (query_of w q)); repeat split.
Qed.

(** *** A password from the password file *)

(** X29: a client without a password (null) asks pgpass for one when the
    backend wants a password, and sends nothing yet.  The password pgpass
    finds is stored in the client and in its connection parameters and then
    used: for cleartext authentication it is sent as it is.  When pgpass
    finds none the client is left as it is and the password that goes out
    is the one it has, null. *)
Theorem pgpass_password_stored w :
  listening w = true -> password (client w) = VNull ->
  pgpass_installed (config w) = true ->
  on_event authenticationCleartextPassword w
  = Return tt (set_trace (trace w ++ [PgPassLookup]) w) /\
  (forall pass, pass <> VUndefined ->
     let w' := final (pgpass_found pass UseCleartext w) in
     client w' = set_connectionParameters_password pass (set_password pass (client w)) /\
     trace w' = trace w ++ [ConPassword pass]) /\
  (let w' := final (pgpass_found VUndefined UseCleartext w) in
   client w' = client w /\ trace w' = trace w ++ [ConPassword VNull]).
Proof.
  intros Hl Hpw Hpg. repeat apply conj.
  - unfold on_event, _handleAuthCleartextPassword, _getPassword.
    run. rewrite Hl. run. rewrite Hpw. run. rewrite Hpg. reflexivity.
  - intros pass Hu. unfold pgpass_found, use_password.
    rewrite bool_decide_eq_false_2 by exact Hu. run. split; reflexivity.
  - unfold pgpass_found, use_password.
    rewrite bool_decide_eq_true_2 by reflexivity. run. reflexivity.
  - unfold pgpass_found, use_password.
    rewrite bool_decide_eq_true_2 by reflexivity. run. rewrite Hpw.
    reflexivity.
Qed.

End MoreClientFacts.

(** ** The theorems at concrete clients *)

#[local] Existing Instance example_runtime.

Lemma query_refused_witness :
  _queryable (client broken_client) = false /\
  refusal broken_client
  = Error (str "Client has encountered a connection error and is not queryable") /\
  ticks (final (query (ArgConfig VUndefined (example_query 8)) broken_client))
  = ticks broken_client ++
    [THandleError (submitted (ArgConfig VUndefined (example_query 8)) broken_client)
       (refusal broken_client)].
Proof.
  split; [vm_compute; reflexivity|]. split; [vm_compute; reflexivity|].
  destruct (query_refused (ArgConfig VUndefined (example_query 8)) broken_client)
    as (_ & _ & H & _); [discriminate | left; vm_compute; reflexivity | exact H].
Defined.

Lemma query_read_timeout_witness :
  timers timed_client !! O = Some (ReadTimeout (Made 0) (CbUser 7)) /\
  deliveries (trace (final (fire 0 timed_client)))
  = deliveries (trace timed_client) ++ delivery (CbUser 7) (Some timeout_error).
Proof.
  split; [vm_compute; reflexivity|].
  destruct (query_read_timeout 0 (Made 0) (CbUser 7) timed_client)
    as (_ & H & _); [vm_compute; reflexivity | exact I | vm_compute; lia | exact H].
Defined.

(* the hypothesis of C2 that the query has a callback: a submittable
   without one, still queued when its timer fires, stays queued, because
   the timer's function throws before it reaches the queue *)
Example read_timeout_without_callback :
  let submittable :=
    {| callback := CbUndefined; binary := false; _result := None; name := None;
       text := VString (str "select 2"); q_query_timeout := VNumber (Int 50);
       preflight := None |} in
  let w := run
             [CallQuery (ArgSubmittable (Given 0) CbUndefined)]
             (set_queries (<[Given 0 := submittable]> (queries busy_client)) busy_client) in
  _queryQueue (client w) = [Given 0] /\
  exists w', fire 0 w
             = Raise (TypeError (str "callback is not a function")) w' /\
             _queryQueue (client w') = [Given 0].
Proof.
  cbv zeta. split; [vm_compute; reflexivity|].
  eexists. split; vm_compute; reflexivity.
Qed.

Lemma failures_delivery_witness :
  _connecting (client busy_client) = false /\
  failed_queries busy_client = [Made 0] /\
  ticks (final (_handleErrorEvent (External 1) busy_client))
  = ticks busy_client
    ++ map (fun q => THandleError q (External 1)) (failed_queries busy_client).
Proof.
  split; [vm_compute; reflexivity|]. split; [vm_compute; reflexivity|].
  destruct (proj1 failures_delivery (External 1) busy_client)
    as [_ H]; [vm_compute; reflexivity | exact H].
Defined.

(** C3 as stated fails: the backend sends an ErrorResponse while a query is
    active; the query's handleError has been called, and its callback
    invoked, when the listener of the message returns, and nothing is left
    for a later tick. *)
Lemma error_response_handled_at_once :
  _activeQuery (client busy_client) = Some (Made 0) /\
  handled (trace busy_client) = [] /\
  handled (trace (final (on_event
                           (errorMessage (External 1)) busy_client)))
  = [(Made 0, External 1)] /\
  deliveries (trace (final (on_event
                              (errorMessage (External 1)) busy_client)))
  = deliveries (trace busy_client) ++ [Called 7 (Some (External 1))] /\
  ticks (final (on_event
                  (errorMessage (External 1)) busy_client)) = [].
Proof. repeat apply conj; vm_compute; reflexivity. Qed.

Lemma end_shutdown_witness :
  con_connecting connected_client = true /\
  _ended (client connected_client) = false /\
  shutdown_action connected_client = ConEnd /\
  exists w',
    end_ None connected_client
    = Return (EndPromise (next_promise connected_client)) w' /\
    trace w' = trace connected_client ++ [shutdown_action connected_client].
Proof.
  split; [vm_compute; reflexivity|]. split; [vm_compute; reflexivity|].
  split; [vm_compute; reflexivity|].
  destruct (proj1 (proj2 (proj2 (proj2 end_shutdown))) None connected_client)
    as (r & w' & E & Ht & -> & _); [vm_compute; reflexivity | vm_compute; reflexivity |].
  exists w'. split; [exact E | exact Ht].
Defined.

(* a client that has ended is treated like one that never connected:
   end() returns a resolved promise and leaves the transport and the
   listeners alone *)
Lemma end_on_ended_client :
  con_connecting ended_client = true /\
  _activeQuery (client ended_client) = None /\
  _queryable (client ended_client) = true /\
  end_ None ended_client = Return EndResolved ended_client.
Proof. repeat apply conj; vm_compute; reflexivity. Qed.

(* new Client().end(cb): the callback is called, the connection is ended
   all the same and the callback waits for its 'end', where it is called
   again; new Client().end() touches nothing *)
Lemma end_callback_not_a_noop_witness :
  con_connecting fresh_client = false /\
  (exists w',
     end_ (Some 3%nat) fresh_client = Return EndUndefined w' /\
     trace w' = [Called 3 None; ConEnd] /\
     end_listeners w' = [EndCallback 3] /\
     deliveries (trace (final (on_event end_event w')))
     = [Called 3 None; Called 3 None]) /\
  trace (final (end_ None fresh_client)) = [].
Proof.
  split; [reflexivity|].
  destruct (end_callback_not_a_noop 3%nat fresh_client (or_introl eq_refl))
    as [(w' & E & _ & Ht & Hl) E'].
  split.
  - exists w'. split; [exact E|]. split; [exact Ht|]. split; [exact Hl|].
    vm_compute in E. injection E as <-. vm_compute. reflexivity.
  - rewrite E'. reflexivity.
Defined.

Lemma keys_follow_backendKeyData_witness :
  same_keys connected_client
    (final (step (ConnectionEmits readyForQuery_)
              connected_client)).
Proof.
  apply (proj1 (keys_follow_backendKeyData)).
  intros (pid & key & E). discriminate E.
Defined.

(** C9 as stated fails: a second BackendKeyData message replaces the
    values the first one set. *)
Lemma backendKeyData_overwrites :
  let first := backendKeyData (VNumber (Int 11)) (VNumber (Int 22)) in
  let second := backendKeyData (VNumber (Int 33)) (VNumber (Int 44)) in
  let w1 := run [ConnectionEmits first] connected_client in
  let w2 := run [ConnectionEmits second] w1 in
  processID (client w1) = VNumber (Int 11) /\ secretKey (client w1) = VNumber (Int 22) /\
  processID (client w2) = VNumber (Int 33) /\ secretKey (client w2) = VNumber (Int 44) /\
  processID (client w2) <> processID (client w1) /\
  secretKey (client w2) <> secretKey (client w1).
Proof. cbv zeta. repeat apply conj; vm_compute; congruence. Qed.

Lemma continueSession_needs_password_witness :
  exists e, forall f1 f2 f3 f4 f5 f6 f7 serverData stream,
    continueSession f1 f2 f3 f4 f5 f6 f7 (client_first PLAIN "n" (str "abcdef"))
      (VString []) serverData stream = Throw e.
Proof.
  apply (proj1 (continueSession_needs_password)).
  intros (pw & E & Hne). injection E as <-. apply Hne. reflexivity.
Defined.

Example empty_password_error :
  continueSession (fun _ => Ok []) (fun _ b => Ok b) (fun _ b _ => Ok b)
    (fun b _ => Ok b) (fun b => Ok b) (fun _ => []) (fun _ => [])
    (client_first PLAIN "n" (str "abcdef")) (VString [])
    (VString (str "r=abcdefgh,s=QUJDRA==,i=4096")) None
  = Throw (Error (str "SASL: SCRAM-SERVER-FIRST-MESSAGE: client password must be a non-empty string")).
Proof. vm_compute. reflexivity. Qed.

(** *** What connect opens *)

Example connect_tcp :
  trace (final (connect_ (Some 1%nat) fresh_client))
  = [ConConnectTcp (VNumber (Int 5432)) (VString (str "localhost"))].
Proof. vm_compute. reflexivity. Qed.

Example connect_unix_socket :
  trace (final (connect_ (Some 1%nat) (new_world socket_config VNull)))
  = [ConConnectPath (str "/var/run/postgresql/.s.PGSQL.5432")].
Proof. vm_compute. reflexivity. Qed.

(** ** The further properties at concrete clients *)

Lemma client_stays_consistent_witness :
  consistent
    (run [CallConnect None; ConnectionEmits connect; ConnectionEmits readyForQuery_;
          CallQuery (ArgConfig VUndefined (example_query 7));
          ConnectionEmits (errorMessage (External 1)); ConnectionEmits readyForQuery_]
       fresh_client).
Proof.
  apply client_stays_consistent.
  - split; [reflexivity | intros H; destruct H; reflexivity].
  - repeat constructor; intros [val H]; discriminate H.
Defined.


Lemma unqueryable_client_inert_witness :
  unqueryable broken_client /\
  submits (trace (run [CallQuery (ArgConfig VUndefined (example_query 8));
                       ConnectionEmits readyForQuery_; NextTick] broken_client))
  = submits (trace broken_client).
Proof.
  assert (H : unqueryable broken_client) by (split; vm_compute; reflexivity).
  split; [exact H|]. apply unqueryable_client_inert. exact H.
Defined.

Lemma active_query_is_last_submitted_witness :
  active_is_last
    (run [CallConnect None; ConnectionEmits connect; ConnectionEmits readyForQuery_;
          CallQuery (ArgConfig VUndefined (example_query 7));
          CallQuery (ArgConfig VUndefined (example_query 8));
          ConnectionEmits readyForQuery_]
       (new_world example_config (VString (str "secret")))).
Proof.
  apply active_query_is_last_submitted.
  repeat constructor; intros [val H]; discriminate H.
Defined.

Lemma connect_twice_witness :
  _connected (client connected_client) = true /\
  trace (final (connect_ (Some 3%nat) connected_client)) = trace connected_client /\
  ticks (final (connect_ (Some 3%nat) connected_client))
  = ticks connected_client ++ [TConnectError (CcUser 3) reuse_error].
Proof.
  split; [vm_compute; reflexivity|].
  destruct (connect_twice (Some 3%nat) connected_client) as (_ & _ & H1 & _ & _ & _ & H2 & _);
    [vm_compute; reflexivity | split; [exact H1 | exact H2]].
Defined.

Lemma connect_error_reported_once_witness :
  let w1 := final (on_event (error_ (External 1)) connecting_client) in
  _connectionError (client connecting_client) = false /\
  _connectionError (client w1) = true /\
  on_event (error_ (External 2)) w1 = Return tt w1.
Proof.
  cbv zeta. split; [vm_compute; reflexivity|]. split; [vm_compute; reflexivity|].
  apply (connect_error_reported_once (External 2) (error_ (External 2))).
  - left. reflexivity.
  - vm_compute. reflexivity.
  - vm_compute. reflexivity.
  - vm_compute. reflexivity.
Defined.

Lemma cancel_takes_one_out_witness :
  let w := run [CallQuery (ArgConfig VUndefined (example_query 8));
                CallQuery (ArgConfig VUndefined (example_query 9))] busy_client in
  _queryQueue (client w) = [Made 1; Made 2] /\
  _queryQueue (client (final (cancel (Made 1) w))) = remove_first (Made 1) [Made 1; Made 2] /\
  trace (final (cancel (Made 1) w)) = trace w.
Proof.
  cbv zeta. split; [vm_compute; reflexivity|].
  match goal with
  | |- _ (client (final (cancel ?q ?w))) = _ /\ _ =>
      destruct (cancel_takes_one_out q w) as (_ & _ & H)
  end.
  destruct H as (H1 & _ & H2 & _); [vm_compute; discriminate|].
  split; [rewrite H2; vm_compute; reflexivity | exact H1].
Defined.

(* the password function of a connecting client resolves to 42: the
   connect callback gets the TypeError *)
Lemma password_must_be_string_witness :
  let w' := final (password_resolved (VNumber (Int 42)) UseCleartext connecting_client) in
  no_credentials connecting_client w' /\
  _connectionError (client w') = true /\
  deliveries (trace w')
  = deliveries (trace connecting_client) ++ [Called 1 (Some password_type_error)].
Proof.
  cbv zeta.
  destruct (proj1 (password_must_be_string (VNumber (Int 42)) UseCleartext
                     connecting_client))
    as (H1 & _ & H2 & _); [discriminate | reflexivity |].
  destruct H2 as (_ & He & Hd);
    [vm_compute; reflexivity | vm_compute; reflexivity | vm_compute; reflexivity |].
  split; [exact H1|]. split; [exact He|].
  change (_connectionCallback (client connecting_client)) with (Some (CcUser 1)) in Hd.
  exact (proj1 Hd).
Defined.

Lemma message_without_active_query_witness :
  exists msg,
    on_event (rowDescription 0) connected_client
    = Raise (TypeError msg) connected_client.
Proof.
  apply (proj1 (message_without_active_query (rowDescription 0) connected_client
                  ltac:(vm_compute; reflexivity) ltac:(vm_compute; reflexivity))).
  reflexivity.
Defined.

(* the connection of a client with a query on the wire ends unexpectedly:
   without a listener of 'error' the error is thrown and 'end' is not
   scheduled; with one the error is emitted and 'end' is scheduled *)
Lemma connection_end_fails_queries_witness :
  let err := Error (str "Connection terminated unexpectedly") in
  let listened := run [ListenError true] busy_client in
  (exists w', on_connection_end busy_client = Raise err w' /\
     _ended (client w') = true /\ _queryable (client w') = false /\
     ticks w' = [THandleError (Made 0) err]) /\
  (exists w', on_connection_end listened = Return tt w' /\
     ticks w' = [THandleError (Made 0) err; TEmitEnd] /\
     emitted (trace w') = emitted (trace listened) ++ [EError err]).
Proof.
  cbv zeta. split.
  - pose proof (connection_end_fails_queries busy_client
                  ltac:(vm_compute; reflexivity)) as H.
    cbv zeta in H. destruct H as (H1 & _ & _ & _ & H5 & H6 & _).
    change (_ending (client busy_client) || _connectionError (client busy_client))
      with false in H5, H6.
    change (error_listener busy_client) with false in H6. cbn [orb] in H6.
    destruct H6 as (E & Ht & _).
    eexists. split; [exact E|]. split; [exact H1|]. split; [exact H5|].
    rewrite Ht. reflexivity.
  - pose proof (connection_end_fails_queries (run [ListenError true] busy_client)
                  ltac:(vm_compute; reflexivity)) as H.
    cbv zeta in H. destruct H as (_ & _ & _ & _ & _ & H6 & _).
    change (_ending (client (run [ListenError true] busy_client))
            || _connectionError (client (run [ListenError true] busy_client)))
      with false in H6.
    change (error_listener (run [ListenError true] busy_client)) with true in H6.
    cbn [orb] in H6. destruct H6 as (E & Ht & He).
    eexists. split; [exact E|]. split; [|exact He].
    rewrite Ht. reflexivity.
Defined.

Lemma read_timer_disarmed_witness :
  exists w1,
    handleReadyForQuery (Made 0) timed_client = Return tt w1 /\
    timers w1 = delete O (timers timed_client) /\
    fire O w1 = Return tt w1.
Proof.
  destruct (proj2 read_timer_disarmed (Made 0) O (CbUser 7) timed_client)
    as [(w1 & H1 & H2 & _ & H3) _].
  - vm_compute. reflexivity.
  - exact I.
  - exists w1. auto.
Defined.

Lemma connect_completes_witness :
  exists w',
    on_event readyForQuery_ connecting_client = Return tt w' /\
    _connected (client w') = true /\ _connectionCallback (client w') = None.
Proof.
  destruct (connect_completes connecting_client) as (w' & H1 & H2 & _ & H3 & _).
  - vm_compute. reflexivity.
  - vm_compute. reflexivity.
  - vm_compute. reflexivity.
  - exists w'. auto.
Defined.

Lemma scram_exchange_completes_witness :
  let w' := run [ConnectionEmits (authenticationSASL [PLAIN] (str "abcdef"));
                 ConnectionEmits (authenticationSASLContinue
                                    (VString (str "r=abcdefXYZ,s=QUJDRA==,i=4096")));
                 ConnectionEmits (authenticationSASLFinal (VString (str "v=QUJDRA==")))]
              connecting_client in
  client w' = set_saslSession None (client connecting_client) /\
  ticks w' = ticks connecting_client.
Proof.
  cbv zeta.
  destruct (scram_exchange_completes [PLAIN] (str "abcdef")
               (VString (str "r=abcdefXYZ,s=QUJDRA==,i=4096"))
               (VString (str "v=QUJDRA==")) (str "secret")
               (client_first PLAIN "n" (str "abcdef"))
               {| mechanism := PLAIN; clientNonce := str "abcdef";
                  response := str "c=biws,r=abcdefXYZ,p=" ++ repeat 0%N 8;
                  message := str "SASLResponse";
                  serverSignature := Some (str "QUJDRA==") |}
               connecting_client)
    as (H1 & _ & H2 & _).
  - vm_compute. reflexivity.
  - vm_compute. reflexivity.
  - vm_compute. reflexivity.
  - vm_compute. reflexivity.
  - vm_compute. reflexivity.
  - split; [exact H1 | exact H2].
Defined.

Lemma connect_deadline_witness :
  exists w',
    fire O (set_timers (<[O := ConnectTimeout]> ∅) connecting_client) = Return tt w' /\
    client w' = client connecting_client.
Proof.
  destruct (proj2 (connect_deadline (set_timers (<[O := ConnectTimeout]> ∅) connecting_client)) O)
    as (w' & H1 & H2 & _).
  - vm_compute. reflexivity.
  - exists w'. split; [exact H1 | exact H2].
Defined.

Lemma query_enqueues_or_submits_witness :
  exists w',
    query (ArgConfig VUndefined (example_query 7)) connected_client
    = Return RUndefined w' /\
    _activeQuery (client w') = Some (Made 0) /\
    trace w' = trace connected_client ++ [QSubmit (Made 0)].
Proof.
  destruct (query_enqueues_or_submits VUndefined (example_query 7) connected_client)
    as (w' & H1 & _ & H2).
  - vm_compute. reflexivity.
  - vm_compute. reflexivity.
  - vm_compute. reflexivity.
  - destruct H2 as (_ & H3 & _ & H4 & _); [vm_compute; reflexivity | vm_compute; reflexivity |].
    exists w'. repeat apply conj; [exact H1 | exact H3 | exact H4].
Defined.

Lemma md5_password_flow_witness :
  on_event (authenticationMD5Password 5) connecting_client
  = Return tt (set_trace
                 (trace connecting_client
                  ++ [Md5Hash (VString (str "alice")) (VString (str "secret")) 5])
                 connecting_client).
Proof.
  apply (proj1 (md5_password_flow 5 (str "secret") connecting_client
                  ltac:(vm_compute; reflexivity) ltac:(vm_compute; reflexivity))).
Defined.

Lemma statements_follow_parseComplete_witness :
  parsedStatements
    (run [ConnectionEmits (rowDescription 0); ConnectionEmits (commandComplete 0);
          ConnectionEmits readyForQuery_] busy_client)
  = parsedStatements busy_client.
Proof.
  apply (proj1 statements_follow_parseComplete).
  repeat constructor; discriminate.
Defined.

(* a client made without a password, connecting with pgpass installed: the
   backend asks for the password, pgpass finds "secret" *)
Lemma pgpass_password_stored_witness :
  let w := run [CallConnect None; ConnectionEmits connect]
             (new_world pgpass_config VNull) in
  let w' := run [ConnectionEmits authenticationCleartextPassword;
                 PgPassFound (VString (str "secret")) UseCleartext] w in
  on_event authenticationCleartextPassword w
  = Return tt (set_trace (trace w ++ [PgPassLookup]) w) /\
  trace (final (pgpass_found (VString (str "secret")) UseCleartext w))
  = trace w ++ [ConPassword (VString (str "secret"))] /\
  password (client w') = VString (str "secret") /\
  trace w' = trace w ++ [PgPassLookup; ConPassword (VString (str "secret"))].
Proof.
  cbv zeta.
  destruct (pgpass_password_stored
              (run [CallConnect None; ConnectionEmits connect]
                 (new_world pgpass_config VNull))
              ltac:(vm_compute; reflexivity) ltac:(vm_compute; reflexivity)
              ltac:(vm_compute; reflexivity)) as (H1 & H2 & _).
  split; [exact H1|].
  split; [exact (proj2 (H2 (VString (str "secret")) ltac:(discriminate)))|].
  split; vm_compute; reflexivity.
Defined.
